(** * Live transcoding over HTTP: argument builder and stream serving

    A shallow embedding of [pkg/ffmpeg/stream_transcode.go].

    - The three stream formats and [TranscodeOptions.makeStreamArgs] are
      pure functions on lists of strings.
    - [StreamManager.ServeTranscode], [StreamManager.getTranscodeStream],
      the handler closure and the goroutine that reads the encoder's
      standard error are programs over the calls that they make: on the
      response writer, the command, its pipes, the logger. A program is
      run on its own against a world that answers its calls ([World]),
      or as one thread of a system with the encoder and its two pipes,
      one move at a time ([Sys]).

    The definitions come first, the properties after them, and the runs
    of the samples last. *)

From Stdlib Require Import ZArith String List Bool Lia.
From Stdlib Require Import Strings.Byte Strings.Ascii.
From Stdlib Require Import Floats.SpecFloat.
From stdpp Require Import base gmap strings list pretty.
Import ListNotations.

Local Open Scope string_scope.
Local Open Scope list_scope.
Local Open Scope Z_scope.

(** ** Data *)

(** [type Args []string] *)
Definition Args := list string.

(** Go's [float64]: an IEEE 754 value. The code only compares it with
    zero and prints it. *)
Definition float64 := spec_float.

Definition float64_zero : float64 := S754_zero false.

(** [x != 0] on [float64]: NaN differs from everything, and both zeros
    are equal to [0]. *)
Definition float64_nonzero (x : float64) : bool := negb (SFeqb x float64_zero).

(** The fields of [file.VideoFile] that this file reads.
    [TranscodeOptions] holds a pointer to one; it is taken to be non-nil,
    since the callers resolve the file before they build the options. *)
Module VideoFile.
Record t := {
  Path : string;
  AudioCodec : string;
  Width : Z;
  Height : Z;
}.
End VideoFile.

(** ** Video filters *)

Module VideoFilter.
(** [type VideoFilter string]; the zero value is the empty filter. *)
Definition t := string.

Definition zero : t := "".

(** The resolution of a source: its smaller dimension, the number that a
    name such as 720p or 1080p stands for in either orientation. *)
Definition videoSize (inputWidth inputHeight : Z) : Z :=
  Z.min inputWidth inputHeight.

(** Modelled from the spec: [VideoFilter.ScaleDimensions] is not among
    the sources. An ffmpeg [scale] filter; a dimension of [-2] follows the
    aspect ratio. A filter is appended to a non-empty one after a comma. *)
Definition ScaleDimensions (f : t) (w h : Z) : t :=
  let s := "scale=" +:+ pretty w +:+ ":" +:+ pretty h in
  if String.eqb f "" then s else f +:+ "," +:+ s.

(** Modelled from the spec: [VideoFilter.ScaleMax] is not among the
    sources. "Compute a video filter that scales down to the lesser of
    (source resolution, ... maximum), never scales up; if source is
    already within bounds, the filter is a no-op." The smaller dimension
    is the one that is set. *)
Definition ScaleMax (f : t) (inputWidth inputHeight maxSize : Z) : t :=
  let target := Z.min (videoSize inputWidth inputHeight) maxSize in
  if videoSize inputWidth inputHeight <=? maxSize then f
  else if inputHeight <? inputWidth
       then ScaleDimensions f (-2) target
       else ScaleDimensions f target (-2).

(** Modelled from the spec: [VideoFilter.Args] is not among the sources.
    "If source is already within bounds ... omit scaling flags entirely":
    the empty filter gives no argument at all. *)
Definition Args (f : t) : list string :=
  if String.eqb f "" then [] else ["-vf"; f].
End VideoFilter.

(** ** Argument helpers *)

(** Modelled from the spec: the codec, container, log level and MIME
    constants are declared outside the sources. The values are ffmpeg's
    names for what the spec lists: H.264, VP9 and passthrough video, Opus
    audio, fragmented MP4, WebM and Matroska, error-only logging, and the
    MIME types [video/mp4], [video/webm], [video/x-matroska]. *)
Definition VideoCodecLibX264 : string := "libx264".
Definition VideoCodecVP9 : string := "libvpx-vp9".
Definition VideoCodecCopy : string := "copy".
Definition AudioCodecLibOpus : string := "libopus".
Definition FormatMP4 : string := "mp4".
Definition FormatWebm : string := "webm".
Definition FormatMatroska : string := "matroska".
Definition LogLevelError : string := "error".
Definition MimeMp4Video : string := "video/mp4".
Definition MimeWebmVideo : string := "video/webm".
Definition MimeMkvVideo : string := "video/x-matroska".

Module Args.
(** Modelled from the spec: [Args.LogLevel] is not among the sources.
    "Set log verbosity". *)
Definition LogLevel (a : Args) (l : string) : Args := a ++ ["-v"; l].

(** Modelled from the spec: [Args.Input] is not among the sources. The
    "input-file argument". *)
Definition Input (a : Args) (i : string) : Args := a ++ ["-i"; i].

(** Modelled from the spec: [Args.Output] is not among the sources. The
    "final output sink argument". *)
Definition Output (a : Args) (o : string) : Args := a ++ [o].

(** Modelled from the spec: [Args.VideoCodec] is not among the sources. *)
Definition VideoCodec (a : Args) (c : string) : Args := a ++ ["-c:v"; c].

(** Modelled from the spec: [Args.AudioCodec] is not among the sources.
    The "audio-codec flag". *)
Definition AudioCodec (a : Args) (c : string) : Args := a ++ ["-c:a"; c].

(** Modelled from the spec: [Args.VideoFilter] is not among the sources. *)
Definition VideoFilter (a : Args) (vf : VideoFilter.t) : Args :=
  a ++ VideoFilter.Args vf.

(** Modelled from the spec: [Args.SkipAudio] is not among the sources.
    The "explicit no audio flag". *)
Definition SkipAudio (a : Args) : Args := a ++ ["-an"].

(** Modelled from the spec: [Args.Format] is not among the sources. *)
Definition Format (a : Args) (f : string) : Args := a ++ ["-f"; f].

Section Seek.
(** [fmt.Sprint] on a [float64], from Go's library. *)
Variable Sprint : float64 -> string.

(** Modelled from the spec: [Args.Seek] is not among the sources. The
    "seek flag", carrying the offset. *)
Definition Seek (a : Args) (seconds : float64) : Args :=
  a ++ ["-ss"; Sprint seconds].
End Seek.
End Args.

(** ** Stream formats *)

Module StreamFormat.
Record t := {
  MimeType : string;
  Args : VideoFilter.t -> bool -> list string;
}.
End StreamFormat.

(** In each format [args] is the named result, [nil] at entry. *)
Definition StreamTypeMP4 : StreamFormat.t := {|
  StreamFormat.MimeType := MimeMp4Video;
  StreamFormat.Args := fun videoFilter videoOnly =>
    let args : Args := [] in
    let args := Args.VideoCodec args VideoCodecLibX264 in
    let args := args ++ ["-movflags"; "frag_keyframe+empty_moov";
                         "-pix_fmt"; "yuv420p";
                         "-preset"; "veryfast";
                         "-crf"; "25"] in
    let args := Args.VideoFilter args videoFilter in
    let args := if videoOnly then Args.SkipAudio args
                else args ++ ["-ac"; "2"] in
    Args.Format args FormatMP4
|}.

Definition StreamTypeWEBM : StreamFormat.t := {|
  StreamFormat.MimeType := MimeWebmVideo;
  StreamFormat.Args := fun videoFilter videoOnly =>
    let args : Args := [] in
    let args := Args.VideoCodec args VideoCodecVP9 in
    let args := args ++ ["-pix_fmt"; "yuv420p";
                         "-deadline"; "realtime";
                         "-cpu-used"; "5";
                         "-row-mt"; "1";
                         "-crf"; "30";
                         "-b:v"; "0"] in
    let args := Args.VideoFilter args videoFilter in
    let args := if videoOnly then Args.SkipAudio args
                else args ++ ["-ac"; "2"] in
    Args.Format args FormatWebm
|}.

Definition StreamTypeMKV : StreamFormat.t := {|
  StreamFormat.MimeType := MimeMkvVideo;
  StreamFormat.Args := fun videoFilter videoOnly =>
    let args : Args := [] in
    let args := Args.VideoCodec args VideoCodecCopy in
    let args := if videoOnly then Args.SkipAudio args
                else
                  let args := Args.AudioCodec args AudioCodecLibOpus in
                  args ++ ["-b:a"; "96k"; "-vbr"; "on"; "-ac"; "2"] in
    Args.Format args FormatMatroska
|}.

(** The formats that the file declares. *)
Definition declaredFormat (F : StreamFormat.t) : Prop :=
  F = StreamTypeMP4 \/ F = StreamTypeWEBM \/ F = StreamTypeMKV.

(** ** Options, configuration, manager *)

Module TranscodeOptions.
Record t := {
  StreamType : StreamFormat.t;
  VideoFile : VideoFile.t;
  Resolution : string;
  StartTime : float64;
}.
End TranscodeOptions.

(** The configuration interface [sm.config], by the three getters that
    [makeStreamArgs] calls. [GetMaxStreamingTranscodeSize] returns a
    [models.StreamingResolutionEnum], a string type. *)
Module StreamManagerConfig.
Record t := {
  GetMaxStreamingTranscodeSize : string;
  GetLiveTranscodeInputArgs : list string;
  GetLiveTranscodeOutputArgs : list string;
}.
End StreamManagerConfig.

(** [StreamManager]: the configuration and the encoder, the path of the
    ffmpeg binary. The lock manager is reached through a call. *)
Module StreamManager.
Record t := {
  config : StreamManagerConfig.t;
  encoder : string;
}.
End StreamManager.

(** ** Errors *)

(** [os.ProcessState], as far as an exit error shows it. *)
Module ProcessState.
Record t := {
  ExitCode : Z;
  Signaled : bool;
}.

Definition String (p : t) : string :=
  if Signaled p then "signal: killed"
  else "exit status " +:+ pretty (ExitCode p).
End ProcessState.

(** Go's [error] values, by the kinds that this file tells apart: the
    result of [errors.New], a [syscall.Errno], an [*exec.ExitError], and
    an error that wraps another one (an [*os.PathError], a
    [*net.OpError], ...). A [nil] error is [None] in [option error]. *)
Inductive error : Type :=
| errorString (s : string)
| Errno (n : Z)
| ExitError (st : ProcessState.t)
| wrapError (msg : string) (err : error).

(** [syscall.EPIPE] *)
Definition EPIPE : Z := 32.
Definition ECONNRESET : Z := 104.

(** [errors.Is(err, target)] for a target that is a [syscall.Errno]: the
    chain of wrapped errors holds that number. *)
Fixpoint errors_Is (err : error) (target : Z) : bool :=
  match err with
  | Errno n => n =? target
  | wrapError _ inner => errors_Is inner target
  | errorString _ | ExitError _ => false
  end.

(** [errors.As(err, &exitError)] with [exitError] an [*exec.ExitError]:
    the chain holds an exit error. *)
Fixpoint errors_As_ExitError (err : error) : bool :=
  match err with
  | ExitError _ => true
  | wrapError _ inner => errors_As_ExitError inner
  | errorString _ | Errno _ => false
  end.

(** [err.Error()] *)
Fixpoint Error (err : error) : string :=
  match err with
  | errorString s => s
  | Errno n =>
      if n =? EPIPE then "broken pipe"
      else if n =? ECONNRESET then "connection reset by peer"
      else "errno " +:+ pretty n
  | ExitError st => ProcessState.String st
  | wrapError msg inner => msg +:+ ": " +:+ Error inner
  end.

(** ** The response writer *)

Definition StatusOK : Z := 200.
Definition StatusBadRequest : Z := 400.

(** An [http.ResponseWriter], as [net/http] documents it: the header map
    can be changed until the status line is written; [WriteHeader] sends
    the status and the header map of that moment, once; a [Write] or a
    [Flush] before any [WriteHeader] sends status 200 first. *)
Module Response.
Record t := {
  header : gmap string (list string);
  status : option Z;
  sent : gmap string (list string);
  body : list byte;
}.

Definition fresh : t :=
  {| header := ∅; status := None; sent := ∅; body := [] |}.

(** [w.Header().Set(key, value)] *)
Definition Set_ (key value : string) (r : t) : t :=
  {| header := <[key := [value]]> (header r); status := status r;
     sent := sent r; body := body r |}.

Definition WriteHeader (code : Z) (r : t) : t :=
  match status r with
  | Some _ => r
  | None =>
      {| header := header r; status := Some code;
         sent := header r; body := body r |}
  end.

(** The bytes of [p] that reach the body. *)
Definition Write (p : list byte) (r : t) : t :=
  let r := WriteHeader StatusOK r in
  {| header := header r; status := status r;
     sent := sent r; body := body r ++ p |}.

Definition Flush (r : t) : t := WriteHeader StatusOK r.
End Response.

(** ** Calls and programs *)

(** [exec.Cmd]: the command line it was made for. *)
Module Cmd.
Record t := { Args : list string }.
End Cmd.

Inductive Level := LevelError | LevelWarn.

(** What a program does to the outside, one entry per call, in order.
    [EReadStdout] and [EWrite] inside an [io.Copy] are the reads and
    writes that the copy makes. *)
Inductive Event :=
| EReadLock (path : string)
| EStdoutPipe
| EStderrPipe
| EStart (argv : list string)
| EAttachCommand
| EGo
| EReadAllStderr
| EWait
| EHeaderSet (key value : string)
| EWriteHeader (code : Z)
| EWrite (p : list byte)
| EFlush
| EReadStdout (p : list byte)
| EReadStdoutEnd (err : option error)
| ELog (lvl : Level) (format : string) (args : list string).

(** The calls that the code makes, indexed by what they return. *)
Inductive Call : Type -> Type :=
| ReadLock (path : string) : Call unit
| StdoutPipe (cmd : Cmd.t) : Call (option error)
| StderrPipe (cmd : Cmd.t) : Call (option error)
| Start (cmd : Cmd.t) : Call (option error)
| AttachCommand (cmd : Cmd.t) : Call unit
| ReadAllStderr : Call (list byte)
| Wait (cmd : Cmd.t) : Call (option error)
| HeaderSet (key value : string) : Call unit
| WriteHeader (code : Z) : Call unit
| Write (p : list byte) : Call (option error)
| CopyStdout : Call (option error)
| Flush : Call unit
| Logf (lvl : Level) (format : string) (args : list string) : Call unit.

(** A program: it returns, makes a call and goes on with the answer, or
    starts a goroutine and goes on. *)
Inductive Prog (A : Type) : Type :=
| Ret (a : A)
| Vis {X : Type} (c : Call X) (k : X -> Prog A)
| Spawn (body : Prog unit) (k : Prog A).

Arguments Ret {A} a.
Arguments Vis {A X} c k.
Arguments Spawn {A} body k.

Fixpoint bind {A B : Type} (p : Prog A) (f : A -> Prog B) : Prog B :=
  match p with
  | Ret a => f a
  | Vis c k => Vis c (fun x => bind (k x) f)
  | Spawn body k => Spawn body (bind k f)
  end.

Definition call {X : Type} (c : Call X) : Prog X := Vis c Ret.

Definition go (body : Prog unit) : Prog unit := Spawn body (Ret tt).

Declare Scope prog_scope.
Delimit Scope prog_scope with prog.
Bind Scope prog_scope with Prog.

Notation "x <- p ;; q" := (bind p (fun x => q))
  (at level 100, p at next level, q at level 200, right associativity)
  : prog_scope.
Notation "p ;; q" := (bind p (fun _ => q))
  (at level 100, q at level 200, right associativity) : prog_scope.

(** What a fallible function returns: Go's [(value, error)] pair with
    exactly one side set. *)
Inductive result (A : Type) : Type :=
| Ok (a : A)
| Err (err : error).

Arguments Ok {A} a.
Arguments Err {A} err.

(** ** The world a request runs in *)

(** What the encoder writes, in order: a chunk on its standard output or
    a chunk on its standard error. *)
Inductive Output :=
| ToStdout (p : list byte)
| ToStderr (p : list byte).

Fixpoint stdoutOf (script : list Output) : list (list byte) :=
  match script with
  | [] => []
  | ToStdout p :: rest => p :: stdoutOf rest
  | ToStderr _ :: rest => stdoutOf rest
  end.

Fixpoint stderrOf (script : list Output) : list byte :=
  match script with
  | [] => []
  | ToStdout _ :: rest => stderrOf rest
  | ToStderr p :: rest => p ++ stderrOf rest
  end.

(** What the outside will answer to a request: whether the pipes and the
    process can be had, what the encoder writes and what [Wait] reports
    when it has ended, how reading its output ends ([None]: end of
    stream), and how many bytes of body the client takes before a write
    to it fails ([None]: all of them). *)
Module Env.
Record t := {
  stdoutPipe : option error;
  stderrPipe : option error;
  start : option error;
  script : list Output;
  stdoutEnd : option error;
  wait : option error;
  client : option (nat * error);
}.
End Env.

Module World.
Record t := {
  env : Env.t;
  pending : list (list byte);
  credit : option (nat * error);
  resp : Response.t;
  trace : list Event;
  spawned : list (Prog unit);
}.

Definition init (e : Env.t) : t :=
  {| env := e; pending := stdoutOf (Env.script e); credit := Env.client e;
     resp := Response.fresh; trace := []; spawned := [] |}.

Definition emit (ev : Event) (w : t) : t :=
  {| env := env w; pending := pending w; credit := credit w;
     resp := resp w; trace := trace w ++ [ev]; spawned := spawned w |}.

Definition onResp (f : Response.t -> Response.t) (w : t) : t :=
  {| env := env w; pending := pending w; credit := credit w;
     resp := f (resp w); trace := trace w; spawned := spawned w |}.

Definition setCredit (c : option (nat * error)) (w : t) : t :=
  {| env := env w; pending := pending w; credit := c;
     resp := resp w; trace := trace w; spawned := spawned w |}.

Definition setPending (l : list (list byte)) (w : t) : t :=
  {| env := env w; pending := l; credit := credit w;
     resp := resp w; trace := trace w; spawned := spawned w |}.

Definition addGoroutine (body : Prog unit) (w : t) : t :=
  {| env := env w; pending := pending w; credit := credit w;
     resp := resp w; trace := trace w; spawned := spawned w ++ [body] |}.

(** [w.Write(p)]: the part of [p] that the client still takes goes to
    the body; if that is not all of it, the write fails. *)
Definition write (p : list byte) (w : t) : option error * t :=
  let w := emit (EWrite p) w in
  match credit w with
  | None => (None, onResp (Response.Write p) w)
  | Some (n, e) =>
      if (length p <=? n)%nat
      then (None, setCredit (Some ((n - length p)%nat, e)) (onResp (Response.Write p) w))
      else (Some e, setCredit (Some (0%nat, e)) (onResp (Response.Write (take n p)) w))
  end.

(** [io.Copy(w, stdout)]: read a chunk, write it, until a read ends the
    stream or a write fails. The end of the stream is not an error. The
    reads are those of a thread that runs alone: they find all that the
    encoder writes, chunk by chunk. *)
Fixpoint copy (reads : list (list byte)) (w : t) : option error * t :=
  match reads with
  | [] => (Env.stdoutEnd (env w),
           emit (EReadStdoutEnd (Env.stdoutEnd (env w))) (setPending [] w))
  | p :: rest =>
      let w := emit (EReadStdout p) (setPending rest w) in
      match p with
      | [] => copy rest w
      | _ :: _ =>
          match write p w with
          | (Some e, w) => (Some e, w)
          | (None, w) => copy rest w
          end
      end
  end.

(** One call, answered by the world. *)
Definition exec {X : Type} (c : Call X) (w : t) : X * t :=
  match c in Call X return X * t with
  | ReadLock path => (tt, emit (EReadLock path) w)
  | StdoutPipe _ => (Env.stdoutPipe (env w), emit EStdoutPipe w)
  | StderrPipe _ => (Env.stderrPipe (env w), emit EStderrPipe w)
  | Start cmd => (Env.start (env w), emit (EStart (Cmd.Args cmd)) w)
  | AttachCommand _ => (tt, emit EAttachCommand w)
  | ReadAllStderr => (stderrOf (Env.script (env w)), emit EReadAllStderr w)
  | Wait _ => (Env.wait (env w), emit EWait w)
  | HeaderSet key value =>
      (tt, onResp (Response.Set_ key value) (emit (EHeaderSet key value) w))
  | WriteHeader code =>
      (tt, onResp (Response.WriteHeader code) (emit (EWriteHeader code) w))
  | Write p => write p w
  | CopyStdout => copy (pending w) w
  | Flush => (tt, onResp Response.Flush (emit EFlush w))
  | Logf lvl format args => (tt, emit (ELog lvl format args) w)
  end.

(** A program run to its end on its own. A goroutine that it starts is
    recorded, not run: this gives the calls of one thread, in their
    order. What a request delivers when the goroutine and the encoder
    move in between is the matter of the steps of [Sys] below. *)
Fixpoint run {A : Type} (p : Prog A) (w : t) : A * t :=
  match p with
  | Ret a => (a, w)
  | Vis c k => let '(x, w) := exec c w in run (k x) w
  | Spawn body k => run k (addGoroutine body (emit EGo w))
  end.
End World.

(** ** The request, the encoder and the pipes, step by step *)

(** The encoder as a process. *)
Inductive Proc :=
| NotStarted
| Running (todo : list Output)
| Exited (err : option error).

(** A thread of the server: what it has still to do, and the bytes that
    an [io.ReadAll] it is in has gathered so far. *)
Module Thread.
Record t := {
  code : Prog unit;
  acc : list byte;
}.
End Thread.

(** Who moves: a thread of the server, by its index (the request's own
    thread is number [0]); the encoder, which writes its next bytes or
    ends; the request's context, which is cancelled and kills the
    encoder. *)
Inductive Actor :=
| ThreadOf (i : nat)
| Encoder
| Cancel.

(** The error of a read on a pipe that [Wait] has closed. *)
Definition ErrClosed : error := errorString "file already closed".

(** What [Wait] reports for a process that was killed. *)
Definition killed : error :=
  ExitError {| ProcessState.ExitCode := -1; ProcessState.Signaled := true |}.

Module Sys.
Record t := {
  world : World.t;
  proc : Proc;
  outPipe : list byte;
  errPipe : list byte;
  capacity : nat;
  closed : bool;
  threads : list Thread.t;
}.

Definition init (e : Env.t) (capacity : nat) (main : Prog unit) : t :=
  {| world := World.init e; proc := NotStarted; outPipe := []; errPipe := [];
     capacity := capacity; closed := false;
     threads := [ {| Thread.code := main; Thread.acc := [] |} ] |}.

Definition withWorld (w : World.t) (s : t) : t :=
  {| world := w; proc := proc s; outPipe := outPipe s; errPipe := errPipe s;
     capacity := capacity s; closed := closed s; threads := threads s |}.

Definition withProc (p : Proc) (s : t) : t :=
  {| world := world s; proc := p; outPipe := outPipe s; errPipe := errPipe s;
     capacity := capacity s; closed := closed s; threads := threads s |}.

Definition withOutPipe (b : list byte) (s : t) : t :=
  {| world := world s; proc := proc s; outPipe := b; errPipe := errPipe s;
     capacity := capacity s; closed := closed s; threads := threads s |}.

Definition withErrPipe (b : list byte) (s : t) : t :=
  {| world := world s; proc := proc s; outPipe := outPipe s; errPipe := b;
     capacity := capacity s; closed := closed s; threads := threads s |}.

Definition withClosed (b : bool) (s : t) : t :=
  {| world := world s; proc := proc s; outPipe := outPipe s; errPipe := errPipe s;
     capacity := capacity s; closed := b; threads := threads s |}.

Definition withThreads (l : list Thread.t) (s : t) : t :=
  {| world := world s; proc := proc s; outPipe := outPipe s; errPipe := errPipe s;
     capacity := capacity s; closed := closed s; threads := l |}.

(** Thread [i] goes on with [code], outside any [io.ReadAll]. *)
Definition continue (i : nat) (code : Prog unit) (s : t) : t :=
  withThreads (<[i := {| Thread.code := code; Thread.acc := [] |}]> (threads s)) s.

(** One step of a call by thread [i], whose code is [Vis c k]. The calls
    that wait for the encoder have no step while they wait:
    - [io.ReadAll(stderr)] takes what the pipe holds; it returns at the
      end of the stream, when the encoder has ended and the pipe is empty;
    - [io.Copy(w, stdout)] takes what the pipe holds and writes it to the
      response; it returns at the end of the stream, at a failed write, or
      at a read on a pipe that [Wait] has closed;
    - [cmd.Wait()] returns when the encoder has ended, and closes the
      pipes;
    - [cmd.Start()] starts the encoder, once.
    Every other call is answered at once, as in [World.exec]. *)
Definition callStep (i : nat) (a : list byte) {X : Type} (c : Call X)
  : (X -> Prog unit) -> t -> option t :=
  match c in Call X return (X -> Prog unit) -> t -> option t with
  | Start cmd => fun k s =>
      let s := withWorld (World.emit (EStart (Cmd.Args cmd)) (world s)) s in
      match Env.start (World.env (world s)) with
      | Some e => Some (continue i (k (Some e)) s)
      | None =>
          match proc s with
          | NotStarted =>
              Some (continue i (k None)
                      (withProc (Running (Env.script (World.env (world s)))) s))
          | _ => Some (continue i (k (Some (errorString "exec: already started"))) s)
          end
      end
  | ReadAllStderr => fun k s =>
      match errPipe s with
      | _ :: _ =>
          Some (withThreads
                  (<[i := {| Thread.code := Vis ReadAllStderr k;
                             Thread.acc := a ++ errPipe s |}]> (threads s))
                  (withErrPipe [] s))
      | [] =>
          match proc s with
          | Exited _ =>
              Some (continue i (k a)
                      (withWorld (World.emit EReadAllStderr (world s)) s))
          | _ => None
          end
      end
  | Wait _ => fun k s =>
      match proc s with
      | Exited err =>
          Some (continue i (k err)
                  (withClosed true (withWorld (World.emit EWait (world s)) s)))
      | _ => None
      end
  | CopyStdout => fun k s =>
      if closed s
      then Some (continue i (k (Some ErrClosed))
                   (withWorld (World.emit (EReadStdoutEnd (Some ErrClosed)) (world s)) s))
      else
        match outPipe s with
        | _ :: _ =>
            let '(ew, w) :=
              World.write (outPipe s) (World.emit (EReadStdout (outPipe s)) (world s)) in
            let s := withOutPipe [] (withWorld w s) in
            match ew with
            | Some e => Some (continue i (k (Some e)) s)
            | None => Some (continue i (Vis CopyStdout k) s)
            end
        | [] =>
            match proc s with
            | Exited _ =>
                let e := Env.stdoutEnd (World.env (world s)) in
                Some (continue i (k e)
                        (withWorld (World.emit (EReadStdoutEnd e) (world s)) s))
            | _ => None
            end
        end
  | c => fun k s =>
      let '(x, w) := World.exec c (world s) in
      Some (continue i (k x) (withWorld w s))
  end.

Definition threadStep (i : nat) (s : t) : option t :=
  match threads s !! i with
  | None => None
  | Some th =>
      match Thread.code th with
      | Ret _ => None
      | Spawn body k =>
          let s := withWorld (World.emit EGo (world s)) s in
          Some (withThreads
                  (<[i := {| Thread.code := k; Thread.acc := [] |}]> (threads s)
                     ++ [ {| Thread.code := body; Thread.acc := [] |} ])
                  s)
      | Vis c k => callStep i (Thread.acc th) c k s
      end
  end.

(** The encoder writes as much of its next chunk as the pipe has room
    for, and waits while there is none; with nothing left to write, it
    ends. *)
Definition pipeWrite (capacity : nat) (pipe p : list byte)
  : option (list byte * list byte) :=
  let room := (capacity - length pipe)%nat in
  match room with
  | O => None
  | S _ => Some (pipe ++ take room p, drop room p)
  end.

Definition encoderStep (s : t) : option t :=
  match proc s with
  | Running [] => Some (withProc (Exited (Env.wait (World.env (world s)))) s)
  | Running (ToStdout p :: rest) =>
      match p with
      | [] => Some (withProc (Running rest) s)
      | _ :: _ =>
          match pipeWrite (capacity s) (outPipe s) p with
          | None => None
          | Some (pipe, []) => Some (withProc (Running rest) (withOutPipe pipe s))
          | Some (pipe, p') =>
              Some (withProc (Running (ToStdout p' :: rest)) (withOutPipe pipe s))
          end
      end
  | Running (ToStderr p :: rest) =>
      match p with
      | [] => Some (withProc (Running rest) s)
      | _ :: _ =>
          match pipeWrite (capacity s) (errPipe s) p with
          | None => None
          | Some (pipe, []) => Some (withProc (Running rest) (withErrPipe pipe s))
          | Some (pipe, p') =>
              Some (withProc (Running (ToStderr p' :: rest)) (withErrPipe pipe s))
          end
      end
  | NotStarted | Exited _ => None
  end.

Definition cancelStep (s : t) : option t :=
  match proc s with
  | Running _ => Some (withProc (Exited (Some killed)) s)
  | NotStarted | Exited _ => None
  end.

Definition step (a : Actor) (s : t) : option t :=
  match a with
  | ThreadOf i => threadStep i s
  | Encoder => encoderStep s
  | Cancel => cancelStep s
  end.

(** The states that a request can be in: those that some order of moves
    leads to. *)
Inductive reachable (s0 : t) : t -> Prop :=
| reachable_init : reachable s0 s0
| reachable_step s a s' : reachable s0 s -> step a s = Some s' -> reachable s0 s'.

(** A schedule, run from a state; a move that cannot be made is skipped. *)
Fixpoint play (sched : list Actor) (s : t) : t :=
  match sched with
  | [] => s
  | a :: rest =>
      match step a s with
      | Some s' => play rest s'
      | None => play rest s
      end
  end.

(** The encoder has a chunk for its standard error and the pipe has no
    room for any of it. *)
Definition stalledOnStderr (s : t) : Prop :=
  exists p rest, proc s = Running (ToStderr p :: rest) /\ p <> [] /\
                 (capacity s <= length (errPipe s))%nat.
End Sys.

(** ** The functions of the file *)

(** The handler closure, lines 191 to 203. *)
Definition handler (mimeType : string) : Prog unit :=
  (call (HeaderSet "Content-Type" mimeType) ;;
   call (WriteHeader StatusOK) ;;

   err <- call CopyStdout ;;
   match err with
   | Some e =>
       if negb (errors_Is e EPIPE)
       then call (Logf LevelError
                    "[transcode] error serving transcoded video file: %v"
                    [Error e])
       else Ret tt
   | None => Ret tt
   end ;;

   call Flush)%prog.

(** The goroutine, lines 169 to 188. [io.ReadAll]'s own error is dropped
    by the code. *)
Definition stderrTask (cmd : Cmd.t) : Prog unit :=
  (errStr <- call ReadAllStderr ;;

   errCmd <- call (Wait cmd) ;;

   let e := string_of_list_byte errStr in
   let err := if negb (String.eqb e "") then Some (errorString e) else errCmd in

   match err with
   | Some x =>
       if negb (errors_As_ExitError x)
       then call (Logf LevelError
                    "[transcode] ffmpeg error when running command <%s>: %v"
                    [String.concat " " (Cmd.Args cmd); Error x])
       else Ret tt
   | None => Ret tt
   end)%prog.

(** Modelled from the spec: [FFMpeg.Command] is not among the sources.
    "Invokes one external encoder binary per request ..., passing the
    built argument sequence." *)
Definition Command (encoder : string) (args : Args) : Cmd.t :=
  {| Cmd.Args := encoder :: args |}.

(** ** What is looked at in a run *)

(** The calls on the response writer. *)
Definition isRespCall (ev : Event) : bool :=
  match ev with
  | EHeaderSet _ _ | EWriteHeader _ | EWrite _ | EFlush => true
  | _ => false
  end.

Definition respCalls (tr : list Event) : list Event := List.filter isRespCall tr.

(** The entries of the log. *)
Definition isLog (ev : Event) : bool :=
  match ev with
  | ELog _ _ _ => true
  | _ => false
  end.

Definition logged (tr : list Event) : list Event := List.filter isLog tr.

(** The reads on the encoder's standard output. *)
Definition isStdoutRead (ev : Event) : bool :=
  match ev with
  | EReadStdout _ | EReadStdoutEnd _ => true
  | _ => false
  end.

Fixpoint bytes_eqb (p q : list byte) : bool :=
  match p, q with
  | [], [] => true
  | a :: p, b :: q => Byte.eqb a b && bytes_eqb p q
  | _, _ => false
  end.

(** The events of a copy that streams: every chunk that is read is
    written before the next read, and nothing else happens. *)
Fixpoint streamed (tr : list Event) : bool :=
  match tr with
  | [] => true
  | [EReadStdoutEnd _] => true
  | EReadStdout [] :: rest => streamed rest
  | EReadStdout p :: EWrite q :: rest =>
      bytes_eqb p q && streamed rest
  | _ => false
  end.

(** Each write in a sequence of calls on the response writer is followed
    at once by a flush. *)
Definition flushedAfterEveryWrite (calls : list Event) : Prop :=
  forall i p, calls !! i = Some (EWrite p) -> calls !! S i = Some EFlush.

(** The error that keeps a request from getting its handler, if any:
    that of the first of [StdoutPipe], [StderrPipe] and [Start] to fail. *)
Definition startFailure (e : Env.t) : option error :=
  match Env.stdoutPipe e with
  | Some err => Some err
  | None =>
      match Env.stderrPipe e with
      | Some err => Some err
      | None => Env.start e
      end
  end.

(** The error that [io.Copy(w, stdout)] returns in a world. *)
Definition copyResult (w : World.t) : option error :=
  fst (World.copy (World.pending w) w).

(** What the goroutine adds to the log in a world. *)
Definition stderrTaskLog (cmd : Cmd.t) (w : World.t) : list Event :=
  logged (drop (length (World.trace w))
               (World.trace (snd (World.run (stderrTask cmd) w)))).

(** The sentence of C2 on exits that are not a kill: a process that ends
    by itself with a status other than zero is reported in the log. *)
Definition nonzeroExitReported : Prop :=
  forall (cmd : Cmd.t) (w : World.t) (st : ProcessState.t),
    ProcessState.Signaled st = false ->
    ProcessState.ExitCode st <> 0 ->
    Env.wait (World.env w) = Some (ExitError st) ->
    stderrTaskLog cmd w <> [].

(** ** The shape of a program around the start of the encoder *)

Definition isStart {X : Type} (c : Call X) : bool :=
  match c with
  | Start _ => true
  | _ => false
  end.

Definition isCopy {X : Type} (c : Call X) : bool :=
  match c with
  | CopyStdout => true
  | _ => false
  end.

(** A program that starts no goroutine. *)
Fixpoint noSpawn {A : Type} (p : Prog A) : Prop :=
  match p with
  | Ret _ => True
  | Vis _ k => forall x, noSpawn (k x)
  | Spawn _ _ => False
  end.

(** The next thing that [p] does is to start the goroutine [body]; it
    starts no other one later. *)
Definition startsTaskNow (body : Prog unit) (p : Prog unit) : Prop :=
  match p with
  | Spawn b k => b = body /\ noSpawn k
  | _ => False
  end.

(** The same, after attaching the command at most. *)
Definition startsTask (body : Prog unit) (p : Prog unit) : Prop :=
  match p with
  | Ret _ => False
  | Vis c k =>
      match c in Call X return (X -> Prog unit) -> Prop with
      | AttachCommand _ => fun k => startsTaskNow body (k tt)
      | _ => fun _ => False
      end k
  | Spawn b k => b = body /\ noSpawn k
  end.

(** Up to its [Start], [p] starts no goroutine and copies nothing; when
    its [Start] succeeds, the next thing it does is to start [body]. *)
Fixpoint startsTaskOnStart (body : Prog unit) (p : Prog unit) : Prop :=
  match p with
  | Ret _ => True
  | Vis c k =>
      match c in Call X return (X -> Prog unit) -> Prop with
      | Start _ => fun k =>
          (forall e, startsTaskOnStart body (k (Some e)))
          /\ startsTask body (k None)
      | CopyStdout => fun _ => False
      | _ => fun k => forall x, startsTaskOnStart body (k x)
      end k
  | Spawn _ _ => False
  end.

(** Nothing has been read from the encoder's standard output. *)
Definition unread (s : Sys.t) : Prop :=
  forall ev, In ev (World.trace (Sys.world s)) -> isStdoutRead ev = false.

(** The goroutine [body], inside its [io.ReadAll] with [acc] gathered. *)
Definition taskThread (body : Prog unit) (acc : list byte) : Thread.t :=
  {| Thread.code := body; Thread.acc := acc |}.

(** Where a request is with respect to its goroutine [body]:
    - the encoder is not started: one thread, nothing read, and [body]
      will be started right after the encoder;
    - the encoder runs: either one thread, nothing read, and to start
      [body] is the next thing it does, or [body] is there, inside its
      [io.ReadAll];
    - the encoder has ended: the same, with [body] anywhere in its code. *)
Definition drained (body : Prog unit) (s : Sys.t) : Prop :=
  match Sys.proc s with
  | NotStarted =>
      exists m, Sys.threads s = [m]
                /\ startsTaskOnStart body (Thread.code m) /\ unread s
  | Running _ =>
      (exists m, Sys.threads s = [m]
                 /\ startsTask body (Thread.code m) /\ unread s)
      \/ (exists m acc, Sys.threads s = [m; taskThread body acc]
                        /\ noSpawn (Thread.code m))
  | Exited _ =>
      (exists m, Sys.threads s = [m]
                 /\ startsTask body (Thread.code m) /\ unread s)
      \/ (exists m t, Sys.threads s = [m; t]
                      /\ noSpawn (Thread.code m) /\ noSpawn (Thread.code t))
  end.

(** ** More that is looked at in a run *)

(** The entries of the log, by level. *)
Definition isErrorLog (ev : Event) : bool :=
  match ev with
  | ELog LevelError _ _ => true
  | _ => false
  end.

Definition errorsLogged (tr : list Event) : list Event := List.filter isErrorLog tr.

Definition isWarnLog (ev : Event) : bool :=
  match ev with
  | ELog LevelWarn _ _ => true
  | _ => false
  end.

Definition warningsLogged (tr : list Event) : list Event := List.filter isWarnLog tr.

(** The calls on the command, its pipes and the goroutine. *)
Definition isCmdCall (ev : Event) : bool :=
  match ev with
  | EStdoutPipe | EStderrPipe | EStart _ | EAttachCommand | EGo
  | EReadAllStderr | EWait => true
  | _ => false
  end.

Definition cmdCalls (tr : list Event) : list Event := List.filter isCmdCall tr.

(** What the handler logs for the error that its copy returned. *)
Definition copyLog (err : option error) : list Event :=
  match err with
  | Some e =>
      if errors_Is e EPIPE then []
      else [ELog LevelError "[transcode] error serving transcoded video file: %v"
              [Error e]]
  | None => []
  end.

(** The options [o] with the resolution [name] asked for. *)
Definition withResolution (name : string) (o : TranscodeOptions.t) : TranscodeOptions.t :=
  {| TranscodeOptions.StreamType := TranscodeOptions.StreamType o;
     TranscodeOptions.VideoFile := TranscodeOptions.VideoFile o;
     TranscodeOptions.Resolution := name;
     TranscodeOptions.StartTime := TranscodeOptions.StartTime o |}.

(** The manager [sm] with another maximum configured. *)
Definition withMaxSize (name : string) (sm : StreamManager.t) : StreamManager.t :=
  {| StreamManager.config :=
       {| StreamManagerConfig.GetMaxStreamingTranscodeSize := name;
          StreamManagerConfig.GetLiveTranscodeInputArgs :=
            StreamManagerConfig.GetLiveTranscodeInputArgs (StreamManager.config sm);
          StreamManagerConfig.GetLiveTranscodeOutputArgs :=
            StreamManagerConfig.GetLiveTranscodeOutputArgs (StreamManager.config sm) |};
     StreamManager.encoder := StreamManager.encoder sm |}.

(** ** The response across the threads of a request *)

(** The calls that act on the response writer, the copy included. *)
Definition touchesResponse {X : Type} (c : Call X) : bool :=
  match c with
  | HeaderSet _ _ | WriteHeader _ | Write _ | CopyStdout | Flush => true
  | _ => false
  end.

(** A program that leaves the response alone, with the goroutines that
    it starts. *)
Fixpoint quiet {A : Type} (p : Prog A) : Prop :=
  match p with
  | Ret _ => True
  | Vis c k => touchesResponse c = false /\ forall x, quiet (k x)
  | Spawn body k => quiet body /\ quiet k
  end.

(** Where the response of a request is: nothing sent, status 200 sent
    and the encoder's output being copied, or status 400 sent. *)
Inductive Phase := Fresh | Streaming | Failed.

(** From phase [ph] on, [p] keeps to this: the first status that it
    writes is 200 or 400; it writes to the body itself only after 400,
    and copies the encoder's output only after 200; it flushes only after
    a status; the goroutines that it starts are quiet. *)
Fixpoint keeps (ph : Phase) (p : Prog unit) : Prop :=
  match p with
  | Ret _ => True
  | Spawn body k => quiet body /\ keeps ph k
  | Vis c k =>
      match c in Call X return (X -> Prog unit) -> Prop with
      | WriteHeader code => fun k =>
          match ph with
          | Fresh =>
              (code = StatusOK /\ keeps Streaming (k tt))
              \/ (code = StatusBadRequest /\ keeps Failed (k tt))
          | _ => keeps ph (k tt)
          end
      | Write _ => fun k => ph = Failed /\ forall x, keeps ph (k x)
      | CopyStdout => fun k => ph = Streaming /\ forall x, keeps ph (k x)
      | Flush => fun k => ph <> Fresh /\ keeps ph (k tt)
      | _ => fun k => forall x, keeps ph (k x)
      end k
  end.

(** The body of the response is [done], or a part of it and the client
    takes no more. *)
Definition delivered (w : World.t) (done : list byte) : Prop :=
  Response.body (World.resp w) = done
  \/ ((exists e, World.credit w = Some (0%nat, e))
      /\ Response.body (World.resp w) `prefix_of` done).

Definition inPhase (ph : Phase) (w : World.t) (done : list byte) : Prop :=
  match ph with
  | Fresh =>
      Response.status (World.resp w) = None
      /\ Response.body (World.resp w) = [] /\ done = []
  | Streaming =>
      Response.status (World.resp w) = Some StatusOK /\ delivered w done
  | Failed =>
      Response.status (World.resp w) = Some StatusBadRequest /\ done = []
  end.

(** The output of the encoder [env], kept whole: what was taken from the
    pipe ([done]), what the pipe holds, and what is still to come
    ([tail]) make up what the encoder writes; the first thread keeps to
    its phase and the others are quiet. *)
Definition intact (env : Env.t) (s : Sys.t) : Prop :=
  World.env (Sys.world s) = env
  /\ (Env.client env = None -> World.credit (Sys.world s) = None)
  /\ exists ph m rest done tail,
       Sys.threads s = m :: rest
       /\ keeps ph (Thread.code m)
       /\ Forall (fun t => quiet (Thread.code t)) rest
       /\ done ++ Sys.outPipe s ++ tail = concat (stdoutOf (Env.script env))
       /\ (Sys.proc s = NotStarted -> done = [] /\ Sys.outPipe s = [])
       /\ (forall todo, Sys.proc s = Running todo -> tail = concat (stdoutOf todo))
       /\ inPhase ph (Sys.world s) done.

(** ** A request played to its end *)

(** The handler from the return of its copy on, lines 198 to 202. *)
Definition afterCopy (err : option error) : Prog unit :=
  (match err with
   | Some e =>
       if negb (errors_Is e EPIPE)
       then call (Logf LevelError
                    "[transcode] error serving transcoded video file: %v"
                    [Error e])
       else Ret tt
   | None => Ret tt
   end ;;

   call Flush)%prog.

(** The request's thread up to its copy: the lock, the two pipes, the
    start, the command attached, the goroutine started, the content type
    and the status. *)
Definition boot : list Actor := repeat (ThreadOf 0) 8.

(** The encoder, the request's thread and the goroutine, each in turn. *)
Definition turn : list Actor := [Encoder; ThreadOf 0; ThreadOf 1].

Fixpoint turns (n : nat) : list Actor :=
  match n with
  | O => []
  | S n => turn ++ turns n
  end.

(** A bound on the moves that an encoder needs for its script: one for
    each byte and one more for each chunk. *)
Fixpoint scriptSize (script : list Output) : nat :=
  match script with
  | [] => O
  | ToStdout p :: rest | ToStderr p :: rest => S (length p + scriptSize rest)
  end.

(** Turns enough for the script, and three to end. *)
Definition takingTurns (script : list Output) : list Actor :=
  boot ++ turns (scriptSize script + 3).

(** A request in the middle of its stream, at the start of a turn: the
    encoder runs with [todo] left, the pipes are empty, the request's
    thread is in its copy with [done] in the body, the goroutine is in
    its read with [gathered]. *)
Definition midStream (env : Env.t) (cmd : Cmd.t) (done gathered : list byte)
    (todo : list Output) (s : Sys.t) : Prop :=
  Sys.proc s = Running todo
  /\ Sys.outPipe s = [] /\ Sys.errPipe s = [] /\ Sys.closed s = false
  /\ Sys.threads s
     = [ {| Thread.code := Vis CopyStdout afterCopy; Thread.acc := [] |};
         {| Thread.code := stderrTask cmd; Thread.acc := gathered |} ]
  /\ World.env (Sys.world s) = env
  /\ World.credit (Sys.world s) = None
  /\ Response.status (World.resp (Sys.world s)) = Some StatusOK
  /\ Response.body (World.resp (Sys.world s)) = done
  /\ logged (World.trace (Sys.world s)) = []
  /\ cmdCalls (World.trace (Sys.world s))
     = [EStdoutPipe; EStderrPipe; EStart (Cmd.Args cmd); EAttachCommand; EGo]
  /\ done ++ concat (stdoutOf todo) = concat (stdoutOf (Env.script env))
  /\ gathered ++ stderrOf todo = stderrOf (Env.script env).

(** A request at its end: the encoder has ended as the world says, both
    threads have returned, the pipes are empty and closed, the body is
    the whole output, and the log holds what the handler and then the
    goroutine had to report. *)
Definition completed (env : Env.t) (cmd : Cmd.t) (s : Sys.t) : Prop :=
  Sys.proc s = Exited (Env.wait env)
  /\ Sys.outPipe s = [] /\ Sys.errPipe s = [] /\ Sys.closed s = true
  /\ Sys.threads s
     = [ {| Thread.code := Ret tt; Thread.acc := [] |};
         {| Thread.code := Ret tt; Thread.acc := [] |} ]
  /\ Response.status (World.resp (Sys.world s)) = Some StatusOK
  /\ Response.body (World.resp (Sys.world s)) = concat (stdoutOf (Env.script env))
  /\ logged (World.trace (Sys.world s))
     = copyLog (Env.stdoutEnd env) ++ stderrTaskLog cmd (World.init env)
  /\ cmdCalls (World.trace (Sys.world s))
     = [EStdoutPipe; EStderrPipe; EStart (Cmd.Args cmd); EAttachCommand; EGo;
        EReadAllStderr; EWait].

(** The goroutine first: the request's thread up to the start of its
    goroutine, the encoder to its end, the goroutine to its end, and
    then the request's thread. *)
Definition waitFirst : list Actor :=
  repeat (ThreadOf 0) 6 ++ [Encoder; Encoder]
  ++ repeat (ThreadOf 1) 3 ++ repeat (ThreadOf 0) 5.

(** ** The end of the threads *)

(** A program that returns after [n] calls at most and starts no
    goroutine. *)
Fixpoint finishes {A : Type} (n : nat) (p : Prog A) {struct p} : Prop :=
  match p with
  | Ret _ => True
  | Vis _ k =>
      match n with
      | O => False
      | S n' => forall x, finishes n' (k x)
      end
  | Spawn _ _ => False
  end.

(** The same for a program that starts one goroutine at most, the
    goroutine counted as a call. *)
Fixpoint bounded {A : Type} (n : nat) (p : Prog A) {struct p} : Prop :=
  match p with
  | Ret _ => True
  | Vis _ k =>
      match n with
      | O => False
      | S n' => forall x, bounded n' (k x)
      end
  | Spawn body k =>
      match n with
      | O => False
      | S n' => finishes n' body /\ finishes n' k
      end
  end.

Definition returned (t : Thread.t) : Prop := Thread.code t = Ret tt.

(** The request's thread and the goroutine, one after the other, [n]
    times. *)
Fixpoint alternate (n : nat) : list Actor :=
  match n with
  | O => []
  | S n => ThreadOf 0 :: ThreadOf 1 :: alternate n
  end.

(** The pipes that hold something. *)
Definition pipeWeight (s : Sys.t) : nat :=
  (match Sys.outPipe s with [] => 0 | _ :: _ => 1 end
   + match Sys.errPipe s with [] => 0 | _ :: _ => 1 end)%nat.

(** The threads of [s] are the request's, with [n] calls to go at most,
    or the request's and the goroutine, with [n] calls each. *)
Definition inBounds (n : nat) (s : Sys.t) : Prop :=
  (exists t0, Sys.threads s = [t0] /\ bounded n (Thread.code t0))
  \/ (exists t0 t1,
         Sys.threads s = [t0; t1]
         /\ finishes n (Thread.code t0) /\ finishes n (Thread.code t1)).

(** A bound on the moves that the threads of [s] still make when the
    encoder has ended: their calls, and one for each pipe to empty. *)
Definition weighs (w : nat) (s : Sys.t) : Prop :=
  (exists t0 n0,
      Sys.threads s = [t0] /\ bounded n0 (Thread.code t0)
      /\ (2 * n0 + pipeWeight s <= w)%nat)
  \/ (exists t0 t1 n0 n1,
         Sys.threads s = [t0; t1]
         /\ finishes n0 (Thread.code t0) /\ finishes n1 (Thread.code t1)
         /\ (n0 + n1 + pipeWeight s <= w)%nat).

(** ** Moves that are always left *)

(** The calls that return at the end of the encoder only. *)
Definition isWaiting {X : Type} (c : Call X) : bool :=
  match c with
  | ReadAllStderr | Wait _ => true
  | _ => false
  end.

(** [p] has its copy ahead: it does not return without a call of
    [io.Copy], and before that call it makes none that waits for the end
    of the encoder. *)
Fixpoint copyAhead {A : Type} (p : Prog A) : Prop :=
  match p with
  | Ret _ => False
  | Vis c k => isCopy c = true \/ (isWaiting c = false /\ forall x, copyAhead (k x))
  | Spawn _ k => copyAhead k
  end.

(** Up to its [Start], [p] makes no call that waits for the encoder and
    starts no goroutine; after a [Start] that succeeds it has its copy
    ahead. *)
Fixpoint readyToStart (p : Prog unit) : Prop :=
  match p with
  | Ret _ => True
  | Vis c k =>
      match c in Call X return (X -> Prog unit) -> Prop with
      | Start _ => fun k =>
          (forall e, readyToStart (k (Some e))) /\ copyAhead (k None)
      | CopyStdout | ReadAllStderr | Wait _ => fun _ => False
      | _ => fun k => forall x, readyToStart (k x)
      end k
  | Spawn _ _ => False
  end.

(** A request whose client takes everything: the pipes are closed only
    after the end of the encoder; before the start of the encoder the
    request's thread is alone and ready to start; while the encoder runs
    the request's thread has its copy ahead. *)
Definition lively (s : Sys.t) : Prop :=
  World.credit (Sys.world s) = None
  /\ (Sys.closed s = true -> exists r, Sys.proc s = Exited r)
  /\ match Sys.proc s with
     | NotStarted =>
         exists m, Sys.threads s = [m] /\ readyToStart (Thread.code m)
     | Running _ =>
         exists m rest, Sys.threads s = m :: rest /\ copyAhead (Thread.code m)
     | Exited _ => True
     end.

(** A request at rest: every thread has returned and the encoder does
    not run. *)
Definition atRest (s : Sys.t) : Prop :=
  Forall returned (Sys.threads s) /\ forall todo, Sys.proc s <> Running todo.

(** What the encoder has left to do: a move for its end, and its
    script. *)
Definition encoderLeft (env : Env.t) (s : Sys.t) : nat :=
  match Sys.proc s with
  | NotStarted => S (scriptSize (Env.script env))
  | Running todo => S (scriptSize todo)
  | Exited _ => O
  end.

(** A bound on the moves that are left in [s], for the encoder [env]:
    three for each move of the encoder, which fills a pipe that a thread
    empties, the calls of the threads, and one for each pipe that holds
    something. *)
Definition movesLeft (env : Env.t) (w : nat) (s : Sys.t) : Prop :=
  World.env (Sys.world s) = env
  /\ ((exists t0 n0,
          Sys.threads s = [t0] /\ bounded n0 (Thread.code t0)
          /\ (3 * encoderLeft env s + 2 * n0 + pipeWeight s <= w)%nat)
      \/ (exists t0 t1 n0 n1,
             Sys.threads s = [t0; t1]
             /\ finishes n0 (Thread.code t0) /\ finishes n1 (Thread.code t1)
             /\ (3 * encoderLeft env s + n0 + n1 + pipeWeight s <= w)%nat)).

(** A run of [n] moves. *)
Inductive runs (s0 : Sys.t) : nat -> Sys.t -> Prop :=
| runs_init : runs s0 O s0
| runs_step n s a s' : runs s0 n s -> Sys.step a s = Some s' -> runs s0 (S n) s'.

(** ** The handler in every order of moves *)

(** The entry that the handler logs for a copy that failed, line 199. *)
Definition isServeLog (ev : Event) : bool :=
  match ev with
  | ELog LevelError format _ =>
      String.eqb format "[transcode] error serving transcoded video file: %v"
  | _ => false
  end.

(** The events of the handler: its calls on the response writer, the
    reads of its copy, and its entry in the log. *)
Definition isHandlerEvent (ev : Event) : bool :=
  isRespCall ev || isStdoutRead ev || isServeLog ev.

Definition handlerEvents (tr : list Event) : list Event :=
  List.filter isHandlerEvent tr.

(** The chunks that the copy has read from the encoder's standard
    output, in order. *)
Fixpoint stdoutReads (tr : list Event) : list (list byte) :=
  match tr with
  | [] => []
  | EReadStdout p :: rest => p :: stdoutReads rest
  | _ :: rest => stdoutReads rest
  end.

(** The events of a copy that has read [reads]: each chunk is read and
    written at once. *)
Definition copied (reads : list (list byte)) : list Event :=
  concat (map (fun p => [EReadStdout p; EWrite p]) reads).

(** The two calls with which the handler opens the response, lines 192
    and 193. *)
Definition opened (mimeType : string) : list Event :=
  [EHeaderSet "Content-Type" mimeType; EWriteHeader StatusOK].

(** The response between these two calls, [done] of them made. *)
Definition respBefore (mimeType : string) (done : list Event) : Response.t :=
  match done with
  | [] => Response.fresh
  | _ :: _ => Response.Set_ "Content-Type" mimeType Response.fresh
  end.

(** Status 200 and the content type are out. *)
Definition committed (mimeType : string) (r : Response.t) : Prop :=
  Response.status r = Some StatusOK
  /\ Response.sent r !! "Content-Type" = Some [mimeType].

(** What the client of [env] takes of [bytes] written to it. *)
Definition clientTakes (env : Env.t) (bytes : list byte) : list byte :=
  match Env.client env with
  | None => bytes
  | Some (n, _) => take n bytes
  end.

(** What it still takes after [body]. *)
Definition creditLeft (env : Env.t) (body : list byte) : option (nat * error) :=
  match Env.client env with
  | None => None
  | Some (n, e) => Some ((n - length body)%nat, e)
  end.

(** The client of [env] takes all of [bytes]. *)
Definition fits (env : Env.t) (bytes : list byte) : Prop :=
  match Env.client env with
  | None => True
  | Some (n, _) => (length bytes <= n)%nat
  end.

(** A goroutine that keeps to its own business: it reads the standard
    error, waits for the encoder, and logs in words other than the
    handler's. *)
Fixpoint aside {A : Type} (p : Prog A) : Prop :=
  match p with
  | Ret _ => True
  | Vis c k =>
      match c with
      | ReadAllStderr | Wait _ => True
      | Logf lvl format args => isHandlerEvent (ELog lvl format args) = false
      | _ => False
      end
      /\ forall x, aside (k x)
  | Spawn _ _ => False
  end.

(** A request on its way to its copy, when the pipes and the encoder can
    be had: [p] takes the lock, asks for the pipes, starts the encoder
    (if [started] does not say that it has), attaches the command,
    starts goroutines that keep aside, and makes the calls [todo] on the
    response, the last of which is the status; what follows the status
    is the copy and the end of the handler. *)
Fixpoint opening (started : bool) (todo : list Event) (p : Prog unit) : Prop :=
  match p with
  | Ret _ => False
  | Spawn body k => aside body /\ opening started todo k
  | Vis c k =>
      match c in Call X return (X -> Prog unit) -> Prop with
      | ReadLock _ | AttachCommand _ => fun k => opening started todo (k tt)
      | StdoutPipe _ | StderrPipe _ => fun k => opening started todo (k None)
      | Start _ => fun k => started = false /\ opening true todo (k None)
      | HeaderSet key value => fun k =>
          exists rest,
            todo = EHeaderSet key value :: rest /\ opening started rest (k tt)
      | WriteHeader code => fun k =>
          todo = [EWriteHeader code] /\ k tt = Vis CopyStdout afterCopy
      | _ => fun _ => False
      end k
  end.

(** How a copy that returned [err] after the chunks [reads] came to its
    end: at a read, which found the pipe closed by [Wait] or found the
    end of the output of an encoder that has ended, every write before it
    taken whole; or at a write that the client did not take whole, with
    no read after it. [ending] is the event of that last read. *)
Definition copyEnded (env : Env.t) (s : Sys.t) (reads : list (list byte))
    (err : option error) (ending : list Event) : Prop :=
  (ending = [EReadStdoutEnd err]
   /\ fits env (concat reads)
   /\ ((Sys.closed s = true /\ err = Some ErrClosed)
       \/ (Sys.outPipe s = [] /\ (exists r, Sys.proc s = Exited r)
           /\ err = Env.stdoutEnd env)))
  \/ (ending = []
      /\ exists n e, Env.client env = Some (n, e) /\ err = Some e
                     /\ (n < length (concat reads))%nat).

(** The handler after its copy returned [err], and what it has done
    since: nothing, its entry in the log if [err] asks for one, or that
    and the flush. *)
Definition closing (err : option error) (after : list Event) (p : Prog unit) : Prop :=
  (p = afterCopy err /\ after = [])
  \/ (p = call Flush /\ after = copyLog err)
  \/ (p = Ret tt /\ after = copyLog err ++ [EFlush]).

(** The output of the encoder of [env] on its way: what the copy has
    read, what the pipe holds and [tail] make up what the encoder
    writes; before the start nothing is read, and while the encoder runs
    [tail] is what it has still to write. *)
Definition pipeline (env : Env.t) (s : Sys.t) (tail : list byte) : Prop :=
  World.env (Sys.world s) = env
  /\ concat (stdoutReads (World.trace (Sys.world s))) ++ Sys.outPipe s ++ tail
     = concat (stdoutOf (Env.script env))
  /\ match Sys.proc s with
     | NotStarted =>
         stdoutReads (World.trace (Sys.world s)) = [] /\ Sys.outPipe s = []
     | Running todo => tail = concat (stdoutOf todo)
     | Exited _ => True
     end.

(** A request that gets its handler, in any state that it can reach: the
    body is what the client takes of the bytes read; the threads but the
    first keep aside; and the first is on its way to the copy, in the
    copy, or past it. *)
Definition serving (env : Env.t) (mimeType : string) (s : Sys.t) : Prop :=
  let w := Sys.world s in
  let tr := World.trace w in
  let reads := stdoutReads tr in
  World.env w = env
  /\ Response.body (World.resp w) = clientTakes env (concat reads)
  /\ World.credit w = creditLeft env (Response.body (World.resp w))
  /\ exists m rest,
       Sys.threads s = m :: rest
       /\ Forall (fun t => aside (Thread.code t)) rest
       /\ ((exists started todo,
              opening started todo (Thread.code m)
              /\ handlerEvents tr ++ todo = opened mimeType
              /\ (started = false -> Sys.proc s = NotStarted)
              /\ reads = []
              /\ World.resp w = respBefore mimeType (handlerEvents tr))
           \/ (Thread.code m = Vis CopyStdout afterCopy
               /\ handlerEvents tr = opened mimeType ++ copied reads
               /\ committed mimeType (World.resp w)
               /\ fits env (concat reads))
           \/ (exists err ending after,
                 handlerEvents tr
                 = opened mimeType ++ copied reads ++ ending ++ after
                 /\ copyEnded env s reads err ending
                 /\ committed mimeType (World.resp w)
                 /\ closing err after (Thread.code m))).
Section Transcode.
(** [fmt.Sprint] on a [float64], from Go's library. *)
Variable Sprint : float64 -> string.

(** [models.StreamingResolutionEnum.GetMaxResolution]: the size that a
    resolution name stands for. The [models] package is not among the
    sources and the spec gives no table for it. *)
Variable GetMaxResolution : string -> Z.

(** [ProbeAudioCodec(s)] and the constant [MissingUnsupported], from the
    probe's side of the package: the codec that the probe makes of the
    name it found, and the one it records for audio that is absent or
    unsupported. *)
Variable ProbeAudioCodec : string -> string.
Variable MissingUnsupported : string.

Definition makeStreamArgs (o : TranscodeOptions.t) (sm : StreamManager.t) : Args :=
  let maxTranscodeSize :=
    GetMaxResolution
      (StreamManagerConfig.GetMaxStreamingTranscodeSize (StreamManager.config sm)) in
  let maxTranscodeSize :=
    if negb (String.eqb (TranscodeOptions.Resolution o) "")
    then GetMaxResolution (TranscodeOptions.Resolution o)
    else maxTranscodeSize in
  let extraInputArgs :=
    StreamManagerConfig.GetLiveTranscodeInputArgs (StreamManager.config sm) in
  let extraOutputArgs :=
    StreamManagerConfig.GetLiveTranscodeOutputArgs (StreamManager.config sm) in

  let args : Args := ["-hide_banner"] in
  let args := Args.LogLevel args LogLevelError in

  let args := args ++ extraInputArgs in

  let args := if float64_nonzero (TranscodeOptions.StartTime o)
              then Args.Seek Sprint args (TranscodeOptions.StartTime o)
              else args in

  let args := Args.Input args (VideoFile.Path (TranscodeOptions.VideoFile o)) in

  let videoOnly :=
    String.eqb
      (ProbeAudioCodec (VideoFile.AudioCodec (TranscodeOptions.VideoFile o)))
      MissingUnsupported in

  let videoFilter := VideoFilter.zero in
  let videoFilter :=
    VideoFilter.ScaleMax videoFilter
      (VideoFile.Width (TranscodeOptions.VideoFile o))
      (VideoFile.Height (TranscodeOptions.VideoFile o))
      maxTranscodeSize in

  let args :=
    args ++ StreamFormat.Args (TranscodeOptions.StreamType o) videoFilter videoOnly in

  let args := args ++ extraOutputArgs in

  let args := Args.Output args "pipe:" in

  args.

Definition getTranscodeStream (sm : StreamManager.t) (options : TranscodeOptions.t)
  : Prog (result (Prog unit)) :=
  let args := makeStreamArgs options sm in
  let cmd := Command (StreamManager.encoder sm) args in

  (err <- call (StdoutPipe cmd) ;;
   match err with
   | Some e =>
       call (Logf LevelError "[transcode] ffmpeg stdout not available: %v" [Error e]) ;;
       Ret (Err e)
   | None =>

   err <- call (StderrPipe cmd) ;;
   match err with
   | Some e =>
       call (Logf LevelError "[transcode] ffmpeg stderr not available: %v" [Error e]) ;;
       Ret (Err e)
   | None =>

   err <- call (Start cmd) ;;
   match err with
   | Some e => Ret (Err e)
   | None =>
   call (AttachCommand cmd) ;;

   go (stderrTask cmd) ;;

   let mimeType := StreamFormat.MimeType (TranscodeOptions.StreamType options) in
   Ret (Ok (handler mimeType))
   end end end)%prog.

(** [NewStreamRequestContext] only pairs the writer with the request's
    context. *)
Definition ServeTranscode (sm : StreamManager.t) (options : TranscodeOptions.t)
  : Prog unit :=
  (call (ReadLock (VideoFile.Path (TranscodeOptions.VideoFile options))) ;;

   r <- getTranscodeStream sm options ;;

   match r with
   | Err err =>
       call (Logf LevelError "[transcode] error transcoding video file: %v" [Error err]) ;;
       call (WriteHeader StatusBadRequest) ;;
       werr <- call (Write (list_byte_of_string (Error err))) ;;
       match werr with
       | Some e => call (Logf LevelWarn "[transcode] error writing response: %v" [Error e])
       | None => Ret tt
       end
   | Ok handler => handler
   end)%prog.

(** *** The parts of a built sequence *)

(** The maximum that applies to a request, lines 93 to 96. *)
Definition maxTranscodeSize (o : TranscodeOptions.t) (sm : StreamManager.t) : Z :=
  if negb (String.eqb (TranscodeOptions.Resolution o) "")
  then GetMaxResolution (TranscodeOptions.Resolution o)
  else GetMaxResolution
         (StreamManagerConfig.GetMaxStreamingTranscodeSize (StreamManager.config sm)).

(** [videoOnly], line 111. *)
Definition videoOnly (o : TranscodeOptions.t) : bool :=
  String.eqb
    (ProbeAudioCodec (VideoFile.AudioCodec (TranscodeOptions.VideoFile o)))
    MissingUnsupported.

(** [videoFilter], lines 113 and 114. *)
Definition videoFilter (o : TranscodeOptions.t) (sm : StreamManager.t) : VideoFilter.t :=
  VideoFilter.ScaleMax VideoFilter.zero
    (VideoFile.Width (TranscodeOptions.VideoFile o))
    (VideoFile.Height (TranscodeOptions.VideoFile o))
    (maxTranscodeSize o sm).

Definition globalArgs : Args := ["-hide_banner"; "-v"; "error"].

Definition seekArgs (o : TranscodeOptions.t) : Args :=
  if float64_nonzero (TranscodeOptions.StartTime o)
  then ["-ss"; Sprint (TranscodeOptions.StartTime o)]
  else [].

Definition inputArgs (o : TranscodeOptions.t) : Args :=
  ["-i"; VideoFile.Path (TranscodeOptions.VideoFile o)].

Definition formatArgs (o : TranscodeOptions.t) (sm : StreamManager.t) : Args :=
  StreamFormat.Args (TranscodeOptions.StreamType o) (videoFilter o sm) (videoOnly o).

Definition extraInputArgs (sm : StreamManager.t) : Args :=
  StreamManagerConfig.GetLiveTranscodeInputArgs (StreamManager.config sm).

Definition extraOutputArgs (sm : StreamManager.t) : Args :=
  StreamManagerConfig.GetLiveTranscodeOutputArgs (StreamManager.config sm).


(** The flags by which the formats of this file ask for audio. *)
Definition audioFlags : list string := ["-c:a"; "-b:a"; "-vbr"; "-ac"].

(** Every word that the three formats can give, the filter's own text
    apart. *)
Definition formatWords : list string :=
  ["-c:v"; "libx264"; "-movflags"; "frag_keyframe+empty_moov"; "-pix_fmt";
   "yuv420p"; "-preset"; "veryfast"; "-crf"; "25"; "-vf"; "-an"; "-ac"; "2";
   "-f"; "mp4"; "libvpx-vp9"; "-deadline"; "realtime"; "-cpu-used"; "5";
   "-row-mt"; "1"; "30"; "-b:v"; "0"; "webm"; "copy"; "-c:a"; "libopus";
   "-b:a"; "96k"; "-vbr"; "on"; "matroska"].

(** Membership in a list of words, as a test. *)
Definition mem (x : string) (l : list string) : bool :=
  existsb (String.eqb x) l.


(** *** Sample requests *)

(** A table of resolution names, a printer that knows one number, and
    the empty codec name for a source without usable audio. *)
Definition sampleResolution (name : string) : Z :=
  if String.eqb name "LOW" then 240
  else if String.eqb name "STANDARD_HD" then 720
  else 1080.

Definition sampleSprint (x : float64) : string :=
  match x with
  | S754_finite false 61 (-1) => "30.5"
  | _ => "0"
  end.

Definition sampleProbe (name : string) : string := name.

Definition sampleMissing : string := "".

Definition sampleManager : StreamManager.t :=
  {| StreamManager.config :=
       {| StreamManagerConfig.GetMaxStreamingTranscodeSize := "FULL_HD";
          StreamManagerConfig.GetLiveTranscodeInputArgs := [];
          StreamManagerConfig.GetLiveTranscodeOutputArgs := [] |};
     StreamManager.encoder := "ffmpeg" |}.

(** The same with extra arguments configured: a seek on the input side,
    an audio codec on the output side. *)
Definition sampleManagerExtra : StreamManager.t :=
  {| StreamManager.config :=
       {| StreamManagerConfig.GetMaxStreamingTranscodeSize := "FULL_HD";
          StreamManagerConfig.GetLiveTranscodeInputArgs := ["-ss"; "10"];
          StreamManagerConfig.GetLiveTranscodeOutputArgs := ["-c:a"; "aac"] |};
     StreamManager.encoder := "ffmpeg" |}.

(** A 3840 by 2160 source with AAC audio. *)
Definition sample4k : VideoFile.t :=
  {| VideoFile.Path := "/media/a.mkv"; VideoFile.AudioCodec := "aac";
     VideoFile.Width := 3840; VideoFile.Height := 2160 |}.

(** A 1920 by 1080 source without an audio track. *)
Definition sampleSilent : VideoFile.t :=
  {| VideoFile.Path := "/media/b.mp4"; VideoFile.AudioCodec := "";
     VideoFile.Width := 1920; VideoFile.Height := 1080 |}.

Definition sampleOptions (F : StreamFormat.t) (f : VideoFile.t) (start : float64)
  : TranscodeOptions.t :=
  {| TranscodeOptions.StreamType := F; TranscodeOptions.VideoFile := f;
     TranscodeOptions.Resolution := ""; TranscodeOptions.StartTime := start |}.

(** 30.5 as a [float64]. *)
Definition start30_5 : float64 := S754_finite false 61 (-1).

(** The silent source as MP4 from 30.5 seconds, and the large one as MKV
    and as MP4 from the start. *)
Definition sampleRequest : TranscodeOptions.t :=
  sampleOptions StreamTypeMP4 sampleSilent start30_5.

Definition sampleRequestMKV : TranscodeOptions.t :=
  sampleOptions StreamTypeMKV sample4k float64_zero.

Definition sampleRequestMP4 : TranscodeOptions.t :=
  sampleOptions StreamTypeMP4 sample4k float64_zero.

(** *** Sample worlds *)

(** An encoder that writes two chunks on its standard output and ends
    with status 0, and a client that takes everything. *)
Definition sampleEnv : Env.t :=
  {| Env.stdoutPipe := None; Env.stderrPipe := None; Env.start := None;
     Env.script := [ToStdout ["a"; "b"]%byte; ToStdout ["c"]%byte];
     Env.stdoutEnd := None; Env.wait := None; Env.client := None |}.

(** The same with an encoder that cannot be started. *)
Definition sampleEnvNoStart : Env.t :=
  {| Env.stdoutPipe := None; Env.stderrPipe := None;
     Env.start := Some (wrapError "fork/exec ffmpeg" (Errno 2));
     Env.script := []; Env.stdoutEnd := None; Env.wait := None;
     Env.client := None |}.

(** The same with a client that goes away after one byte: the write to it
    fails with the given error number. *)
Definition sampleEnvClient (errno : Z) : Env.t :=
  {| Env.stdoutPipe := None; Env.stderrPipe := None; Env.start := None;
     Env.script := [ToStdout ["a"; "b"]%byte; ToStdout ["c"]%byte];
     Env.stdoutEnd := None; Env.wait := None;
     Env.client := Some (1%nat, wrapError "write tcp" (Errno errno)) |}.

(** An encoder that writes [script] and ends as [wait] says. *)
Definition sampleEnvExit (script : list Output) (wait : option error) : Env.t :=
  {| Env.stdoutPipe := None; Env.stderrPipe := None; Env.start := None;
     Env.script := script; Env.stdoutEnd := None; Env.wait := wait;
     Env.client := None |}.

(** An exit with status 1, and the command of the samples. *)
Definition exitStatus1 : error :=
  ExitError {| ProcessState.ExitCode := 1; ProcessState.Signaled := false |}.

Definition sampleCmd : Cmd.t := Command "ffmpeg" ["-i"; "a.mkv"; "pipe:"].

(** An encoder that writes three bytes on its standard error, more than
    a pipe of two bytes holds, before its output. *)
Definition sampleEnvNoisy : Env.t :=
  sampleEnvExit [ToStderr ["x"; "y"; "z"]%byte; ToStdout ["a"]%byte] None.

(** The request's thread up to the start of its goroutine (six moves),
    then the encoder. *)
Definition sampleSchedule : list Actor :=
  [ThreadOf 0; ThreadOf 0; ThreadOf 0; ThreadOf 0; ThreadOf 0; ThreadOf 0; Encoder].

(** *** More sample worlds and requests *)

(** A client that takes five bytes, more than the encoder of the samples
    writes. *)
Definition sampleEnvPatient : Env.t :=
  {| Env.stdoutPipe := None; Env.stderrPipe := None; Env.start := None;
     Env.script := [ToStdout ["a"; "b"]%byte; ToStdout ["c"]%byte];
     Env.stdoutEnd := None; Env.wait := None;
     Env.client := Some (5%nat, wrapError "write tcp" (Errno EPIPE)) |}.

(** Worlds in which a pipe of the command cannot be had. *)
Definition sampleEnvNoStdout : Env.t :=
  {| Env.stdoutPipe := Some (errorString "exec: Stdout already set");
     Env.stderrPipe := None; Env.start := None;
     Env.script := []; Env.stdoutEnd := None; Env.wait := None;
     Env.client := None |}.

Definition sampleEnvNoStderr : Env.t :=
  {| Env.stdoutPipe := None;
     Env.stderrPipe := Some (errorString "exec: Stderr already set");
     Env.start := None;
     Env.script := []; Env.stdoutEnd := None; Env.wait := None;
     Env.client := None |}.

(** An encoder that cannot be started, and a client that takes three
    bytes of the answer. *)
Definition sampleEnvNoStartGone : Env.t :=
  {| Env.stdoutPipe := None; Env.stderrPipe := None;
     Env.start := Some (wrapError "fork/exec ffmpeg" (Errno 2));
     Env.script := []; Env.stdoutEnd := None; Env.wait := None;
     Env.client := Some (3%nat, wrapError "write tcp" (Errno EPIPE)) |}.

(** The large source as MP4, asking for the resolution [LOW]. *)
Definition sampleRequestLow : TranscodeOptions.t :=
  withResolution "LOW" sampleRequestMP4.

(** An encoder that writes one chunk of two bytes and ends. *)
Definition sampleEnvOneChunk : Env.t :=
  sampleEnvExit [ToStdout ["a"; "b"]%byte] None.

(** An encoder that writes four bytes, and a client that leaves after
    one. *)
Definition sampleEnvLong : Env.t :=
  {| Env.stdoutPipe := None; Env.stderrPipe := None; Env.start := None;
     Env.script := [ToStdout ["a"; "b"; "c"; "d"]%byte];
     Env.stdoutEnd := None; Env.wait := None;
     Env.client := Some (1%nat, wrapError "write tcp" (Errno EPIPE)) |}.

(** The request up to its copy; a byte written and copied; a byte
    written, and the copy of it failed; the flush; a byte written. *)
Definition sampleScheduleGone : list Actor :=
  boot ++ [Encoder; ThreadOf 0; Encoder; ThreadOf 0; ThreadOf 0; Encoder].

(** * Properties *)

(** ** The argument builder *)

Lemma makeStreamArgs_parts o sm :
  makeStreamArgs o sm =
    globalArgs ++ extraInputArgs sm ++ seekArgs o ++ inputArgs o
      ++ formatArgs o sm ++ extraOutputArgs sm ++ ["pipe:"].
Proof.
  unfold makeStreamArgs, seekArgs, inputArgs, formatArgs, extraInputArgs,
    extraOutputArgs, globalArgs, videoFilter, videoOnly, maxTranscodeSize,
    Args.Output, Args.Input, Args.Seek, Args.LogLevel, LogLevelError.
  destruct (float64_nonzero (TranscodeOptions.StartTime o)); cbn [app];
    repeat rewrite <- app_assoc; reflexivity.
Qed.

Lemma ScaleDimensions_zero w h :
  VideoFilter.ScaleDimensions VideoFilter.zero w h
  = "scale=" +:+ pretty w +:+ ":" +:+ pretty h.
Proof. reflexivity. Qed.

Lemma ScaleDimensions_not_empty w h :
  String.eqb (VideoFilter.ScaleDimensions VideoFilter.zero w h) "" = false.
Proof. reflexivity. Qed.




Lemma StreamTypeMP4_Args f vo :
  StreamFormat.Args StreamTypeMP4 f vo =
    ["-c:v"; "libx264"; "-movflags"; "frag_keyframe+empty_moov";
     "-pix_fmt"; "yuv420p"; "-preset"; "veryfast"; "-crf"; "25"]
    ++ VideoFilter.Args f
    ++ (if vo then ["-an"] else ["-ac"; "2"]) ++ ["-f"; "mp4"].
Proof.
  cbn. unfold Args.Format, Args.SkipAudio, Args.VideoFilter.
  destruct vo; cbn; repeat rewrite <- app_assoc; reflexivity.
Qed.

Lemma StreamTypeWEBM_Args f vo :
  StreamFormat.Args StreamTypeWEBM f vo =
    ["-c:v"; "libvpx-vp9"; "-pix_fmt"; "yuv420p"; "-deadline"; "realtime";
     "-cpu-used"; "5"; "-row-mt"; "1"; "-crf"; "30"; "-b:v"; "0"]
    ++ VideoFilter.Args f
    ++ (if vo then ["-an"] else ["-ac"; "2"]) ++ ["-f"; "webm"].
Proof.
  cbn. unfold Args.Format, Args.SkipAudio, Args.VideoFilter.
  destruct vo; cbn; repeat rewrite <- app_assoc; reflexivity.
Qed.

Lemma StreamTypeMKV_Args f vo :
  StreamFormat.Args StreamTypeMKV f vo =
    ["-c:v"; "copy"]
    ++ (if vo then ["-an"]
        else ["-c:a"; "libopus"; "-b:a"; "96k"; "-vbr"; "on"; "-ac"; "2"])
    ++ ["-f"; "matroska"].
Proof. destruct vo; reflexivity. Qed.

(** The filter of a request is empty or one [scale]. *)
Lemma videoFilter_cases o sm :
  videoFilter o sm = ""
  \/ exists w h : Z, videoFilter o sm = "scale=" +:+ pretty w +:+ ":" +:+ pretty h.
Proof.
  unfold videoFilter, VideoFilter.ScaleMax.
  destruct (_ <=? _); [left; reflexivity | right].
  destruct (_ <? _); eexists _, _; apply ScaleDimensions_zero.
Qed.

Lemma VideoFilter_Args_scale (w h : Z) :
  VideoFilter.Args ("scale=" +:+ pretty w +:+ ":" +:+ pretty h)
  = ["-vf"; "scale=" +:+ pretty w +:+ ":" +:+ pretty h].
Proof. reflexivity. Qed.

(** An argument that the filter of a request gives is the flag [-vf] or
    begins with an [s]. *)
Lemma VideoFilter_Args_videoFilter o sm x :
  In x (VideoFilter.Args (videoFilter o sm)) ->
  x = "-vf" \/ exists s, x = String "s"%char s.
Proof.
  destruct (videoFilter_cases o sm) as [-> | (w & h & ->)].
  - intros [].
  - rewrite VideoFilter_Args_scale.
    intros [<- | [<- | []]]; [left; reflexivity | right; eexists; reflexivity].
Qed.

Lemma mem_In x l : In x l <-> mem x l = true.
Proof.
  unfold mem. rewrite existsb_exists. split.
  - intros H. exists x. split; [exact H | apply String.eqb_refl].
  - intros (y & Hy & Heq). apply String.eqb_eq in Heq. congruence.
Qed.

Lemma not_mem_In x l : mem x l = false -> ~ In x l.
Proof. intros H HIn. apply mem_In in HIn. congruence. Qed.

Lemma incl_formatWords (l : list string) :
  forallb (fun x => mem x formatWords) l = true -> incl l formatWords.
Proof.
  rewrite forallb_forall. intros H x Hx. apply mem_In. exact (H x Hx).
Qed.

(** What a declared format gives: its own words, or the text of the
    filter. *)
Lemma formatArgs_words o sm x :
  declaredFormat (TranscodeOptions.StreamType o) ->
  In x (formatArgs o sm) ->
  In x formatWords \/ exists s, x = String "s"%char s.
Proof.
  unfold formatArgs. intros [-> | [-> | ->]].
  - rewrite StreamTypeMP4_Args. rewrite !in_app_iff.
    intros [H | [H | [H | H]]].
    + left. revert H. apply incl_formatWords. reflexivity.
    + apply VideoFilter_Args_videoFilter in H as [-> | H]; [left | right; exact H].
      apply mem_In. reflexivity.
    + left. revert H. apply incl_formatWords. destruct (videoOnly o); reflexivity.
    + left. revert H. apply incl_formatWords. reflexivity.
  - rewrite StreamTypeWEBM_Args. rewrite !in_app_iff.
    intros [H | [H | [H | H]]].
    + left. revert H. apply incl_formatWords. reflexivity.
    + apply VideoFilter_Args_videoFilter in H as [-> | H]; [left | right; exact H].
      apply mem_In. reflexivity.
    + left. revert H. apply incl_formatWords. destruct (videoOnly o); reflexivity.
    + left. revert H. apply incl_formatWords. reflexivity.
  - rewrite StreamTypeMKV_Args. rewrite !in_app_iff.
    intros [H | [H | H]]; left; revert H; apply incl_formatWords;
      try destruct (videoOnly o); reflexivity.
Qed.

(** A word that begins with a dash and is not one of the formats' own
    words is not given by a declared format. *)
Lemma formatArgs_without o sm x s :
  declaredFormat (TranscodeOptions.StreamType o) ->
  x = String "-"%char s ->
  mem x formatWords = false ->
  ~ In x (formatArgs o sm).
Proof.
  intros HF -> Hmem HIn.
  destruct (formatArgs_words o sm _ HF HIn) as [H | (s' & H)].
  - apply mem_In in H. congruence.
  - discriminate H.
Qed.

(** [H] says that a word is in a list of given words; the goal holds for
    each of them by computation. *)
Ltac one_of H :=
  cbn in H; repeat (destruct H as [<- | H]; [reflexivity |]); destruct H.

(** C7: every built sequence is, in this order, the global flags
    [-hide_banner] and [-v error], the configured extra input arguments,
    the seek flag if there is one, the input [-i path], the flags of the
    format, the configured extra output arguments, and the sink [pipe:],
    which is its last word. *)
Theorem makeStreamArgs_layout o sm :
  makeStreamArgs o sm =
    ["-hide_banner"; "-v"; "error"]
    ++ StreamManagerConfig.GetLiveTranscodeInputArgs (StreamManager.config sm)
    ++ seekArgs o
    ++ ["-i"; VideoFile.Path (TranscodeOptions.VideoFile o)]
    ++ StreamFormat.Args (TranscodeOptions.StreamType o) (videoFilter o sm) (videoOnly o)
    ++ StreamManagerConfig.GetLiveTranscodeOutputArgs (StreamManager.config sm)
    ++ ["pipe:"]
  /\ last (makeStreamArgs o sm) = Some "pipe:".
Proof.
  split; [apply makeStreamArgs_parts |].
  rewrite makeStreamArgs_parts. rewrite !app_assoc. apply last_snoc.
Qed.

(** C6: with a start time that is not zero, the seek flag [-ss] and the
    printed start time stand right before the input [-i path]; with a
    zero start time the input follows the extra input arguments at once,
    and the builder gives no [-ss]: under a declared format, one that is
    in the sequence is in the configured extra arguments or is the path. *)
Theorem seek_flag_before_input o sm :
  let t := TranscodeOptions.StartTime o in
  let path := VideoFile.Path (TranscodeOptions.VideoFile o) in
  (float64_nonzero t = true ->
   makeStreamArgs o sm =
     (globalArgs ++ extraInputArgs sm)
     ++ ["-ss"; Sprint t; "-i"; path]
     ++ formatArgs o sm ++ extraOutputArgs sm ++ ["pipe:"])
  /\ (float64_nonzero t = false ->
      makeStreamArgs o sm =
        (globalArgs ++ extraInputArgs sm)
        ++ ["-i"; path]
        ++ formatArgs o sm ++ extraOutputArgs sm ++ ["pipe:"]
      /\ (declaredFormat (TranscodeOptions.StreamType o) ->
          In "-ss" (makeStreamArgs o sm) ->
          In "-ss" (extraInputArgs sm) \/ In "-ss" (extraOutputArgs sm)
          \/ path = "-ss")).
Proof.
  intros t path. subst t path. split; intros Ht.
  - rewrite makeStreamArgs_parts. unfold seekArgs, inputArgs. rewrite Ht.
    rewrite <- !app_assoc. reflexivity.
  - assert (Heq : makeStreamArgs o sm =
                  (globalArgs ++ extraInputArgs sm)
                  ++ ["-i"; VideoFile.Path (TranscodeOptions.VideoFile o)]
                  ++ formatArgs o sm ++ extraOutputArgs sm ++ ["pipe:"]).
    { rewrite makeStreamArgs_parts. unfold seekArgs, inputArgs. rewrite Ht.
      rewrite <- !app_assoc. reflexivity. }
    split; [exact Heq |].
    intros HF. rewrite Heq. rewrite !in_app_iff.
    intros [[H | H] | [H | [H | [H | H]]]]; auto.
    + exfalso. revert H. apply not_mem_In. reflexivity.
    + destruct H as [H | [H | []]]; [discriminate H | auto].
    + exfalso. revert H.
      eapply formatArgs_without; [exact HF | reflexivity | reflexivity].
    + destruct H as [H | []]. discriminate H.
Qed.

(** C5, as the code has it: when the probe's codec for the source is the
    one recorded for absent or unsupported audio, each of the three
    formats gives its video-only flags: they hold the no-audio flag
    [-an] and none of the audio flags [-c:a], [-b:a], [-vbr], [-ac]. The
    builder adds none elsewhere either; the configured extra arguments
    are passed on as they are, so that an audio flag that is in the
    sequence is one of theirs, or is the printed start time or the
    path. *)
Theorem video_only_without_audio o sm :
  declaredFormat (TranscodeOptions.StreamType o) ->
  ProbeAudioCodec (VideoFile.AudioCodec (TranscodeOptions.VideoFile o))
  = MissingUnsupported ->
  let fmt :=
    StreamFormat.Args (TranscodeOptions.StreamType o) (videoFilter o sm) true in
  makeStreamArgs o sm =
    globalArgs ++ extraInputArgs sm ++ seekArgs o ++ inputArgs o
      ++ fmt ++ extraOutputArgs sm ++ ["pipe:"]
  /\ In "-an" fmt
  /\ (forall x, In x audioFlags -> ~ In x fmt)
  /\ (forall x, In x audioFlags -> In x (makeStreamArgs o sm) ->
                In x (extraInputArgs sm) \/ In x (extraOutputArgs sm)
                \/ x = Sprint (TranscodeOptions.StartTime o)
                \/ x = VideoFile.Path (TranscodeOptions.VideoFile o)).
Proof.
  intros HF Hcodec fmt.
  assert (Hvo : videoOnly o = true).
  { unfold videoOnly. rewrite Hcodec. apply String.eqb_refl. }
  assert (Hfmt : formatArgs o sm = fmt).
  { unfold formatArgs. rewrite Hvo. reflexivity. }
  assert (Heq : makeStreamArgs o sm =
                globalArgs ++ extraInputArgs sm ++ seekArgs o ++ inputArgs o
                  ++ fmt ++ extraOutputArgs sm ++ ["pipe:"]).
  { rewrite makeStreamArgs_parts, Hfmt. reflexivity. }
  assert (Hnone : forall x, In x audioFlags -> ~ In x fmt).
  { intros x Hx HIn. rewrite <- Hfmt in HIn. revert Hx. apply not_mem_In.
    destruct HF as [HF | [HF | HF]]; unfold formatArgs in HIn;
      rewrite HF, Hvo in HIn.
    - rewrite StreamTypeMP4_Args, !in_app_iff in HIn.
      destruct HIn as [H | [H | [H | H]]]; [one_of H | | one_of H | one_of H].
      apply VideoFilter_Args_videoFilter in H as [-> | (s & ->)]; reflexivity.
    - rewrite StreamTypeWEBM_Args, !in_app_iff in HIn.
      destruct HIn as [H | [H | [H | H]]]; [one_of H | | one_of H | one_of H].
      apply VideoFilter_Args_videoFilter in H as [-> | (s & ->)]; reflexivity.
    - rewrite StreamTypeMKV_Args in HIn. one_of HIn. }
  split; [exact Heq |]. split; [| split; [exact Hnone |]].
  - subst fmt. destruct HF as [-> | [-> | ->]].
    + rewrite StreamTypeMP4_Args, !in_app_iff. right. right. left. left. reflexivity.
    + rewrite StreamTypeWEBM_Args, !in_app_iff. right. right. left. left. reflexivity.
    + rewrite StreamTypeMKV_Args, !in_app_iff. right. left. left. reflexivity.
  - intros x Hx. rewrite Heq, !in_app_iff.
    intros [H | [H | [H | [H | [H | [H | H]]]]]]; auto.
    + exfalso. revert Hx. apply not_mem_In. one_of H.
    + unfold seekArgs in H. destruct (float64_nonzero _); [| destruct H].
      destruct H as [<- | [H | []]]; [| auto].
      exfalso. revert Hx. apply not_mem_In. reflexivity.
    + destruct H as [<- | [H | []]]; [| auto].
      exfalso. revert Hx. apply not_mem_In. reflexivity.
    + exfalso. exact (Hnone x Hx H).
    + exfalso. revert Hx. apply not_mem_In. one_of H.
Qed.




(** ** Runs *)

Lemma run_bind {A B : Type} (p : Prog A) (f : A -> Prog B) w :
  World.run (bind p f) w
  = let '(a, w') := World.run p w in World.run (f a) w'.
Proof.
  revert B f w.
  induction p as [A a | A X c k IH | A body _ k IH]; intros B f w; cbn.
  - reflexivity.
  - destruct (World.exec c w) as [x w']. apply IH.
  - apply IH.
Qed.

Lemma bytes_eqb_refl p : bytes_eqb p p = true.
Proof.
  induction p as [| a p IH]; [reflexivity |]. cbn. rewrite IH.
  rewrite andb_true_r. apply Byte.byte_dec_lb. reflexivity.
Qed.

(** *** The response writer *)

Lemma Response_WriteHeader_committed code r c :
  Response.status r = Some c -> Response.WriteHeader code r = r.
Proof. intros H. unfold Response.WriteHeader. rewrite H. reflexivity. Qed.

Lemma Response_Write_committed p r c :
  Response.status r = Some c ->
  Response.status (Response.Write p r) = Some c
  /\ Response.sent (Response.Write p r) = Response.sent r
  /\ Response.header (Response.Write p r) = Response.header r
  /\ Response.body (Response.Write p r) = Response.body r ++ p.
Proof.
  intros H. unfold Response.Write.
  rewrite (Response_WriteHeader_committed _ _ _ H). cbn. auto.
Qed.

(** *** A write *)

Lemma write_frame p w :
  World.env (snd (World.write p w)) = World.env w
  /\ World.pending (snd (World.write p w)) = World.pending w
  /\ World.spawned (snd (World.write p w)) = World.spawned w
  /\ World.trace (snd (World.write p w)) = World.trace w ++ [EWrite p].
Proof.
  unfold World.write. cbn.
  destruct (World.credit w) as [[n e] |]; [| cbn; auto].
  destruct (length p <=? n)%nat; cbn; auto.
Qed.

Lemma write_resp p w :
  exists n, (n <= length p)%nat
            /\ World.resp (snd (World.write p w))
               = Response.Write (take n p) (World.resp w)
            /\ (fst (World.write p w) = None -> n = length p).
Proof.
  unfold World.write. cbn.
  destruct (World.credit w) as [[n e] |].
  - destruct (Nat.leb_spec (length p) n); cbn.
    + exists (length p). rewrite firstn_all. auto.
    + exists n. split; [lia |]. split; [reflexivity | discriminate].
  - exists (length p). cbn. rewrite firstn_all. auto.
Qed.

(** The answer of a write depends on the credit of the client alone. *)
Lemma write_result p w1 w2 :
  World.credit w1 = World.credit w2 ->
  fst (World.write p w1) = fst (World.write p w2)
  /\ World.credit (snd (World.write p w1)) = World.credit (snd (World.write p w2)).
Proof.
  intros H. unfold World.write. cbn. rewrite H.
  destruct (World.credit w2) as [[n e] |] eqn:E;
    [destruct (length p <=? n)%nat |]; cbn; split; congruence.
Qed.

(** *** The copy *)

Lemma copy_frame reads w :
  World.env (snd (World.copy reads w)) = World.env w
  /\ World.spawned (snd (World.copy reads w)) = World.spawned w.
Proof.
  revert w. induction reads as [| p rest IH]; intros w; cbn.
  - auto.
  - destruct p as [| b p].
    + destruct (IH (World.emit (EReadStdout []) (World.setPending rest w))) as [-> ->].
      auto.
    + destruct (World.write (b :: p) _) as [[e |] w1] eqn:Hw.
      * pose proof (write_frame (b :: p)
                      (World.emit (EReadStdout (b :: p)) (World.setPending rest w)))
          as (He & _ & Hs & _).
        rewrite Hw in He, Hs. cbn in *. auto.
      * pose proof (write_frame (b :: p)
                      (World.emit (EReadStdout (b :: p)) (World.setPending rest w)))
          as (He & _ & Hs & _).
        rewrite Hw in He, Hs. cbn in *.
        destruct (IH w1) as [-> ->]. auto.
Qed.

(** The copy streams: its events are reads, each followed by the write
    of what was read; it writes chunks that the encoder wrote, and it
    neither logs nor flushes. *)
Lemma copy_trace reads w :
  exists cp ws,
    World.trace (snd (World.copy reads w)) = World.trace w ++ cp
    /\ streamed cp = true
    /\ logged cp = []
    /\ respCalls cp = map EWrite ws
    /\ incl ws reads.
Proof.
  revert w. induction reads as [| p rest IH]; intros w; cbn.
  - eexists [_], []. split; [reflexivity |]. cbn. repeat split; auto.
    apply incl_nil_l.
  - destruct p as [| b p].
    + destruct (IH (World.emit (EReadStdout []) (World.setPending rest w)))
        as (cp & ws & Htr & Hst & Hlog & Hresp & Hincl).
      exists (EReadStdout [] :: cp), ws. rewrite Htr. cbn.
      rewrite <- app_assoc. repeat split; auto. apply incl_tl. exact Hincl.
    + pose proof (write_frame (b :: p)
                    (World.emit (EReadStdout (b :: p)) (World.setPending rest w)))
        as (_ & _ & _ & Htr).
      destruct (World.write (b :: p) _) as [[e |] w1] eqn:Hw; cbn in Htr.
      * exists [EReadStdout (b :: p); EWrite (b :: p)], [b :: p]. cbn.
        rewrite Htr, <- app_assoc. split; [reflexivity |].
        rewrite bytes_eqb_refl, (Byte.byte_dec_lb eq_refl). cbn.
        repeat split; auto. intros x [<- | []]. left. reflexivity.
      * destruct (IH w1) as (cp & ws & Htr1 & Hst & Hlog & Hresp & Hincl).
        exists (EReadStdout (b :: p) :: EWrite (b :: p) :: cp), ((b :: p) :: ws).
        rewrite Htr1, Htr, <- !app_assoc. split; [reflexivity |].
        split; [| split; [| split]].
        -- cbn. rewrite bytes_eqb_refl, (Byte.byte_dec_lb eq_refl). exact Hst.
        -- exact Hlog.
        -- cbn. f_equal. exact Hresp.
        -- intros x [<- | Hx]; [left; reflexivity | right; auto].
Qed.

(** Once the status line is out, a copy leaves it and the headers as
    they are, and adds to the body a prefix of what the encoder wrote. *)
Lemma copy_resp reads w c :
  Response.status (World.resp w) = Some c ->
  let r := World.resp (snd (World.copy reads w)) in
  Response.status r = Some c
  /\ Response.sent r = Response.sent (World.resp w)
  /\ Response.header r = Response.header (World.resp w)
  /\ exists n, Response.body r = Response.body (World.resp w) ++ take n (concat reads).
Proof.
  revert w. induction reads as [| p rest IH]; intros w Hc; cbn.
  - repeat split; auto. exists 0%nat. cbn. rewrite app_nil_r. reflexivity.
  - destruct p as [| b p].
    + apply (IH (World.emit (EReadStdout []) (World.setPending rest w))). exact Hc.
    + destruct (write_resp (b :: p)
                  (World.emit (EReadStdout (b :: p)) (World.setPending rest w)))
        as (n & Hn & Hr & Hok).
      cbn [World.resp World.emit World.setPending] in Hr.
      destruct (Response_Write_committed (take n (b :: p)) _ _ Hc)
        as (Hs & Hsent & Hhdr & Hbody).
      destruct (World.write (b :: p) _) as [[e |] w1] eqn:Hw; cbn [snd fst] in *.
      * rewrite Hr. repeat split; auto.
        exists n. rewrite Hbody. f_equal.
        change (b :: p ++ concat rest) with ((b :: p) ++ concat rest).
        rewrite take_app_le by exact Hn. reflexivity.
      * specialize (Hok eq_refl). subst n. rewrite firstn_all in *.
        rewrite <- Hr in Hs, Hsent, Hhdr, Hbody.
        destruct (IH w1 Hs) as (Hs1 & Hsent1 & Hhdr1 & m & Hbody1).
        repeat split; try congruence.
        exists (length (b :: p) + m)%nat. rewrite Hbody1, Hbody, <- app_assoc.
        f_equal. change (b :: p ++ concat rest) with ((b :: p) ++ concat rest).
        rewrite take_app_add. reflexivity.
Qed.

(** What a copy returns depends on what is still to be read and on the
    client, not on the response or on the trace. *)
Lemma copy_result reads w1 w2 :
  World.env w1 = World.env w2 ->
  World.credit w1 = World.credit w2 ->
  fst (World.copy reads w1) = fst (World.copy reads w2).
Proof.
  revert w1 w2. induction reads as [| p rest IH]; intros w1 w2 He Hc; cbn.
  - rewrite He. reflexivity.
  - destruct p as [| b p].
    + apply IH; cbn; assumption.
    + pose proof (write_result (b :: p)
                    (World.emit (EReadStdout (b :: p)) (World.setPending rest w1))
                    (World.emit (EReadStdout (b :: p)) (World.setPending rest w2)) Hc)
        as [Hres Hcred].
      pose proof (write_frame (b :: p)
                    (World.emit (EReadStdout (b :: p)) (World.setPending rest w1)))
        as (He1 & _).
      pose proof (write_frame (b :: p)
                    (World.emit (EReadStdout (b :: p)) (World.setPending rest w2)))
        as (He2 & _).
      destruct (World.write (b :: p) (World.emit _ (World.setPending rest w1)))
        as [r1 w1'].
      destruct (World.write (b :: p) (World.emit _ (World.setPending rest w2)))
        as [r2 w2'].
      cbn in *. subst r2. destruct r1; [reflexivity |].
      apply IH; congruence.
Qed.

(** *** The handler *)

(** What the handler does: the content type, status 200, the copy, an
    entry in the log for a copy that failed otherwise than on a broken
    pipe, and one flush. *)
Lemma handler_run mimeType w :
  let w' := snd (World.run (handler mimeType) w) in
  exists cp ws,
    World.trace w'
    = World.trace w
      ++ [EHeaderSet "Content-Type" mimeType; EWriteHeader StatusOK]
      ++ cp
      ++ match copyResult w with
         | Some e =>
             if errors_Is e EPIPE then []
             else [ELog LevelError
                     "[transcode] error serving transcoded video file: %v"
                     [Error e]]
         | None => []
         end
      ++ [EFlush]
    /\ streamed cp = true
    /\ logged cp = []
    /\ respCalls cp = map EWrite ws
    /\ incl ws (World.pending w).
Proof.
  unfold handler. cbn.
  set (w1 := World.onResp _ _).
  destruct (copy_trace (World.pending w) w1) as (cp & ws & Htr & Hst & Hlog & Hresp & Hincl).
  assert (Hres : fst (World.copy (World.pending w) w1) = copyResult w)
    by (apply copy_result; reflexivity).
  destruct (World.copy (World.pending w) w1) as [err w2]. cbn [fst snd] in *.
  exists cp, ws. split; [| auto]. rewrite <- Hres.
  destruct err as [e |]; [destruct (errors_Is e EPIPE) |]; cbn;
    rewrite Htr; subst w1; cbn; rewrite <- !app_assoc; reflexivity.
Qed.

Lemma handler_frame mimeType w :
  World.env (snd (World.run (handler mimeType) w)) = World.env w
  /\ World.spawned (snd (World.run (handler mimeType) w)) = World.spawned w.
Proof.
  unfold handler. cbn.
  set (w1 := World.onResp _ _).
  destruct (copy_frame (World.pending w) w1) as [He Hs].
  destruct (World.copy (World.pending w) w1) as [err w2]. cbn [fst snd] in *.
  destruct err as [e |]; [destruct (errors_Is e EPIPE) |]; cbn; auto.
Qed.

(** On a response that nothing was sent on, the handler leaves status
    200, the content type among the headers sent, and as body a prefix of
    what the encoder wrote. *)
Lemma handler_resp mimeType w :
  Response.status (World.resp w) = None ->
  let r := World.resp (snd (World.run (handler mimeType) w)) in
  Response.status r = Some StatusOK
  /\ Response.sent r = <["Content-Type" := [mimeType]]> (Response.header (World.resp w))
  /\ exists n, Response.body r
               = Response.body (World.resp w) ++ take n (concat (World.pending w)).
Proof.
  intros Hfresh. unfold handler. cbn.
  set (w1 := World.onResp _ _).
  assert (Hs1 : Response.status (World.resp w1) = Some StatusOK).
  { subst w1. cbn. unfold Response.WriteHeader. cbn. rewrite Hfresh. reflexivity. }
  assert (Hsent1 : Response.sent (World.resp w1)
                   = <["Content-Type" := [mimeType]]> (Response.header (World.resp w))).
  { subst w1. cbn. unfold Response.WriteHeader. cbn. rewrite Hfresh. reflexivity. }
  assert (Hbody1 : Response.body (World.resp w1) = Response.body (World.resp w)).
  { subst w1. cbn. unfold Response.WriteHeader. cbn. rewrite Hfresh. reflexivity. }
  destruct (copy_resp (World.pending w) w1 _ Hs1) as (Hs & Hsent & _ & n & Hbody).
  destruct (World.copy (World.pending w) w1) as [err w2]. cbn [fst snd] in *.
  assert (Hflush : Response.Flush (World.resp w2) = World.resp w2).
  { unfold Response.Flush. apply (Response_WriteHeader_committed _ _ _ Hs). }
  destruct err as [e |]; [destruct (errors_Is e EPIPE) |]; cbn;
    rewrite Hflush; (split; [exact Hs |]); (split; [congruence |]);
    exists n; congruence.
Qed.

(** *** Getting the handler *)

(** When the pipes and the process can be had, [getTranscodeStream] asks
    for the two pipes, starts the encoder, attaches the command to the
    lock context, starts the goroutine and returns the handler, in this
    order and with nothing else. *)
Lemma getTranscodeStream_started sm o w :
  startFailure (World.env w) = None ->
  let cmd := Command (StreamManager.encoder sm) (makeStreamArgs o sm) in
  World.run (getTranscodeStream sm o) w
  = (Ok (handler (StreamFormat.MimeType (TranscodeOptions.StreamType o))),
     World.addGoroutine (stderrTask cmd)
       (World.emit EGo
          (World.emit EAttachCommand
             (World.emit (EStart (Cmd.Args cmd))
                (World.emit EStderrPipe (World.emit EStdoutPipe w)))))).
Proof.
  unfold startFailure. intros H.
  destruct (Env.stdoutPipe (World.env w)) eqn:H1; [discriminate |].
  destruct (Env.stderrPipe (World.env w)) eqn:H2; [discriminate |].
  unfold getTranscodeStream. cbn. rewrite H1. cbn. rewrite H2. cbn. rewrite H.
  reflexivity.
Qed.

(** When one of them cannot be had, [getTranscodeStream] returns that
    error; it has started no goroutine and touched neither the response
    nor the encoder's output. *)
Lemma getTranscodeStream_failed sm o w e :
  startFailure (World.env w) = Some e ->
  let '(r, w') := World.run (getTranscodeStream sm o) w in
  r = Err e
  /\ World.resp w' = World.resp w
  /\ World.credit w' = World.credit w
  /\ World.pending w' = World.pending w
  /\ World.spawned w' = World.spawned w
  /\ exists tr, World.trace w' = World.trace w ++ tr
                /\ respCalls tr = []
                /\ (forall ev, In ev tr -> isStdoutRead ev = false)
                /\ ~ In EGo tr.
Proof.
  unfold startFailure. intros H.
  unfold getTranscodeStream. cbn.
  destruct (Env.stdoutPipe (World.env w)) eqn:H1; cbn.
  { inversion H; subst. repeat split; try reflexivity.
    eexists [_; _]. rewrite <- app_assoc. repeat split; try reflexivity.
    - intros ev [<- | [<- | []]]; reflexivity.
    - cbn. intuition discriminate. }
  destruct (Env.stderrPipe (World.env w)) eqn:H2; cbn.
  { inversion H; subst. repeat split; try reflexivity.
    eexists [_; _; _]. rewrite <- !app_assoc. repeat split; try reflexivity.
    - intros ev [<- | [<- | [<- | []]]]; reflexivity.
    - cbn. intuition discriminate. }
  rewrite H. cbn. repeat split; try reflexivity.
  eexists [_; _; _]. rewrite <- !app_assoc. repeat split; try reflexivity.
  - intros ev [<- | [<- | [<- | []]]]; reflexivity.
  - cbn. intuition discriminate.
Qed.

(** *** Serving a request *)

Lemma ServeTranscode_run sm o w :
  World.run (ServeTranscode sm o) w
  = let '(r, w1) :=
      World.run (getTranscodeStream sm o)
        (World.emit (EReadLock (VideoFile.Path (TranscodeOptions.VideoFile o))) w) in
    match r with
    | Err err =>
        let w2 :=
          World.onResp (Response.WriteHeader StatusBadRequest)
            (World.emit (EWriteHeader StatusBadRequest)
               (World.emit
                  (ELog LevelError "[transcode] error transcoding video file: %v"
                     [Error err]) w1)) in
        let '(werr, w3) := World.write (list_byte_of_string (Error err)) w2 in
        (tt,
         match werr with
         | Some e =>
             World.emit
               (ELog LevelWarn "[transcode] error writing response: %v" [Error e]) w3
         | None => w3
         end)
    | Ok handler => World.run handler w1
    end.
Proof.
  unfold ServeTranscode. rewrite run_bind. cbn -[getTranscodeStream].
  rewrite run_bind.
  destruct (World.run (getTranscodeStream sm o) _) as [[h | err] w1].
  - reflexivity.
  - cbn. destruct (World.write _ _) as [[e |] w3]; reflexivity.
Qed.

(** A request that cannot get its handler: what it has done when it
    returns. *)
Lemma ServeTranscode_failed sm o env e :
  startFailure env = Some e ->
  let w := snd (World.run (ServeTranscode sm o) (World.init env)) in
  let text := list_byte_of_string (Error e) in
  exists tr warn n,
    World.trace w
    = EReadLock (VideoFile.Path (TranscodeOptions.VideoFile o)) :: tr
      ++ [ELog LevelError "[transcode] error transcoding video file: %v" [Error e];
          EWriteHeader StatusBadRequest; EWrite text]
      ++ warn
    /\ respCalls tr = []
    /\ (forall ev, In ev tr -> isStdoutRead ev = false)
    /\ ~ In EGo tr
    /\ (warn = [] \/ exists e', warn = [ELog LevelWarn "[transcode] error writing response: %v" [Error e']])
    /\ World.resp w
       = Response.Write (take n text) (Response.WriteHeader StatusBadRequest Response.fresh)
    /\ (Env.client env = None -> n = length text)
    /\ World.pending w = stdoutOf (Env.script env)
    /\ World.spawned w = [].
Proof.
  intros H w text. subst w. rewrite ServeTranscode_run.
  pose proof (getTranscodeStream_failed sm o
                (World.emit (EReadLock (VideoFile.Path (TranscodeOptions.VideoFile o)))
                   (World.init env)) e H) as Hget.
  destruct (World.run (getTranscodeStream sm o) _) as [r w1].
  destruct Hget as (-> & Hresp & Hcred & Hpend & Hsp & tr & Htr & Hrc & Hnr & Hgo).
  cbn in Hresp, Hcred, Hpend, Hsp, Htr.
  unfold World.write. cbn. rewrite Hcred. fold text.
  destruct (Env.client env) as [[n e'] |];
    [destruct (length text <=? n)%nat |]; cbn;
    rewrite ?Hresp, ?Hpend, ?Hsp, ?Htr.
  - exists tr, [], (length text). rewrite firstn_all, <- !app_assoc.
    repeat split; auto; discriminate.
  - exists tr, [ELog LevelWarn "[transcode] error writing response: %v" [Error e']], n.
    rewrite <- !app_assoc. repeat split; eauto; discriminate.
  - exists tr, [], (length text). rewrite firstn_all, <- !app_assoc.
    repeat split; auto.
Qed.

(** C8: when the stdout pipe, the stderr pipe or the start of the encoder
    fails, serving the request calls the response writer twice, with
    status 400 and then with the text of that error; the response has
    status 400 and as body the part of that text that the client takes,
    all of it when the client takes everything; the encoder's output is
    never read, no goroutine is started and the handler does not run. *)
Theorem start_failure_bad_request sm o env e :
  startFailure env = Some e ->
  let w := snd (World.run (ServeTranscode sm o) (World.init env)) in
  respCalls (World.trace w)
  = [EWriteHeader StatusBadRequest; EWrite (list_byte_of_string (Error e))]
  /\ Response.status (World.resp w) = Some StatusBadRequest
  /\ (exists n, Response.body (World.resp w) = take n (list_byte_of_string (Error e)))
  /\ (Env.client env = None ->
      Response.body (World.resp w) = list_byte_of_string (Error e))
  /\ (forall ev, In ev (World.trace w) -> isStdoutRead ev = false)
  /\ World.pending w = stdoutOf (Env.script env)
  /\ ~ In EGo (World.trace w)
  /\ World.spawned w = [].
Proof.
  intros H w.
  destruct (ServeTranscode_failed sm o env e H)
    as (tr & warn & n & Htr & Hrc & Hnr & Hgo & Hwarn & Hresp & Hn & Hpend & Hsp).
  fold w in Htr, Hresp, Hpend, Hsp. rewrite Htr, Hresp.
  assert (Hw : respCalls warn = [] /\ (forall ev, In ev warn -> isStdoutRead ev = false)
               /\ ~ In EGo warn).
  { destruct Hwarn as [-> | (e' & ->)]; cbn; repeat split; try tauto.
    - intros ev [<- | []]. reflexivity.
    - intros [Hev | []]. discriminate. }
  destruct Hw as (Hwrc & Hwnr & Hwgo).
  split; [| split; [| split; [| split; [| split; [| split; [| split]]]]]].
  - unfold respCalls in *. cbn. rewrite !List.filter_app, Hrc. cbn. rewrite Hwrc.
    reflexivity.
  - reflexivity.
  - exists n. reflexivity.
  - intros Hc. cbn. rewrite (Hn Hc). apply firstn_all.
  - intros ev [<- | [Hev | [Hev | Hev]%in_app_iff]%in_app_iff]; auto.
    cbn in Hev. destruct Hev as [<- | [<- | [<- | []]]]; reflexivity.
  - exact Hpend.
  - intros [Hev | [Hev | [Hev | Hev]%in_app_iff]%in_app_iff]; auto; try discriminate.
    cbn in Hev. destruct Hev as [Hev | [Hev | [Hev | []]]]; discriminate.
  - exact Hsp.
Qed.

Lemma logged_app l1 l2 : logged (l1 ++ l2) = logged l1 ++ logged l2.
Proof. apply List.filter_app. Qed.

Lemma respCalls_app l1 l2 : respCalls (l1 ++ l2) = respCalls l1 ++ respCalls l2.
Proof. apply List.filter_app. Qed.

(** C9: the handler logs a failed copy at error level, with the text of
    its error, unless the error is a broken pipe; after a copy that ends
    on a broken pipe, or without error, it logs nothing. *)
Theorem broken_pipe_not_logged mimeType w :
  let w' := snd (World.run (handler mimeType) w) in
  let entry e :=
    ELog LevelError "[transcode] error serving transcoded video file: %v" [Error e] in
  (forall e, copyResult w = Some e -> errors_Is e EPIPE = true ->
             logged (World.trace w') = logged (World.trace w))
  /\ (forall e, copyResult w = Some e -> errors_Is e EPIPE = false ->
                logged (World.trace w') = logged (World.trace w) ++ [entry e])
  /\ (copyResult w = None -> logged (World.trace w') = logged (World.trace w)).
Proof.
  intros w' entry.
  destruct (handler_run mimeType w) as (cp & ws & Htr & _ & Hlog & _).
  fold w' in Htr. rewrite Htr, !logged_app, Hlog. cbn.
  split; [| split].
  - intros e -> ->. cbn. rewrite app_nil_r. reflexivity.
  - intros e -> ->. reflexivity.
  - intros ->. cbn. rewrite app_nil_r. reflexivity.
Qed.

(** A request whose handler is obtained: what it has done when it
    returns. *)
Lemma ServeTranscode_started sm o env :
  startFailure env = None ->
  let cmd := Command (StreamManager.encoder sm) (makeStreamArgs o sm) in
  let mimeType := StreamFormat.MimeType (TranscodeOptions.StreamType o) in
  let w0 :=
    World.addGoroutine (stderrTask cmd)
      (World.emit EGo
         (World.emit EAttachCommand
            (World.emit (EStart (Cmd.Args cmd))
               (World.emit EStderrPipe
                  (World.emit EStdoutPipe
                     (World.emit
                        (EReadLock (VideoFile.Path (TranscodeOptions.VideoFile o)))
                        (World.init env))))))) in
  World.run (ServeTranscode sm o) (World.init env) = World.run (handler mimeType) w0.
Proof.
  intros H cmd mimeType w0. rewrite ServeTranscode_run.
  rewrite getTranscodeStream_started by exact H. reflexivity.
Qed.

(** *** The goroutine *)

Lemma stderrTask_run cmd w :
  let text := string_of_list_byte (stderrOf (Env.script (World.env w))) in
  let err := if String.eqb text "" then Env.wait (World.env w)
             else Some (errorString text) in
  let w2 := World.emit EWait (World.emit EReadAllStderr w) in
  snd (World.run (stderrTask cmd) w)
  = match err with
    | Some x =>
        if errors_As_ExitError x then w2
        else World.emit
               (ELog LevelError
                  "[transcode] ffmpeg error when running command <%s>: %v"
                  [String.concat " " (Cmd.Args cmd); Error x]) w2
    | None => w2
    end.
Proof.
  unfold stderrTask. cbn.
  destruct (String.eqb _ ""); cbn.
  - destruct (Env.wait (World.env w)) as [x |]; [| reflexivity].
    destruct (errors_As_ExitError x); reflexivity.
  - reflexivity.
Qed.

Lemma stderrTask_trace cmd w :
  World.trace (snd (World.run (stderrTask cmd) w))
  = World.trace w ++ [EReadAllStderr; EWait] ++ stderrTaskLog cmd w.
Proof.
  unfold stderrTaskLog. rewrite stderrTask_run. cbn zeta.
  destruct (if String.eqb _ "" then _ else _) as [x |];
    [destruct (errors_As_ExitError x) |]; cbn;
    rewrite <- ?app_assoc; cbn; rewrite drop_app_length; reflexivity.
Qed.

Lemma stderrTaskLog_eq cmd w :
  let text := string_of_list_byte (stderrOf (Env.script (World.env w))) in
  let err := if String.eqb text "" then Env.wait (World.env w)
             else Some (errorString text) in
  stderrTaskLog cmd w
  = match err with
    | Some x =>
        if errors_As_ExitError x then []
        else [ELog LevelError
                "[transcode] ffmpeg error when running command <%s>: %v"
                [String.concat " " (Cmd.Args cmd); Error x]]
    | None => []
    end.
Proof.
  unfold stderrTaskLog. rewrite stderrTask_run. cbn zeta.
  destruct (if String.eqb _ "" then _ else _) as [x |];
    [destruct (errors_As_ExitError x) |]; cbn;
    rewrite <- ?app_assoc; cbn; rewrite drop_app_length; reflexivity.
Qed.

(** The goroutine leaves the response as it is. *)
Lemma stderrTask_resp cmd w :
  World.resp (snd (World.run (stderrTask cmd) w)) = World.resp w.
Proof.
  rewrite stderrTask_run. cbn zeta.
  destruct (if String.eqb _ "" then _ else _) as [x |];
    [destruct (errors_As_ExitError x) |]; reflexivity.
Qed.

(** C2, as the code has it: when the encoder has ended, the goroutine
    takes as error the text gathered from its standard error if there is
    any, whatever the way it ended, and else the error of [Wait]; it logs
    that error unless it is an exit error. So text on standard error is
    always logged; without any, an exit error is never logged, be it a
    kill or a status other than zero, an exit with status zero logs
    nothing, and another error of [Wait] is logged. *)
Theorem exit_classification cmd w :
  let text := string_of_list_byte (stderrOf (Env.script (World.env w))) in
  let entry x :=
    ELog LevelError "[transcode] ffmpeg error when running command <%s>: %v"
      [String.concat " " (Cmd.Args cmd); Error x] in
  (text <> "" -> stderrTaskLog cmd w = [entry (errorString text)])
  /\ (text = "" -> Env.wait (World.env w) = None -> stderrTaskLog cmd w = [])
  /\ (text = "" -> forall x, Env.wait (World.env w) = Some x ->
                   errors_As_ExitError x = true -> stderrTaskLog cmd w = [])
  /\ (text = "" -> forall x, Env.wait (World.env w) = Some x ->
                   errors_As_ExitError x = false -> stderrTaskLog cmd w = [entry x]).
Proof.
  intros text entry. rewrite stderrTaskLog_eq. cbn zeta. fold text.
  split; [| split; [| split]].
  - intros Hne. destruct (String.eqb_spec text ""); [contradiction | reflexivity].
  - intros Ht Hw. rewrite Ht. cbn. rewrite Hw. reflexivity.
  - intros Ht x Hw Hx. rewrite Ht. cbn. rewrite Hw, Hx. reflexivity.
  - intros Ht x Hw Hx. rewrite Ht. cbn. rewrite Hw, Hx. reflexivity.
Qed.

(** C10: for a request whose handler is obtained, whatever the encoder
    and the client do, the calls on the response writer are the content
    type, status 200, writes of chunks that the encoder wrote, and a
    flush, in this order: the status is out before any byte of the body.
    The response ends with status 200, the content type of the format
    and, as body, a prefix of the encoder's output. The goroutine makes
    no call on the response writer: what it finds goes to the log. *)
Theorem status_committed_before_body sm o env :
  startFailure env = None ->
  let w := snd (World.run (ServeTranscode sm o) (World.init env)) in
  let mimeType := StreamFormat.MimeType (TranscodeOptions.StreamType o) in
  let cmd := Command (StreamManager.encoder sm) (makeStreamArgs o sm) in
  (exists ws,
      respCalls (World.trace w)
      = [EHeaderSet "Content-Type" mimeType; EWriteHeader StatusOK]
        ++ map EWrite ws ++ [EFlush]
      /\ incl ws (stdoutOf (Env.script env)))
  /\ Response.status (World.resp w) = Some StatusOK
  /\ Response.sent (World.resp w) !! "Content-Type" = Some [mimeType]
  /\ (exists n, Response.body (World.resp w)
                = take n (concat (stdoutOf (Env.script env))))
  /\ World.spawned w = [stderrTask cmd]
  /\ (forall w0,
        World.resp (snd (World.run (stderrTask cmd) w0)) = World.resp w0
        /\ respCalls (drop (length (World.trace w0))
                        (World.trace (snd (World.run (stderrTask cmd) w0)))) = []).
Proof.
  intros H w mimeType cmd. subst w.
  rewrite (ServeTranscode_started sm o env H). fold mimeType cmd.
  set (w0 := World.addGoroutine _ _).
  destruct (handler_run mimeType w0) as (cp & ws & Htr & Hst & Hlog & Hresp & Hincl).
  destruct (handler_resp mimeType w0 eq_refl) as (Hs & Hsent & n & Hbody).
  destruct (handler_frame mimeType w0) as [_ Hsp].
  set (lg := match copyResult w0 with Some _ => _ | None => _ end) in Htr.
  assert (Hlgr : respCalls lg = []).
  { subst lg. destruct (copyResult w0) as [e |]; [destruct (errors_Is e EPIPE) |];
      reflexivity. }
  split; [| split; [exact Hs | split; [| split; [| split; [exact Hsp |]]]]].
  - exists ws. split; [| exact Hincl]. rewrite Htr.
    cbn [World.trace w0 World.addGoroutine World.emit World.init app].
    change (respCalls (?a :: ?b :: ?c :: ?d :: ?e :: ?f :: ?l)) with (respCalls l).
    transitivity ([EHeaderSet "Content-Type" mimeType; EWriteHeader StatusOK]
                  ++ respCalls (cp ++ lg ++ [EFlush])); [reflexivity |].
    rewrite !respCalls_app, Hresp, Hlgr. reflexivity.
  - rewrite Hsent. apply lookup_insert_eq.
  - exists n. exact Hbody.
  - intros w1. split; [apply stderrTask_resp |].
    rewrite stderrTask_trace, drop_app_length, stderrTaskLog_eq. cbn zeta.
    destruct (if String.eqb _ "" then _ else _) as [x |];
      [destruct (errors_As_ExitError x) |]; reflexivity.
Qed.

(** ** The goroutine and the encoder *)

Lemma noSpawn_bind {A B : Type} (p : Prog A) (f : A -> Prog B) :
  noSpawn p -> (forall a, noSpawn (f a)) -> noSpawn (bind p f).
Proof.
  revert B f. induction p as [A a | A X c k IH | A body _ k IH]; intros B f; cbn.
  - auto.
  - intros Hp Hf x. apply IH; auto.
  - intros [].
Qed.

(** A call step of thread [i] changes the code of that thread alone, to
    what follows the call or not at all; it leaves the encoder as it is,
    unless it is a [Start] and the encoder is not started. *)
Lemma callStep_spec i a {X : Type} (c : Call X) k s s' :
  Sys.callStep i a c k s = Some s' ->
  (exists th',
      Sys.threads s' = <[i := th']> (Sys.threads s)
      /\ (Thread.code th' = Vis c k \/ exists x, Thread.code th' = k x))
  /\ (Sys.proc s' = Sys.proc s \/ (isStart c = true /\ Sys.proc s = NotStarted)).
Proof.
  assert (Hdone : forall (s1 : Sys.t) (th : Thread.t),
             Sys.threads s1 = <[i := th]> (Sys.threads s) ->
             (Thread.code th = Vis c k \/ exists x, Thread.code th = k x) ->
             (Sys.proc s1 = Sys.proc s
              \/ (isStart c = true /\ Sys.proc s = NotStarted)) ->
             (exists th',
                 Sys.threads s1 = <[i := th']> (Sys.threads s)
                 /\ (Thread.code th' = Vis c k \/ exists x, Thread.code th' = k x))
             /\ (Sys.proc s1 = Sys.proc s
                 \/ (isStart c = true /\ Sys.proc s = NotStarted))).
  { intros s1 th Ht Hc Hp. split; [exists th; auto | exact Hp]. }
  destruct c; cbn.
  all: try (intros [= <-]; eapply Hdone;
            [reflexivity | right; eexists; reflexivity | solve [left; reflexivity | left; cbn; assumption | cbn; auto]]).
  - destruct (Env.start _).
    + intros [= <-]. eapply Hdone;
        [reflexivity | right; eexists; reflexivity | solve [left; reflexivity | left; cbn; assumption | cbn; auto]].
    + destruct (Sys.proc s) eqn:Hp; intros [= <-];
        (eapply Hdone; [reflexivity | right; eexists; reflexivity | solve [left; reflexivity | left; cbn; assumption | cbn; auto]]).
  - destruct (Sys.errPipe s).
    + destruct (Sys.proc s) eqn:Hp; try discriminate. intros [= <-].
      eapply Hdone; [reflexivity | right; eexists; reflexivity | solve [left; reflexivity | left; cbn; assumption | cbn; auto]].
    + intros [= <-].
      eapply Hdone; [reflexivity | left; reflexivity | solve [left; reflexivity | left; cbn; assumption | cbn; auto]].
  - destruct (Sys.proc s) eqn:Hp; try discriminate. intros [= <-].
    eapply Hdone; [reflexivity | right; eexists; reflexivity | solve [left; reflexivity | left; cbn; assumption | cbn; auto]].
  - unfold World.write. cbn.
    destruct (World.credit _) as [[n e] |]; [destruct (_ <=? _)%nat |];
      intros [= <-];
      (eapply Hdone; [reflexivity | right; eexists; reflexivity | solve [left; reflexivity | left; cbn; assumption | cbn; auto]]).
  - destruct (Sys.closed s).
    + intros [= <-].
      eapply Hdone; [reflexivity | right; eexists; reflexivity | solve [left; reflexivity | left; cbn; assumption | cbn; auto]].
    + destruct (Sys.outPipe s) as [| b p].
      * destruct (Sys.proc s) eqn:Hp; try discriminate. intros [= <-].
        eapply Hdone; [reflexivity | right; eexists; reflexivity | solve [left; reflexivity | left; cbn; assumption | cbn; auto]].
      * destruct (World.write _ _) as [[e |] w1]; intros [= <-].
        -- eapply Hdone;
             [reflexivity | right; eexists; reflexivity | solve [left; reflexivity | left; cbn; assumption | cbn; auto]].
        -- eapply Hdone; [reflexivity | left; reflexivity | solve [left; reflexivity | left; cbn; assumption | cbn; auto]].
Qed.

(** A call other than the copy reads nothing from the encoder's output. *)
Lemma callStep_unread i a {X : Type} (c : Call X) k s s' :
  isCopy c = false ->
  Sys.callStep i a c k s = Some s' ->
  unread s -> unread s'.
Proof.
  unfold unread. intros Hc Hstep Hun.
  assert (Hadd : forall ev0 : Event,
             isStdoutRead ev0 = false ->
             forall ev, In ev (World.trace (Sys.world s) ++ [ev0]) ->
                        isStdoutRead ev = false).
  { intros ev0 H0 ev [H | [<- | []]]%in_app_iff; auto. }
  destruct c; cbn in Hstep; try discriminate Hc.
  all: try (injection Hstep as <-; cbn; first [exact Hun | apply Hadd; reflexivity]).
  - destruct (Env.start _); [| destruct (Sys.proc s)];
      injection Hstep as <-; cbn; apply Hadd; reflexivity.
  - destruct (Sys.errPipe s); [destruct (Sys.proc s); try discriminate |];
      injection Hstep as <-; cbn; first [exact Hun | apply Hadd; reflexivity].
  - destruct (Sys.proc s); try discriminate.
    injection Hstep as <-; cbn; apply Hadd; reflexivity.
  - revert Hstep. unfold World.write. cbn.
    destruct (World.credit _) as [[n e] |]; [destruct (_ <=? _)%nat |];
      intros [= <-]; cbn; apply Hadd; reflexivity.
Qed.

Lemma lookup_single (m th : Thread.t) i :
  [m] !! i = Some th -> i = 0%nat /\ th = m.
Proof. destruct i as [| i]; cbn; [intros [= ->]; auto | intros H; discriminate H]. Qed.

Lemma lookup_pair (m t th : Thread.t) i :
  [m; t] !! i = Some th -> (i = 0%nat /\ th = m) \/ (i = 1%nat /\ th = t).
Proof.
  destruct i as [| [| i]]; cbn; [intros [= ->]; auto | intros [= ->]; auto |].
  intros H. discriminate H.
Qed.

(** Before the encoder is started. *)
Lemma drained_call_not_started body (m : Thread.t) {X : Type} (c : Call X) k s s' :
  Sys.proc s = NotStarted ->
  Sys.threads s = [m] ->
  Thread.code m = Vis c k ->
  startsTaskOnStart body (Vis c k) ->
  unread s ->
  Sys.callStep 0 (Thread.acc m) c k s = Some s' ->
  drained body s'.
Proof.
  intros Hp Ht Hm Hpre Hun Hstep.
  assert (Hcopy : isCopy c = false) by (destruct c; try reflexivity; destruct Hpre).
  pose proof (callStep_unread _ _ _ _ _ _ Hcopy Hstep Hun) as Hun'.
  destruct (isStart c) eqn:Hstart.
  - destruct c; try discriminate Hstart. cbn in Hstep, Hpre.
    destruct Hpre as [Hfail Hok].
    destruct (Env.start _) as [e |].
    + injection Hstep as <-. unfold drained. cbn. rewrite Hp, Ht. cbn. eauto.
    + rewrite Hp in Hstep. injection Hstep as <-. unfold drained. cbn.
      rewrite Ht. cbn. left. eexists. split; [reflexivity |]. split; [exact Hok |].
      exact Hun'.
  - destruct (callStep_spec _ _ _ _ _ _ Hstep) as [(th' & Hth' & Hcode) [Hp' | [Hs _]]];
      [| congruence].
    unfold drained. rewrite Hp', Hp, Hth', Ht. cbn.
    exists th'. split; [reflexivity |]. split; [| exact Hun'].
    destruct Hcode as [-> | [x ->]]; [exact Hpre |].
    destruct c; try discriminate Hstart; try discriminate Hcopy; apply Hpre.
Qed.

(** Between the start of the encoder and the start of the goroutine. *)
Lemma drained_call_starting body (m : Thread.t) {X : Type} (c : Call X) k s s' :
  Sys.proc s <> NotStarted ->
  Sys.threads s = [m] ->
  startsTask body (Vis c k) ->
  unread s ->
  Sys.callStep 0 (Thread.acc m) c k s = Some s' ->
  Sys.proc s' = Sys.proc s
  /\ exists m', Sys.threads s' = [m'] /\ startsTask body (Thread.code m') /\ unread s'.
Proof.
  intros Hp Ht Hpre Hun Hstep.
  destruct c; try destruct Hpre. cbn in Hstep, Hpre. injection Hstep as <-. cbn.
  split; [reflexivity |]. rewrite Ht. cbn. eexists. split; [reflexivity |].
  split; [cbn; destruct (k ()); try destruct Hpre; cbn; split; assumption |].
  intros ev [Hev | [<- | []]]%in_app_iff; auto.
Qed.

(** A thread that starts no goroutine, once the encoder is started. *)
Lemma drained_call_noSpawn i a {X : Type} (c : Call X) k s s' :
  Sys.proc s <> NotStarted ->
  (forall x, noSpawn (k x)) ->
  Sys.callStep i a c k s = Some s' ->
  Sys.proc s' = Sys.proc s
  /\ exists th', Sys.threads s' = <[i := th']> (Sys.threads s)
                 /\ noSpawn (Thread.code th').
Proof.
  intros Hp Hk Hstep.
  destruct (callStep_spec _ _ _ _ _ _ Hstep) as [(th' & Hth' & Hcode) [Hp' | [_ Hs]]];
    [| contradiction].
  split; [exact Hp' |]. exists th'. split; [exact Hth' |].
  destruct Hcode as [-> | [x ->]]; [exact Hk | apply Hk].
Qed.

(** The goroutine at its [io.ReadAll] while the encoder runs: it takes
    what the pipe holds and stays there. *)
Lemma readAll_running i a k s s' todo :
  Sys.proc s = Running todo ->
  Sys.callStep i a ReadAllStderr k s = Some s' ->
  Sys.errPipe s <> []
  /\ s' = Sys.withThreads
            (<[i := {| Thread.code := Vis ReadAllStderr k;
                       Thread.acc := a ++ Sys.errPipe s |}]> (Sys.threads s))
            (Sys.withErrPipe [] s).
Proof.
  intros Hp. cbn. destruct (Sys.errPipe s); [rewrite Hp; discriminate |].
  intros [= <-]. split; [discriminate | reflexivity].
Qed.

Lemma drained_threadStep body k0 i s s' :
  body = Vis ReadAllStderr k0 ->
  (forall x, noSpawn (k0 x)) ->
  Sys.threadStep i s = Some s' ->
  drained body s -> drained body s'.
Proof.
  intros Hbody Hk0 Hstep Hinv.
  assert (Hnb : noSpawn body) by (rewrite Hbody; exact Hk0).
  unfold Sys.threadStep in Hstep.
  destruct (Sys.threads s !! i) as [th |] eqn:Hth; [| discriminate].
  unfold drained in Hinv.
  destruct (Sys.proc s) as [| todo | err] eqn:Hp.
  - (* not started *)
    destruct Hinv as (m & Ht & Hpre & Hun).
    rewrite Ht in Hth. apply lookup_single in Hth as [-> ->].
    destruct (Thread.code m) as [u | X c k | b k] eqn:Hm;
      [discriminate | | destruct Hpre].
    eapply drained_call_not_started; eauto.
  - (* running *)
    destruct Hinv as [(m & Ht & Hpre & Hun) | (m & acc & Ht & Hm)].
    + rewrite Ht in Hth. apply lookup_single in Hth as [-> ->].
      destruct (Thread.code m) as [u | X c k | b k] eqn:Hcode; [discriminate | |].
      * destruct (drained_call_starting body m c k s s') as (Hp' & m' & Ht' & Hpre' & Hun');
          auto; [congruence |].
        unfold drained. rewrite Hp', Hp. left. eauto.
      * destruct Hpre as [-> Hk]. injection Hstep as <-.
        unfold drained. cbn. rewrite Hp, Ht. cbn. right.
        eexists _, []. split; [reflexivity | exact Hk].
    + rewrite Ht in Hth. apply lookup_pair in Hth as [[-> ->] | [-> ->]].
      * destruct (Thread.code m) as [u | X c k | b k] eqn:Hcode;
          [discriminate | | destruct Hm].
        destruct (drained_call_noSpawn 0 (Thread.acc m) c k s s')
          as (Hp' & th' & Ht' & Hth'); auto; [congruence |].
        unfold drained. rewrite Hp', Hp, Ht', Ht. cbn. right. eauto.
      * cbn in Hstep. rewrite Hbody in Hstep.
        destruct (readAll_running _ _ _ _ _ _ Hp Hstep) as [_ ->].
        unfold drained. cbn. rewrite Hp, Ht. cbn. right.
        exists m, (acc ++ Sys.errPipe s). rewrite Hbody. auto.
  - (* ended *)
    destruct Hinv as [(m & Ht & Hpre & Hun) | (m & t & Ht & Hm & Htk)].
    + rewrite Ht in Hth. apply lookup_single in Hth as [-> ->].
      destruct (Thread.code m) as [u | X c k | b k] eqn:Hcode; [discriminate | |].
      * destruct (drained_call_starting body m c k s s') as (Hp' & m' & Ht' & Hpre' & Hun');
          auto; [congruence |].
        unfold drained. rewrite Hp', Hp. left. eauto.
      * destruct Hpre as [-> Hk]. injection Hstep as <-.
        unfold drained. cbn. rewrite Hp, Ht. cbn. right.
        eexists _, _. split; [reflexivity |]. split; [exact Hk | exact Hnb].
    + rewrite Ht in Hth. apply lookup_pair in Hth as [[-> ->] | [-> ->]].
      * destruct (Thread.code m) as [u | X c k | b k] eqn:Hcode;
          [discriminate | | destruct Hm].
        destruct (drained_call_noSpawn 0 (Thread.acc m) c k s s')
          as (Hp' & th' & Ht' & Hth'); auto; [congruence |].
        unfold drained. rewrite Hp', Hp, Ht', Ht. cbn. right. eauto.
      * destruct (Thread.code t) as [u | X c k | b k] eqn:Hcode;
          [discriminate | | destruct Htk].
        destruct (drained_call_noSpawn 1 (Thread.acc t) c k s s')
          as (Hp' & th' & Ht' & Hth'); auto; [congruence |].
        unfold drained. rewrite Hp', Hp, Ht', Ht. cbn. right. eauto.
Qed.

Lemma drained_encoderStep body s s' :
  noSpawn body ->
  Sys.encoderStep s = Some s' ->
  drained body s -> drained body s'.
Proof.
  intros Hnb Hstep Hinv. unfold Sys.encoderStep in Hstep.
  unfold drained in Hinv.
  destruct (Sys.proc s) as [| todo | err] eqn:Hp; try discriminate.
  assert (Hended : forall e pipeOut pipeErr,
             drained body
               (Sys.withProc (Exited e)
                  (Sys.withErrPipe pipeErr (Sys.withOutPipe pipeOut s)))).
  { intros e pipeOut pipeErr. unfold drained, unread in *. cbn.
    destruct Hinv as [H | (m & acc & Ht & Hm)]; [left; exact H | right].
    exists m, (taskThread body acc). auto. }
  assert (Hruns : forall todo' pipeOut pipeErr,
             drained body
               (Sys.withProc (Running todo')
                  (Sys.withErrPipe pipeErr (Sys.withOutPipe pipeOut s)))).
  { intros todo' pipeOut pipeErr. unfold drained, unread in *. cbn. exact Hinv. }
  destruct todo as [| [p | p] rest].
  - injection Hstep as <-. apply (Hended _ (Sys.outPipe s) (Sys.errPipe s)).
  - destruct p as [| b p].
    + injection Hstep as <-. apply (Hruns _ (Sys.outPipe s) (Sys.errPipe s)).
    + destruct (Sys.pipeWrite _ _ _) as [[pipe [| b' p']] |]; try discriminate;
        injection Hstep as <-; apply (Hruns _ pipe (Sys.errPipe s)).
  - destruct p as [| b p].
    + injection Hstep as <-. apply (Hruns _ (Sys.outPipe s) (Sys.errPipe s)).
    + destruct (Sys.pipeWrite _ _ _) as [[pipe [| b' p']] |]; try discriminate;
        injection Hstep as <-; apply (Hruns _ (Sys.outPipe s) pipe).
Qed.

Lemma drained_cancelStep body s s' :
  noSpawn body ->
  Sys.cancelStep s = Some s' ->
  drained body s -> drained body s'.
Proof.
  intros Hnb Hstep Hinv. unfold Sys.cancelStep in Hstep.
  unfold drained in Hinv.
  destruct (Sys.proc s) as [| todo | err] eqn:Hp; try discriminate.
  injection Hstep as <-. unfold drained, unread in *. cbn.
  destruct Hinv as [H | (m & acc & Ht & Hm)]; [left; exact H | right].
  exists m, (taskThread body acc). auto.
Qed.

(** Every state that a request reaches is one of those of [drained]. *)
Lemma drained_reachable body k0 s0 s :
  body = Vis ReadAllStderr k0 ->
  (forall x, noSpawn (k0 x)) ->
  drained body s0 ->
  Sys.reachable s0 s ->
  drained body s.
Proof.
  intros Hbody Hk0 H0 Hreach. induction Hreach as [| s a s' _ IH Hstep].
  - exact H0.
  - destruct a as [i | |]; cbn in Hstep.
    + eapply drained_threadStep; eauto.
    + eapply drained_encoderStep; eauto. rewrite Hbody. exact Hk0.
    + eapply drained_cancelStep; eauto. rewrite Hbody. exact Hk0.
Qed.

Lemma step_capacity a s s' :
  Sys.step a s = Some s' -> Sys.capacity s' = Sys.capacity s.
Proof.
  destruct a as [i | |]; cbn.
  - unfold Sys.threadStep. destruct (Sys.threads s !! i) as [th |]; [| discriminate].
    destruct (Thread.code th) as [u | X c k | b k]; [discriminate | |].
    + destruct c; cbn; repeat case_match; intros ?; simplify_eq; reflexivity.
    + intros [= <-]. reflexivity.
  - unfold Sys.encoderStep. repeat case_match; intros ?; simplify_eq; reflexivity.
  - unfold Sys.cancelStep. repeat case_match; intros ?; simplify_eq; reflexivity.
Qed.

Lemma reachable_capacity s0 s :
  Sys.reachable s0 s -> Sys.capacity s = Sys.capacity s0.
Proof.
  induction 1 as [| s a s' _ IH Hstep]; [reflexivity |].
  rewrite (step_capacity _ _ _ Hstep). exact IH.
Qed.

(** The goroutine of the file begins with its [io.ReadAll] and starts no
    goroutine. *)
Lemma stderrTask_drains cmd :
  exists k0, stderrTask cmd = Vis ReadAllStderr k0 /\ forall x, noSpawn (k0 x).
Proof.
  eexists. split; [reflexivity |]. intros errStr errCmd. cbn.
  destruct (if negb (String.eqb _ "") then _ else _) as [x |]; [| exact I].
  destruct (negb (errors_As_ExitError x)); cbn; auto.
Qed.

Lemma handler_noSpawn mimeType : noSpawn (handler mimeType).
Proof.
  cbn. intros _ _ [e |]; [destruct (negb (errors_Is e EPIPE)) |]; cbn; auto.
Qed.

(** [ServeTranscode] starts its goroutine right after the encoder. *)
Lemma ServeTranscode_startsTaskOnStart sm o :
  startsTaskOnStart
    (stderrTask (Command (StreamManager.encoder sm) (makeStreamArgs o sm)))
    (ServeTranscode sm o).
Proof.
  repeat first
    [ progress cbn -[stderrTask handler makeStreamArgs]
    | match goal with
      | |- forall _ : unit, _ => intros _
      | |- forall _ : option error, _ => intros [?e |]
      | |- forall _ : error, _ => intros ?e
      | |- _ /\ _ => split
      | |- True => exact I
      | |- noSpawn (handler _) => apply handler_noSpawn
      | |- _ = _ => reflexivity
      end ].
Qed.

Lemma drained_init sm o env capacity :
  drained (stderrTask (Command (StreamManager.encoder sm) (makeStreamArgs o sm)))
    (Sys.init env capacity (ServeTranscode sm o)).
Proof.
  unfold drained. cbn -[ServeTranscode startsTaskOnStart].
  eexists. split; [reflexivity |]. split.
  - apply ServeTranscode_startsTaskOnStart.
  - intros ev [].
Qed.

(** From a state with one thread that is about to start [body], two
    moves of that thread at most lead to a state where [body] is there,
    with nothing gathered yet. *)
Lemma startsTask_play body (m : Thread.t) s :
  Sys.threads s = [m] ->
  startsTask body (Thread.code m) ->
  exists m', Sys.threads (Sys.play [ThreadOf 0; ThreadOf 0] s)
             = [m'; taskThread body []].
Proof.
  intros Ht Hpre.
  assert (Hsecond : forall s1 (m1 : Thread.t),
             Sys.threads s1 = [m1; taskThread body []] ->
             noSpawn (Thread.code m1) ->
             exists m', Sys.threads (Sys.play [ThreadOf 0] s1)
                        = [m'; taskThread body []]).
  { intros s1 m1 Ht1 Hm1. cbn. unfold Sys.threadStep. rewrite Ht1. cbn.
    destruct (Thread.code m1) as [u | X c k | b k]; [eauto | | destruct Hm1].
    destruct (Sys.callStep 0 _ c k s1) as [s2 |] eqn:Hstep; [| eauto].
    destruct (callStep_spec _ _ _ _ _ _ Hstep) as [(th' & -> & _) _].
    rewrite Ht1. cbn. eauto. }
  cbn [Sys.play Sys.step]. unfold Sys.threadStep at 1. rewrite Ht. cbn [lookup list_lookup].
  destruct (Thread.code m) as [u | X c k | b k]; [destruct Hpre | |].
  - destruct c; try destruct Hpre. cbn in Hpre.
    cbn [Sys.callStep World.exec]. unfold Sys.threadStep. cbn. rewrite Ht. cbn.
    destruct (k ()) as [u | X c' k' | b k']; try destruct Hpre. subst b.
    cbn. eauto.
  - destruct Hpre as [-> Hk].
    eapply (Hsecond _ {| Thread.code := k; Thread.acc := [] |}); [| exact Hk].
    cbn. rewrite Ht. reflexivity.
Qed.

Lemma play_reachable sched s0 s :
  Sys.reachable s0 s -> Sys.reachable s0 (Sys.play sched s).
Proof.
  revert s. induction sched as [| a sched IH]; intros s Hs; cbn; [exact Hs |].
  destruct (Sys.step a s) as [s' |] eqn:Hstep; [| apply IH; exact Hs].
  apply IH. eapply Sys.reachable_step; eauto.
Qed.

(** C3: in [getTranscodeStream] the goroutine is started right after the
    encoder, with only the attachment of the command in between, before
    the handler is returned and with nothing read from the encoder's
    standard output. In every state that a request can reach, under any
    order of moves of its threads, of the encoder and of a cancellation:
    while the encoder runs, either the goroutine is there, inside its
    [io.ReadAll(stderr)], or nothing has been read from standard output
    yet and the next two moves of the request's thread start it; and
    when the encoder waits for room in the stderr pipe, the goroutine
    can move, its move empties the pipe, and the encoder can write
    again. *)
Theorem stderr_drained_while_encoder_runs sm o env capacity s :
  (0 < capacity)%nat ->
  Sys.reachable (Sys.init env capacity (ServeTranscode sm o)) s ->
  let cmd := Command (StreamManager.encoder sm) (makeStreamArgs o sm) in
  let task := stderrTask cmd in
  (forall w, startFailure (World.env w) = None ->
             World.run (getTranscodeStream sm o) w
             = (Ok (handler (StreamFormat.MimeType (TranscodeOptions.StreamType o))),
                World.addGoroutine task
                  (World.emit EGo
                     (World.emit EAttachCommand
                        (World.emit (EStart (Cmd.Args cmd))
                           (World.emit EStderrPipe (World.emit EStdoutPipe w)))))))
  /\ (Sys.proc s = NotStarted -> unread s /\ exists m, Sys.threads s = [m])
  /\ (forall todo, Sys.proc s = Running todo ->
        (exists m acc, Sys.threads s = [m; taskThread task acc])
        \/ (unread s
            /\ exists m m',
                Sys.threads s = [m]
                /\ Sys.threads (Sys.play [ThreadOf 0; ThreadOf 0] s)
                   = [m'; taskThread task []]))
  /\ (Sys.stalledOnStderr s ->
      forall m acc, Sys.threads s = [m; taskThread task acc] ->
        exists s1 s2,
          Sys.step (ThreadOf 1) s = Some s1
          /\ Sys.errPipe s1 = []
          /\ Sys.step Encoder s1 = Some s2).
Proof.
  intros Hcap Hreach cmd task.
  destruct (stderrTask_drains cmd) as (k0 & Hbody & Hk0). fold task in Hbody.
  pose proof (drained_reachable task k0 _ s Hbody Hk0
                (drained_init sm o env capacity) Hreach) as Hinv.
  pose proof (reachable_capacity _ _ Hreach) as Hc. cbn in Hc.
  split; [| split; [| split]].
  - intros w Hw. apply getTranscodeStream_started. exact Hw.
  - intros Hp. unfold drained in Hinv. rewrite Hp in Hinv.
    destruct Hinv as (m & Ht & _ & Hun). eauto.
  - intros todo Hp. unfold drained in Hinv. rewrite Hp in Hinv.
    destruct Hinv as [(m & Ht & Hpre & Hun) | (m & acc & Ht & _)]; [right | left; eauto].
    split; [exact Hun |].
    destruct (startsTask_play task m s Ht Hpre) as (m' & Hplay). eauto.
  - intros (p & rest & Hp & Hne & Hfull) m acc Ht.
    assert (Hpipe : Sys.errPipe s <> []).
    { intros Hnil. rewrite Hnil, Hc in Hfull. cbn in Hfull. lia. }
    set (s1 := Sys.withThreads
                 (<[1%nat := {| Thread.code := Vis ReadAllStderr k0;
                               Thread.acc := acc ++ Sys.errPipe s |}]> (Sys.threads s))
                 (Sys.withErrPipe [] s)).
    assert (Hs1 : Sys.step (ThreadOf 1) s = Some s1).
    { cbn [Sys.step]. unfold Sys.threadStep. rewrite Ht.
      cbn [lookup list_lookup taskThread Thread.code Thread.acc].
      rewrite Hbody. cbn [Sys.callStep].
      destruct (Sys.errPipe s) as [| b pipe] eqn:Hpipe'; [contradiction |].
      subst s1. rewrite Ht, ?Hpipe'. reflexivity. }
    assert (Hs2 : exists s2, Sys.step Encoder s1 = Some s2).
    { cbn [Sys.step]. unfold Sys.encoderStep. subst s1. cbn. rewrite Hp.
      destruct p as [| b' p]; [contradiction |].
      unfold Sys.pipeWrite. cbn. rewrite Hc.
      destruct capacity as [| n]; [lia |]. cbn.
      destruct (drop n p); eexists; reflexivity. }
    destruct Hs2 as [s2 Hs2]. exists s1, s2. auto.
Qed.
(** ** What a request that fails answers, and what the builder keeps *)

Lemma warningsLogged_app l1 l2 :
  warningsLogged (l1 ++ l2) = warningsLogged l1 ++ warningsLogged l2.
Proof. apply List.filter_app. Qed.

(** X3: when a pipe of the command cannot be had, the request stops
    there: the encoder is not started, and the error is logged twice, by
    [getTranscodeStream] with the name of the pipe and by
    [ServeTranscode]. When the encoder cannot be started, the error is
    logged once. In each case the command is not attached and no
    goroutine is started. *)
Theorem failure_stops_before_encoder sm o env :
  let w := snd (World.run (ServeTranscode sm o) (World.init env)) in
  let argv := StreamManager.encoder sm :: makeStreamArgs o sm in
  let served e :=
    ELog LevelError "[transcode] error transcoding video file: %v" [Error e] in
  (forall e, Env.stdoutPipe env = Some e ->
     cmdCalls (World.trace w) = [EStdoutPipe]
     /\ errorsLogged (World.trace w)
        = [ELog LevelError "[transcode] ffmpeg stdout not available: %v" [Error e];
           served e])
  /\ (forall e, Env.stdoutPipe env = None -> Env.stderrPipe env = Some e ->
        cmdCalls (World.trace w) = [EStdoutPipe; EStderrPipe]
        /\ errorsLogged (World.trace w)
           = [ELog LevelError "[transcode] ffmpeg stderr not available: %v" [Error e];
              served e])
  /\ (forall e, Env.stdoutPipe env = None -> Env.stderrPipe env = None ->
        Env.start env = Some e ->
        cmdCalls (World.trace w) = [EStdoutPipe; EStderrPipe; EStart argv]
        /\ errorsLogged (World.trace w) = [served e]).
Proof.
  intros w argv served. subst w.
  split; [| split]; intros e.
  - intros H1. unfold ServeTranscode, getTranscodeStream.
    cbn -[makeStreamArgs]. rewrite H1. cbn -[makeStreamArgs].
    unfold World.write. cbn -[makeStreamArgs].
    destruct (Env.client env) as [[n e'] |]; [| split; reflexivity].
    destruct (length _ <=? n)%nat; split; reflexivity.
  - intros H1 H2. unfold ServeTranscode, getTranscodeStream.
    cbn -[makeStreamArgs]. rewrite H1. cbn -[makeStreamArgs].
    rewrite H2. cbn -[makeStreamArgs].
    unfold World.write. cbn -[makeStreamArgs].
    destruct (Env.client env) as [[n e'] |]; [| split; reflexivity].
    destruct (length _ <=? n)%nat; split; reflexivity.
  - intros H1 H2 H3. unfold ServeTranscode, getTranscodeStream.
    cbn -[makeStreamArgs]. rewrite H1. cbn -[makeStreamArgs].
    rewrite H2. cbn -[makeStreamArgs]. rewrite H3. cbn -[makeStreamArgs].
    unfold World.write. cbn -[makeStreamArgs].
    destruct (Env.client env) as [[n e'] |]; [| split; reflexivity].
    destruct (length _ <=? n)%nat; split; reflexivity.
Qed.

(** The response and the warnings of a request that does not get its
    handler, from the world in which [ServeTranscode] answers. *)
Lemma failed_answer e w :
  World.resp w = Response.fresh ->
  warningsLogged (World.trace w) = [] ->
  let text := list_byte_of_string (Error e) in
  let w2 :=
    World.onResp (Response.WriteHeader StatusBadRequest)
      (World.emit (EWriteHeader StatusBadRequest)
         (World.emit
            (ELog LevelError "[transcode] error transcoding video file: %v" [Error e])
            w)) in
  let w' :=
    snd (let '(werr, w3) := World.write text w2 in
         (tt,
          match werr with
          | Some e' =>
              World.emit
                (ELog LevelWarn "[transcode] error writing response: %v" [Error e']) w3
          | None => w3
          end)) in
  Response.status (World.resp w') = Some StatusBadRequest
  /\ Response.sent (World.resp w') = ∅
  /\ match World.credit w with
     | None =>
         Response.body (World.resp w') = text
         /\ warningsLogged (World.trace w') = []
     | Some (n, e') =>
         Response.body (World.resp w') = take n text
         /\ warningsLogged (World.trace w')
            = if (n <? length text)%nat
              then [ELog LevelWarn "[transcode] error writing response: %v" [Error e']]
              else []
     end.
Proof.
  intros Hresp Hwarn text w2 w'. subst w' w2. unfold World.write.
  cbn [World.credit World.emit World.onResp].
  destruct (World.credit w) as [[n e'] |].
  - destruct (Nat.leb_spec (length text) n) as [Hle | Hlt];
      destruct (Nat.ltb_spec n (length text)); try lia;
      cbn; rewrite Hresp; cbn; rewrite !warningsLogged_app, Hwarn; cbn;
      rewrite ?take_ge by lia; auto.
  - cbn. rewrite Hresp. cbn. rewrite !warningsLogged_app, Hwarn. auto.
Qed.

(** X4: a request that does not get its handler answers with status
    400 and no header of its own. The body is the text of the error, as
    far as the client takes it; when the client does not take all of it,
    the failed write is logged as a warning, and in no other case is
    there a warning. *)
Theorem error_text_write_failure_warned sm o env e :
  startFailure env = Some e ->
  let w := snd (World.run (ServeTranscode sm o) (World.init env)) in
  let text := list_byte_of_string (Error e) in
  Response.status (World.resp w) = Some StatusBadRequest
  /\ Response.sent (World.resp w) = ∅
  /\ match Env.client env with
     | None =>
         Response.body (World.resp w) = text
         /\ warningsLogged (World.trace w) = []
     | Some (n, e') =>
         Response.body (World.resp w) = take n text
         /\ warningsLogged (World.trace w)
            = if (n <? length text)%nat
              then [ELog LevelWarn "[transcode] error writing response: %v" [Error e']]
              else []
     end.
Proof.
  intros H w text. subst w. rewrite ServeTranscode_run.
  unfold startFailure in H. unfold getTranscodeStream.
  cbn -[makeStreamArgs World.write].
  destruct (Env.stdoutPipe env) as [e1 |] eqn:H1.
  - injection H as ->. cbn -[makeStreamArgs World.write].
    match goal with
      | |- context [World.emit
                      (ELog LevelError "[transcode] error transcoding video file: %v" _)
                      ?w0] =>
          exact (failed_answer e w0 eq_refl eq_refl)
      end.
  - cbn -[makeStreamArgs World.write].
    destruct (Env.stderrPipe env) as [e2 |] eqn:H2.
    + injection H as ->. cbn -[makeStreamArgs World.write].
      match goal with
      | |- context [World.emit
                      (ELog LevelError "[transcode] error transcoding video file: %v" _)
                      ?w0] =>
          exact (failed_answer e w0 eq_refl eq_refl)
      end.
    + cbn -[makeStreamArgs World.write]. rewrite H.
      cbn -[makeStreamArgs World.write].
      match goal with
      | |- context [World.emit
                      (ELog LevelError "[transcode] error transcoding video file: %v" _)
                      ?w0] =>
          exact (failed_answer e w0 eq_refl eq_refl)
      end.
Qed.

(** ** The maximum that applies, and the audio that is kept *)

(** X5: a resolution asked for by the request replaces the configured
    maximum: with one, the arguments are the same whatever maximum is
    configured; without one, they are those of the same request asking
    for the configured maximum by name. *)
Theorem resolution_override o sm :
  (TranscodeOptions.Resolution o <> "" ->
   forall name, makeStreamArgs o (withMaxSize name sm) = makeStreamArgs o sm)
  /\ (TranscodeOptions.Resolution o = "" ->
      makeStreamArgs o sm
      = makeStreamArgs
          (withResolution
             (StreamManagerConfig.GetMaxStreamingTranscodeSize (StreamManager.config sm))
             o)
          sm).
Proof.
  split.
  - intros H name. rewrite !makeStreamArgs_parts.
    unfold formatArgs, videoFilter, maxTranscodeSize, extraInputArgs, extraOutputArgs.
    destruct (String.eqb_spec (TranscodeOptions.Resolution o) ""); [contradiction |].
    reflexivity.
  - intros H. rewrite !makeStreamArgs_parts.
    unfold formatArgs, videoFilter, maxTranscodeSize, seekArgs, inputArgs, videoOnly.
    cbn [withResolution TranscodeOptions.Resolution TranscodeOptions.StreamType
         TranscodeOptions.VideoFile TranscodeOptions.StartTime].
    rewrite H.
    destruct (String.eqb_spec
                (StreamManagerConfig.GetMaxStreamingTranscodeSize (StreamManager.config sm))
                "") as [-> |]; reflexivity.
Qed.

Lemma StreamTypeMP4_not_MKV : StreamTypeMP4 <> StreamTypeMKV.
Proof. intros H. apply (f_equal StreamFormat.MimeType) in H. discriminate. Qed.

Lemma StreamTypeWEBM_not_MKV : StreamTypeWEBM <> StreamTypeMKV.
Proof. intros H. apply (f_equal StreamFormat.MimeType) in H. discriminate. Qed.

(** X6: for a source whose audio the probe supports, each format keeps
    the audio and mixes it down to two channels: its arguments hold no
    [-an] and end with [-ac 2] and the container. MKV alone names an
    audio codec, Opus at 96k with a variable bit rate; MP4 and WebM leave
    the codec to the encoder. *)
Theorem audio_kept_as_stereo o sm :
  declaredFormat (TranscodeOptions.StreamType o) ->
  ProbeAudioCodec (VideoFile.AudioCodec (TranscodeOptions.VideoFile o))
  <> MissingUnsupported ->
  let fmt := formatArgs o sm in
  makeStreamArgs o sm
  = globalArgs ++ extraInputArgs sm ++ seekArgs o ++ inputArgs o
      ++ fmt ++ extraOutputArgs sm ++ ["pipe:"]
  /\ ~ In "-an" fmt
  /\ (exists pre container, fmt = pre ++ ["-ac"; "2"; "-f"; container])
  /\ (In "-c:a" fmt <-> TranscodeOptions.StreamType o = StreamTypeMKV)
  /\ (TranscodeOptions.StreamType o = StreamTypeMKV ->
      fmt = ["-c:v"; "copy"; "-c:a"; "libopus"; "-b:a"; "96k"; "-vbr"; "on";
             "-ac"; "2"; "-f"; "matroska"]).
Proof.
  intros HF Haudio fmt.
  assert (Hvo : videoOnly o = false).
  { unfold videoOnly. apply String.eqb_neq. exact Haudio. }
  assert (Hvf : forall x, In x (VideoFilter.Args (videoFilter o sm)) ->
                          x <> "-an" /\ x <> "-c:a").
  { intros x Hx. apply VideoFilter_Args_videoFilter in Hx.
    destruct Hx as [-> | [s ->]]; split; discriminate. }
  split; [apply makeStreamArgs_parts |].
  subst fmt. unfold formatArgs. rewrite Hvo.
  destruct HF as [HF | [HF | HF]]; rewrite HF.
  - rewrite StreamTypeMP4_Args.
    split; [| split; [| split; [| intros H; exfalso; exact (StreamTypeMP4_not_MKV H)]]].
    + rewrite !in_app_iff. intros [H | [H | [H | H]]].
      * apply not_mem_In in H; [exact H | reflexivity].
      * apply Hvf in H. destruct H as [H _]. congruence.
      * apply not_mem_In in H; [exact H | reflexivity].
      * apply not_mem_In in H; [exact H | reflexivity].
    + exists (["-c:v"; "libx264"; "-movflags"; "frag_keyframe+empty_moov";
               "-pix_fmt"; "yuv420p"; "-preset"; "veryfast"; "-crf"; "25"]
              ++ VideoFilter.Args (videoFilter o sm)), "mp4".
      rewrite <- app_assoc. reflexivity.
    + split; [| intros H; exfalso; exact (StreamTypeMP4_not_MKV H)].
      rewrite !in_app_iff. intros [H | [H | [H | H]]]; exfalso.
      * apply not_mem_In in H; [exact H | reflexivity].
      * apply Hvf in H. destruct H as [_ H]. congruence.
      * apply not_mem_In in H; [exact H | reflexivity].
      * apply not_mem_In in H; [exact H | reflexivity].
  - rewrite StreamTypeWEBM_Args.
    split; [| split; [| split; [| intros H; exfalso; exact (StreamTypeWEBM_not_MKV H)]]].
    + rewrite !in_app_iff. intros [H | [H | [H | H]]].
      * apply not_mem_In in H; [exact H | reflexivity].
      * apply Hvf in H. destruct H as [H _]. congruence.
      * apply not_mem_In in H; [exact H | reflexivity].
      * apply not_mem_In in H; [exact H | reflexivity].
    + exists (["-c:v"; "libvpx-vp9"; "-pix_fmt"; "yuv420p"; "-deadline"; "realtime";
               "-cpu-used"; "5"; "-row-mt"; "1"; "-crf"; "30"; "-b:v"; "0"]
              ++ VideoFilter.Args (videoFilter o sm)), "webm".
      rewrite <- app_assoc. reflexivity.
    + split; [| intros H; exfalso; exact (StreamTypeWEBM_not_MKV H)].
      rewrite !in_app_iff. intros [H | [H | [H | H]]]; exfalso.
      * apply not_mem_In in H; [exact H | reflexivity].
      * apply Hvf in H. destruct H as [_ H]. congruence.
      * apply not_mem_In in H; [exact H | reflexivity].
      * apply not_mem_In in H; [exact H | reflexivity].
  - rewrite StreamTypeMKV_Args. cbn [app].
    split; [| split; [| split; [| reflexivity]]].
    + apply not_mem_In. reflexivity.
    + exists ["-c:v"; "copy"; "-c:a"; "libopus"; "-b:a"; "96k"; "-vbr"; "on"], "matroska".
      reflexivity.
    + split; [reflexivity |]. intros _. apply mem_In. reflexivity.
Qed.
(** ** The body of the response, in every order of moves *)

Lemma keeps_quiet_call ph {X : Type} (c : Call X) k :
  touchesResponse c = false ->
  keeps ph (Vis c k) -> forall x, keeps ph (k x).
Proof. destruct c; cbn; intros Hc H; try discriminate; exact H. Qed.

(** A call that leaves the response alone changes nothing of it, nor of
    the pipe of the encoder's output; it starts the encoder at most. *)
Lemma callStep_quiet i a {X : Type} (c : Call X) k s s' :
  touchesResponse c = false ->
  Sys.callStep i a c k s = Some s' ->
  World.resp (Sys.world s') = World.resp (Sys.world s)
  /\ World.credit (Sys.world s') = World.credit (Sys.world s)
  /\ World.env (Sys.world s') = World.env (Sys.world s)
  /\ Sys.outPipe s' = Sys.outPipe s
  /\ (Sys.proc s' = Sys.proc s
      \/ (Sys.proc s = NotStarted
          /\ Sys.proc s' = Running (Env.script (World.env (Sys.world s)))))
  /\ exists th',
       Sys.threads s' = <[i := th']> (Sys.threads s)
       /\ (Thread.code th' = Vis c k \/ exists x, Thread.code th' = k x).
Proof.
  intros Hc H.
  destruct c; try discriminate Hc; cbn in H;
    repeat case_match; simplify_eq; cbn;
    (repeat split; [auto .. |]); eexists; (split; [reflexivity |]); cbn; eauto.
Qed.

Lemma inPhase_same ph w w' done :
  Response.status (World.resp w') = Response.status (World.resp w) ->
  Response.body (World.resp w') = Response.body (World.resp w) ->
  World.credit w' = World.credit w ->
  inPhase ph w done -> inPhase ph w' done.
Proof.
  intros Hs Hb Hc. unfold inPhase, delivered. rewrite Hs, Hb, Hc. auto.
Qed.

(** A move that leaves the response and the pipe of the encoder's output
    alone, and starts the encoder at most. *)
Lemma intact_quiet_move env s s' :
  intact env s ->
  Response.status (World.resp (Sys.world s'))
  = Response.status (World.resp (Sys.world s)) ->
  Response.body (World.resp (Sys.world s'))
  = Response.body (World.resp (Sys.world s)) ->
  World.credit (Sys.world s') = World.credit (Sys.world s) ->
  World.env (Sys.world s') = World.env (Sys.world s) ->
  Sys.outPipe s' = Sys.outPipe s ->
  (Sys.proc s' = Sys.proc s
   \/ (Sys.proc s = NotStarted
       /\ Sys.proc s' = Running (Env.script (World.env (Sys.world s))))) ->
  (forall ph m rest,
      Sys.threads s = m :: rest ->
      keeps ph (Thread.code m) ->
      Forall (fun t => quiet (Thread.code t)) rest ->
      exists m' rest',
        Sys.threads s' = m' :: rest'
        /\ keeps ph (Thread.code m')
        /\ Forall (fun t => quiet (Thread.code t)) rest') ->
  intact env s'.
Proof.
  intros (Henv & Hcr & ph & m & rest & done & tail & Hth & Hk & Hq & Hsum & Hns & Hrun & Hph)
         Hst Hbody Hcredit Henv' Hpipe Hproc Hthreads.
  destruct (Hthreads ph m rest Hth Hk Hq) as (m' & rest' & Hth' & Hk' & Hq').
  split; [congruence |]. split; [intros Hc; rewrite Hcredit; auto |].
  exists ph, m', rest', done, tail.
  split; [exact Hth' |]. split; [exact Hk' |]. split; [exact Hq' |].
  rewrite Hpipe. split; [exact Hsum |].
  split; [| split].
  - intros Hn. destruct Hproc as [Hp | [_ Hp]]; [apply Hns; congruence | congruence].
  - intros todo Ht. destruct Hproc as [Hp | [Hp0 Hp]].
    + apply Hrun. congruence.
    + destruct (Hns Hp0) as [-> Hout]. rewrite Hout in Hsum. cbn in Hsum.
      rewrite Hp in Ht. injection Ht as <-. rewrite Henv. exact Hsum.
  - apply (inPhase_same ph (Sys.world s)); assumption.
Qed.

(** A write of a chunk taken from the pipe, on a response with its status
    sent. *)
Lemma write_delivered p w done c :
  p <> [] ->
  Response.status (World.resp w) = Some c ->
  delivered w done ->
  delivered (snd (World.write p w)) (done ++ p)
  /\ Response.status (World.resp (snd (World.write p w))) = Some c
  /\ World.env (snd (World.write p w)) = World.env w
  /\ (World.credit w = None -> World.credit (snd (World.write p w)) = None).
Proof.
  intros Hp Hst Hd. unfold World.write, delivered in *.
  cbn [World.credit World.emit].
  destruct (World.credit w) as [[n e] |] eqn:Hcr.
  - destruct (Nat.leb_spec (length p) n) as [Hle | Hlt];
      cbn [snd World.resp World.onResp World.setCredit World.emit World.credit World.env].
    + destruct (Response_Write_committed p (World.resp w) c Hst) as (Hs & _ & _ & Hb).
      split; [| split; [exact Hs | split; [reflexivity | discriminate]]].
      destruct Hd as [Hd | [[e0 He0] _]].
      * left. rewrite Hb, Hd. reflexivity.
      * injection He0 as -> ->. destruct p; [congruence | cbn in Hle; lia].
    + destruct (Response_Write_committed (take n p) (World.resp w) c Hst)
        as (Hs & _ & _ & Hb).
      split; [| split; [exact Hs | split; [reflexivity | discriminate]]].
      right. split; [exists e; reflexivity |]. rewrite Hb.
      destruct Hd as [Hd | [[e0 He0] [l Hl]]].
      * exists (drop n p). rewrite Hd, <- app_assoc, take_drop. reflexivity.
      * injection He0 as -> ->. rewrite take_0, app_nil_r.
        exists (l ++ p). rewrite Hl, <- app_assoc. reflexivity.
  - cbn [snd World.resp World.onResp World.setCredit World.emit World.credit World.env].
    destruct (Response_Write_committed p (World.resp w) c Hst) as (Hs & _ & _ & Hb).
    split; [| split; [exact Hs | split; [reflexivity | auto]]].
    destruct Hd as [Hd | [[e0 He0] _]]; [| discriminate].
    left. rewrite Hb, Hd. reflexivity.
Qed.

(** A move of the first thread on the response. *)
Lemma intact_response_call env {X : Type} (c : Call X) k s s' m rest :
  touchesResponse c = true ->
  Sys.threads s = m :: rest ->
  Thread.code m = Vis c k ->
  Sys.callStep 0 (Thread.acc m) c k s = Some s' ->
  intact env s -> intact env s'.
Proof.
  intros Hc Hth Hcode Hstep
         (Henv & Hcr & ph & m0 & rest0 & done & tail & Hth0 & Hk & Hq & Hsum & Hns & Hrun & Hph).
  rewrite Hth in Hth0. injection Hth0 as <- <-. rewrite Hcode in Hk.
  destruct c; try discriminate Hc; cbn in Hstep.
  - (* HeaderSet *)
    injection Hstep as <-.
    split; [exact Henv |]. split; [exact Hcr |].
    exists ph, {| Thread.code := k tt; Thread.acc := [] |}, rest, done, tail.
    split_and!; cbn; rewrite ?Hth; auto.
  - (* WriteHeader *)
    injection Hstep as <-.
    split; [exact Henv |]. split; [exact Hcr |].
    destruct ph; cbn in Hk.
    + destruct Hph as (Hst & Hb & Hd).
      destruct Hk as [[-> Hk] | [-> Hk]].
      * exists Streaming, {| Thread.code := k tt; Thread.acc := [] |}, rest, done, tail.
        split_and!; cbn; rewrite ?Hth; auto.
        split.
        -- unfold Response.WriteHeader. rewrite Hst. reflexivity.
        -- left. cbn. unfold Response.WriteHeader. rewrite Hst. cbn. congruence.
      * exists Failed, {| Thread.code := k tt; Thread.acc := [] |}, rest, done, tail.
        split_and!; cbn; rewrite ?Hth; auto.
        split; [| exact Hd].
        unfold Response.WriteHeader. rewrite Hst. reflexivity.
    + destruct Hph as (Hst & Hd).
      exists Streaming, {| Thread.code := k tt; Thread.acc := [] |}, rest, done, tail.
      split_and!; cbn; rewrite ?Hth; auto.
      split.
      * rewrite (Response_WriteHeader_committed _ _ _ Hst). exact Hst.
      * unfold delivered. cbn.
        rewrite (Response_WriteHeader_committed _ _ _ Hst). exact Hd.
    + destruct Hph as (Hst & Hd).
      exists Failed, {| Thread.code := k tt; Thread.acc := [] |}, rest, done, tail.
      split_and!; cbn; rewrite ?Hth; auto.
      split; [| exact Hd].
      rewrite (Response_WriteHeader_committed _ _ _ Hst). exact Hst.
  - (* Write *)
    destruct Hk as [-> Hk]. destruct Hph as (Hst & Hd).
    destruct (World.write p (Sys.world s)) as [x w] eqn:Hw.
    injection Hstep as <-.
    pose proof (write_frame p (Sys.world s)) as (Hwe & _ & _ & _).
    pose proof (write_resp p (Sys.world s)) as (n & _ & Hwr & _).
    rewrite Hw in Hwe, Hwr. cbn [snd] in Hwe, Hwr.
    split; [cbn; congruence |].
    split.
    { intros Hcl. cbn. specialize (Hcr Hcl).
      unfold World.write in Hw. cbn [World.credit World.emit] in Hw.
      rewrite Hcr in Hw. injection Hw as <- <-. exact Hcr. }
    exists Failed, {| Thread.code := k x; Thread.acc := [] |}, rest, done, tail.
    split_and!; cbn; rewrite ?Hth; auto.
    split; [| exact Hd].
    rewrite Hwr. apply (Response_Write_committed _ _ _ Hst).
  - (* CopyStdout *)
    destruct Hk as [-> Hk]. destruct Hph as (Hst & Hd).
    destruct (Sys.closed s).
    { injection Hstep as <-.
      split; [exact Henv |]. split; [exact Hcr |].
      exists Streaming, {| Thread.code := k (Some ErrClosed); Thread.acc := [] |},
             rest, done, tail.
      split_and!; cbn; rewrite ?Hth; auto. }
    destruct (Sys.outPipe s) as [| b pipe] eqn:Hpipe.
    { destruct (Sys.proc s) eqn:Hproc; try discriminate Hstep.
      injection Hstep as <-.
      split; [exact Henv |]. split; [exact Hcr |].
      exists Streaming,
             {| Thread.code := k (Env.stdoutEnd (World.env (Sys.world s)));
                Thread.acc := [] |},
             rest, done, tail.
      split_and!; cbn; rewrite ?Hth, ?Hpipe, ?Hproc; auto; discriminate. }
    set (w0 := World.emit (EReadStdout (b :: pipe)) (Sys.world s)) in Hstep.
    assert (Hst0 : Response.status (World.resp w0) = Some StatusOK) by exact Hst.
    assert (Hd0 : delivered w0 done) by exact Hd.
    destruct (write_delivered (b :: pipe) w0 done _ ltac:(discriminate) Hst0 Hd0)
      as (Hd' & Hst' & Henv' & Hcr').
    destruct (World.write (b :: pipe) w0) as [ew w] eqn:Hw. cbn [snd] in *.
    assert (Hproc : Sys.proc s <> NotStarted).
    { intros Hn. destruct (Hns Hn) as [_ Hout]. discriminate Hout. }
    assert (Hsum' : (done ++ b :: pipe) ++ [] ++ tail
                    = concat (stdoutOf (Env.script env))).
    { rewrite <- Hsum. cbn. rewrite <- app_assoc. reflexivity. }
    destruct ew as [e |]; injection Hstep as <-.
    + split; [cbn; rewrite Henv'; exact Henv |].
      split; [intros Hcl; cbn; apply Hcr', Hcr, Hcl |].
      exists Streaming, {| Thread.code := k (Some e); Thread.acc := [] |},
             rest, (done ++ b :: pipe), tail.
      split_and!; cbn; rewrite ?Hth; auto; intros Hn; contradiction.
    + split; [cbn; rewrite Henv'; exact Henv |].
      split; [intros Hcl; cbn; apply Hcr', Hcr, Hcl |].
      exists Streaming, {| Thread.code := Vis CopyStdout k; Thread.acc := [] |},
             rest, (done ++ b :: pipe), tail.
      split_and!; cbn; rewrite ?Hth; auto; intros Hn; contradiction.
  - (* Flush *)
    destruct Hk as [Hfresh Hk]. injection Hstep as <-.
    split; [exact Henv |]. split; [exact Hcr |].
    exists ph, {| Thread.code := k tt; Thread.acc := [] |}, rest, done, tail.
    split_and!; cbn; rewrite ?Hth; auto.
    destruct ph; [contradiction | |]; destruct Hph as (Hst & Hd); split; auto;
      unfold delivered, Response.Flush; cbn;
      rewrite (Response_WriteHeader_committed _ _ _ Hst); auto.
Qed.

Lemma intact_threadStep env i s s' :
  Sys.threadStep i s = Some s' -> intact env s -> intact env s'.
Proof.
  intros Hstep Hint. unfold Sys.threadStep in Hstep.
  destruct (Sys.threads s !! i) as [th |] eqn:Hi; [| discriminate].
  destruct (Thread.code th) as [[] | X c k | body k] eqn:Hcode; [discriminate | |].
  - (* a call *)
    destruct (touchesResponse c) eqn:Hc.
    + destruct Hint as (Henv & Hcr & ph & m & rest & Hrest).
      destruct Hrest as (done & tail & Hth & Hk & Hq & Hrest).
      destruct i as [| j].
      * rewrite Hth in Hi. injection Hi as ->.
        apply (intact_response_call env c k s s' th rest Hc Hth Hcode Hstep).
        split; [exact Henv |]. split; [exact Hcr |].
        exists ph, th, rest, done, tail. auto.
      * exfalso. rewrite Hth in Hi. cbn in Hi.
        pose proof (proj1 (Forall_lookup _ _) Hq j th Hi) as Hqt.
        cbn in Hqt. rewrite Hcode in Hqt. destruct Hqt as [Hqc _]. congruence.
    + destruct (callStep_quiet i (Thread.acc th) c k s s' Hc Hstep)
        as (Hr & Hcredit & He & Hp & Hproc & th' & Hth' & Hcode').
      apply (intact_quiet_move env s s' Hint); try congruence.
      intros ph m rest Hth Hk Hq. rewrite Hth in Hth', Hi.
      destruct i as [| j].
      * injection Hi as ->. exists th', rest. split; [exact Hth' |].
        split; [| exact Hq]. rewrite Hcode in Hk.
        destruct Hcode' as [-> | [x ->]]; [exact Hk |].
        apply (keeps_quiet_call ph c k Hc Hk).
      * cbn in Hi. exists m, (<[j := th']> rest). split; [exact Hth' |].
        split; [exact Hk |]. apply Forall_insert; [exact Hq |].
        pose proof (proj1 (Forall_lookup _ _) Hq j th Hi) as Hqt.
        cbn in Hqt. rewrite Hcode in Hqt.
        destruct Hcode' as [-> | [x ->]]; [exact Hqt | apply Hqt].
  - (* a goroutine is started *)
    injection Hstep as <-.
    apply (intact_quiet_move env s _ Hint); try reflexivity; [left; reflexivity |].
    intros ph m rest Hth Hk Hq. cbn. rewrite Hth. rewrite Hth in Hi.
    destruct i as [| j].
    + injection Hi as ->. rewrite Hcode in Hk. destruct Hk as [Hqb Hk].
      exists {| Thread.code := k; Thread.acc := [] |},
             (rest ++ [ {| Thread.code := body; Thread.acc := [] |} ]).
      split; [reflexivity |]. split; [exact Hk |].
      apply Forall_app. split; [exact Hq |]. constructor; [exact Hqb | constructor].
    + cbn in Hi.
      pose proof (proj1 (Forall_lookup _ _) Hq j th Hi) as Hqt.
      cbn in Hqt. rewrite Hcode in Hqt. destruct Hqt as [Hqb Hqk].
      exists m, (<[j := {| Thread.code := k; Thread.acc := [] |}]> rest
                 ++ [ {| Thread.code := body; Thread.acc := [] |} ]).
      split; [reflexivity |]. split; [exact Hk |].
      apply Forall_app. split; [| constructor; [exact Hqb | constructor]].
      apply Forall_insert; [exact Hq | exact Hqk].
Qed.

Lemma pipeWrite_spec capacity pipe p pipe' p' :
  Sys.pipeWrite capacity pipe p = Some (pipe', p') ->
  pipe' ++ p' = pipe ++ p.
Proof.
  unfold Sys.pipeWrite. destruct (capacity - length pipe)%nat as [| n]; [discriminate |].
  intros H. injection H as <- <-. rewrite <- app_assoc, take_drop. reflexivity.
Qed.

Lemma encoderStep_world s s' :
  Sys.encoderStep s = Some s' ->
  Sys.world s' = Sys.world s /\ Sys.threads s' = Sys.threads s.
Proof.
  unfold Sys.encoderStep. intros H.
  repeat case_match; simplify_eq; cbn; auto.
Qed.

Lemma intact_encoderStep env s s' :
  Sys.encoderStep s = Some s' -> intact env s -> intact env s'.
Proof.
  intros Hstep
         (Henv & Hcr & ph & m & rest & done & tail & Hth & Hk & Hq & Hsum & Hns & Hrun & Hph).
  unfold Sys.encoderStep in Hstep.
  destruct (Sys.proc s) as [| todo | err] eqn:Hproc; try discriminate.
  specialize (Hrun todo eq_refl). subst tail.
  assert (Hworld : Sys.world s' = Sys.world s).
  { apply encoderStep_world. unfold Sys.encoderStep. rewrite Hproc. exact Hstep. }
  split; [rewrite Hworld; exact Henv |].
  split; [rewrite Hworld; exact Hcr |].
  destruct todo as [| [p | p] todo].
  - injection Hstep as <-.
    exists ph, m, rest, done, []. split_and!; cbn; auto; discriminate.
  - destruct p as [| b p].
    + injection Hstep as <-.
      exists ph, m, rest, done, (concat (stdoutOf todo)).
      split_and!; cbn; auto; try discriminate. intros ? [= <-]. reflexivity.
    + destruct (Sys.pipeWrite (Sys.capacity s) (Sys.outPipe s) (b :: p))
        as [[pipe p'] |] eqn:Hw; [| discriminate].
      apply pipeWrite_spec in Hw.
      assert (Hsum' : done ++ pipe ++ p' ++ concat (stdoutOf todo)
                      = concat (stdoutOf (Env.script env))).
      { rewrite <- Hsum. cbn [stdoutOf concat]. f_equal.
        rewrite !app_assoc. f_equal. exact Hw. }
      destruct p' as [| b' p']; injection Hstep as <-.
      * exists ph, m, rest, done, (concat (stdoutOf todo)).
        split_and!; cbn; auto; try discriminate. intros ? [= <-]. reflexivity.
      * exists ph, m, rest, done, ((b' :: p') ++ concat (stdoutOf todo)).
        split_and!; cbn; auto; try discriminate. intros ? [= <-]. reflexivity.
  - destruct p as [| b p].
    + injection Hstep as <-.
      exists ph, m, rest, done, (concat (stdoutOf todo)).
      split_and!; cbn; auto; try discriminate. intros ? [= <-]. reflexivity.
    + destruct (Sys.pipeWrite (Sys.capacity s) (Sys.errPipe s) (b :: p))
        as [[pipe p'] |] eqn:Hw; [| discriminate].
      destruct p' as [| b' p']; injection Hstep as <-.
      * exists ph, m, rest, done, (concat (stdoutOf todo)).
        split_and!; cbn; auto; try discriminate. intros ? [= <-]. reflexivity.
      * exists ph, m, rest, done, (concat (stdoutOf todo)).
        split_and!; cbn; auto; try discriminate. intros ? [= <-]. reflexivity.
Qed.

Lemma intact_cancelStep env s s' :
  Sys.cancelStep s = Some s' -> intact env s -> intact env s'.
Proof.
  intros Hstep
         (Henv & Hcr & ph & m & rest & done & tail & Hth & Hk & Hq & Hsum & Hns & Hrun & Hph).
  unfold Sys.cancelStep in Hstep.
  destruct (Sys.proc s) as [| todo | err] eqn:Hproc; try discriminate.
  injection Hstep as <-.
  split; [exact Henv |]. split; [exact Hcr |].
  exists ph, m, rest, done, tail. split_and!; cbn; auto; discriminate.
Qed.

Lemma intact_reachable env s0 s :
  intact env s0 -> Sys.reachable s0 s -> intact env s.
Proof.
  intros H0 Hr. induction Hr as [| s a s' _ IH Hstep]; [exact H0 |].
  destruct a as [i | |]; cbn in Hstep.
  - exact (intact_threadStep env i s s' Hstep IH).
  - exact (intact_encoderStep env s s' Hstep IH).
  - exact (intact_cancelStep env s s' Hstep IH).
Qed.

Lemma stderrTask_quiet cmd : quiet (stderrTask cmd).
Proof.
  unfold stderrTask. cbn. split; [reflexivity |]. intros errStr.
  split; [reflexivity |]. intros errCmd.
  destruct (negb _); [| destruct errCmd as [x |]];
    try destruct (negb (errors_As_ExitError _)); cbn; auto.
Qed.

Lemma handler_keeps mimeType : keeps Fresh (handler mimeType).
Proof.
  unfold handler. cbn. intros _. left. split; [reflexivity |].
  split; [reflexivity |]. intros [e |]; [destruct (negb (errors_Is e EPIPE)) |];
    cbn; repeat split; auto; discriminate.
Qed.

Lemma ServeTranscode_keeps sm o : keeps Fresh (ServeTranscode sm o).
Proof.
  unfold ServeTranscode, getTranscodeStream. cbn -[makeStreamArgs handler stderrTask].
  intros _ [e1 |]; cbn -[makeStreamArgs handler stderrTask].
  { intros _ _. right. split; [reflexivity |]. split; [reflexivity |].
    intros [e' |]; cbn; auto. }
  intros [e2 |]; cbn -[makeStreamArgs handler stderrTask].
  { intros _ _. right. split; [reflexivity |]. split; [reflexivity |].
    intros [e' |]; cbn; auto. }
  intros [e3 |]; cbn -[makeStreamArgs handler stderrTask].
  { intros _. right. split; [reflexivity |]. split; [reflexivity |].
    intros [e' |]; cbn; auto. }
  intros _. split; [apply stderrTask_quiet | apply handler_keeps].
Qed.

Lemma intact_init sm o env capacity :
  intact env (Sys.init env capacity (ServeTranscode sm o)).
Proof.
  split; [reflexivity |]. split; [intros H; exact H |].
  exists Fresh, {| Thread.code := ServeTranscode sm o; Thread.acc := [] |}, [], [],
         (concat (stdoutOf (Env.script env))).
  split_and!; cbn -[ServeTranscode]; auto.
  - apply ServeTranscode_keeps.
  - discriminate.
Qed.

(** X7: in every order in which the threads of a request, the encoder
    and a cancellation can move, the status of the response is 200 or
    400 once there is one; nothing is in the body before the status;
    under status 200 the body is a prefix of what the encoder writes on
    its standard output. With a client that takes everything, and no
    status 400, every byte of that output is at each moment of the
    encoder's run in the body, in the pipe, or still to be written, in
    its order. *)
Theorem body_is_encoder_output sm o env capacity s :
  Sys.reachable (Sys.init env capacity (ServeTranscode sm o)) s ->
  let r := World.resp (Sys.world s) in
  let output := concat (stdoutOf (Env.script env)) in
  (Response.status r = None \/ Response.status r = Some StatusOK
   \/ Response.status r = Some StatusBadRequest)
  /\ (Response.status r = None -> Response.body r = [])
  /\ (Response.status r = Some StatusOK -> Response.body r `prefix_of` output)
  /\ (Env.client env = None ->
      Response.status r <> Some StatusBadRequest ->
      forall todo, Sys.proc s = Running todo ->
        Response.body r ++ Sys.outPipe s ++ concat (stdoutOf todo) = output).
Proof.
  intros Hr r output.
  destruct (intact_reachable env _ s (intact_init sm o env capacity) Hr)
    as (Henv & Hcr & ph & m & rest & done & tail & Hth & Hk & Hq & Hsum & Hns & Hrun & Hph).
  subst r output. destruct ph; cbn in Hph.
  - destruct Hph as (Hst & Hb & ->). rewrite Hst, Hb.
    split; [auto |]. split; [auto |]. split; [discriminate |].
    intros _ _ todo Ht. rewrite <- (Hrun todo Ht). exact Hsum.
  - destruct Hph as (Hst & Hd). rewrite Hst.
    split; [auto |]. split; [discriminate |]. split.
    + intros _. destruct Hd as [-> | [_ [l ->]]].
      * exists (Sys.outPipe s ++ tail). symmetry. exact Hsum.
      * exists (l ++ Sys.outPipe s ++ tail). rewrite <- Hsum, <- !app_assoc. reflexivity.
    + intros Hcl _ todo Ht. rewrite <- (Hrun todo Ht).
      destruct Hd as [-> | [[e He] _]]; [exact Hsum |].
      rewrite (Hcr Hcl) in He. discriminate.
  - destruct Hph as (Hst & ->). rewrite Hst.
    split; [auto |]. split; [discriminate |]. split; [discriminate |].
    intros _ H. contradiction.
Qed.

(** ** A request played to its end, turn by turn *)

Lemma play_app sched1 sched2 s :
  Sys.play (sched1 ++ sched2) s = Sys.play sched2 (Sys.play sched1 s).
Proof.
  revert s. induction sched1 as [| a sched1 IH]; intros s; [reflexivity |].
  cbn. destruct (Sys.step a s); apply IH.
Qed.

Lemma turns_add n m : turns (n + m) = turns n ++ turns m.
Proof.
  induction n as [| n IH]; [reflexivity |].
  cbn [turns Nat.add]. rewrite IH, <- app_assoc. reflexivity.
Qed.

Lemma handler_afterCopy mimeType :
  handler mimeType
  = Vis (HeaderSet "Content-Type" mimeType)
      (fun _ => Vis (WriteHeader StatusOK) (fun _ => Vis CopyStdout afterCopy)).
Proof. reflexivity. Qed.

(** After its first eight moves the request is in its stream, with
    nothing delivered yet. *)
Lemma boot_midStream sm o env capacity :
  startFailure env = None ->
  Env.client env = None ->
  midStream env (Command (StreamManager.encoder sm) (makeStreamArgs o sm)) [] []
    (Env.script env)
    (Sys.play boot (Sys.init env capacity (ServeTranscode sm o))).
Proof.
  intros Hstart Hclient.
  destruct env as [so se st script sEnd wait client].
  unfold startFailure in Hstart. cbn in Hstart, Hclient.
  destruct so; [discriminate |]. destruct se; [discriminate |]. subst st client.
  unfold midStream. cbn -[makeStreamArgs stderrTask].
  split_and!; reflexivity.
Qed.

Lemma play_capacity sched s : Sys.capacity (Sys.play sched s) = Sys.capacity s.
Proof.
  revert s. induction sched as [| a sched IH]; intros s; [reflexivity |].
  cbn. destruct (Sys.step a s) as [s' |] eqn:Hstep; [| apply IH].
  rewrite IH. exact (step_capacity a s s' Hstep).
Qed.

(** A turn in the middle of the stream: the encoder writes what the pipe
    takes of its next chunk, and the thread on that pipe's other end
    takes it from there. *)
Lemma midStream_turn env cmd done gathered todo s :
  (0 < Sys.capacity s)%nat ->
  todo <> [] ->
  midStream env cmd done gathered todo s ->
  exists done' gathered' todo',
    midStream env cmd done' gathered' todo' (Sys.play turn s)
    /\ (scriptSize todo' < scriptSize todo)%nat.
Proof.
  intros Hcap Htodo
    (Hproc & Hout & Herr & Hclosed & Hth & Henv & Hcr & Hst & Hbody & Hlog & Hcmd & Hsum & Hgath).
  destruct s as [w proc outPipe errPipe capacity closed threads].
  cbn in Hcap, Hproc, Hout, Herr, Hclosed, Hth, Henv, Hcr, Hst, Hbody, Hlog, Hcmd.
  subst proc outPipe errPipe closed threads.
  destruct w as [env0 pending credit resp trace spawned].
  cbn in Henv, Hcr, Hst, Hbody, Hlog, Hcmd. subst env0 credit.
  destruct capacity as [| c]; [lia |].
  destruct todo as [| [p | p] todo]; [contradiction | |].
  - destruct p as [| b p].
    + exists done, gathered, todo. split; [| cbn; lia].
      unfold midStream. cbn. split_and!; auto.
    + assert (Hw : Response.status (Response.Write (b :: take c p) resp) = Some StatusOK
                   /\ Response.body (Response.Write (b :: take c p) resp)
                      = done ++ b :: take c p).
      { destruct (Response_Write_committed (b :: take c p) resp _ Hst)
          as (Hs & _ & _ & Hb). rewrite <- Hbody. auto. }
      destruct Hw as [Hws Hwb].
      assert (Hlen : (length (drop c p) <= length p)%nat)
        by (rewrite length_drop; lia).
      assert (Hsum' : (done ++ b :: take c p) ++ drop c p ++ concat (stdoutOf todo)
                      = concat (stdoutOf (Env.script env))).
      { rewrite <- Hsum. cbn. rewrite <- !app_assoc. cbn.
        rewrite app_assoc, take_drop. reflexivity. }
      cbn -[stderrTask Response.Write]. cbn in Hgath.
      destruct (drop c p) as [| b' p'] eqn:Hdrop; cbn -[stderrTask Response.Write].
      * exists (done ++ b :: take c p), gathered, todo.
        split; [| cbn; lia].
        unfold midStream. cbn -[stderrTask Response.Write].
        unfold logged, cmdCalls in Hlog, Hcmd.
        rewrite !List.filter_app, Hlog, Hcmd.
        split_and!; auto.
      * exists (done ++ b :: take c p), gathered, (ToStdout (b' :: p') :: todo).
        split; [| cbn in *; lia].
        unfold midStream. cbn -[stderrTask Response.Write].
        unfold logged, cmdCalls in Hlog, Hcmd.
        rewrite !List.filter_app, Hlog, Hcmd.
        split_and!; auto.
  - destruct p as [| b p].
    + exists done, gathered, todo. split; [| cbn; lia].
      unfold midStream. cbn. split_and!; auto.
    + assert (Hlen : (length (drop c p) <= length p)%nat)
        by (rewrite length_drop; lia).
      assert (Hgath' : (gathered ++ b :: take c p) ++ drop c p ++ stderrOf todo
                       = stderrOf (Env.script env)).
      { rewrite <- Hgath. cbn. rewrite <- !app_assoc. cbn.
        rewrite app_assoc, take_drop. reflexivity. }
      cbn -[stderrTask]. cbn in Hsum.
      destruct (drop c p) as [| b' p'] eqn:Hdrop; cbn -[stderrTask].
      * exists done, (gathered ++ b :: take c p), todo.
        split; [| cbn; lia].
        unfold midStream. cbn -[stderrTask].
        split_and!; auto.
      * exists done, (gathered ++ b :: take c p), (ToStderr (b' :: p') :: todo).
        split; [| cbn in *; lia].
        unfold midStream. cbn -[stderrTask].
        split_and!; auto.
Qed.

Lemma play_cons_some a rest s s' :
  Sys.step a s = Some s' -> Sys.play (a :: rest) s = Sys.play rest s'.
Proof. intros H. cbn. rewrite H. reflexivity. Qed.

Lemma play_cons_none a rest s :
  Sys.step a s = None -> Sys.play (a :: rest) s = Sys.play rest s.
Proof. intros H. cbn. rewrite H. reflexivity. Qed.

(** One move of a schedule, computed, with the state that it leads to
    written out. *)
Ltac state_out :=
  cbn -[EPIPE string_of_list_byte String.eqb Response.Flush Response.Write];
  unfold Sys.continue, Sys.withWorld, Sys.withProc, Sys.withOutPipe, Sys.withErrPipe,
    Sys.withClosed, Sys.withThreads, World.emit, World.onResp, World.setCredit,
    World.setPending, World.addGoroutine;
  cbn -[EPIPE string_of_list_byte String.eqb Response.Flush Response.Write].

Ltac play_move :=
  first
    [ erewrite play_cons_some by (state_out; reflexivity)
    | erewrite play_cons_none by (state_out; reflexivity) ].

(** The end of the stream: the encoder ends, the copy and the read
    return, the goroutine waits, and each thread reports and returns. *)
Lemma midStream_end env cmd done gathered s :
  midStream env cmd done gathered [] s ->
  completed env cmd (Sys.play (turns 3) s).
Proof.
  intros (Hproc & Hout & Herr & Hclosed & Hth & Henv & Hcr & Hst & Hbody & Hlog & Hcmd & Hsum & Hgath).
  destruct s as [w proc outPipe errPipe capacity closed threads].
  cbn in Hproc, Hout, Herr, Hclosed, Hth, Henv, Hcr, Hst, Hbody, Hlog, Hcmd.
  subst proc outPipe errPipe closed threads.
  destruct w as [env0 pending credit resp trace spawned].
  cbn in Henv, Hcr, Hst, Hbody, Hlog, Hcmd. subst env0 credit.
  cbn in Hsum, Hgath. rewrite app_nil_r in Hsum, Hgath. subst done gathered.
  assert (Hflush : Response.Flush resp = resp)
    by (apply (Response_WriteHeader_committed _ _ _ Hst)).
  destruct env as [so se st script sEnd wt client].
  cbn [Env.script Env.stdoutEnd Env.wait World.env World.init] in *.
  cbn [turns turn app].
  destruct sEnd as [e |]; [destruct (errors_Is e EPIPE) eqn:His |];
    (destruct (string_of_list_byte (stderrOf script) =? "")%string eqn:Htext;
     [destruct wt as [x |]; [destruct (errors_As_ExitError x) eqn:Has |] |]).
  all: do 9 (play_move; rewrite ?His, ?Htext, ?Has).
  all: cbn [Sys.play]; unfold completed; rewrite stderrTaskLog_eq; cbn zeta.
  all: unfold logged, cmdCalls, copyLog in *.
  all: cbn -[EPIPE string_of_list_byte String.eqb Response.Flush Response.Write].
  all: rewrite ?His, ?Htext, ?Has, ?Hflush, !List.filter_app, ?Hlog, ?Hcmd.
  all: split_and!; first [reflexivity | assumption].
Qed.

(** A request at its end makes no move. *)
Lemma completed_turns env cmd n s :
  completed env cmd s -> Sys.play (turns n) s = s.
Proof.
  intros (Hproc & _ & _ & _ & Hth & _).
  induction n as [| n IH]; [reflexivity |].
  cbn [turns turn app].
  rewrite play_cons_none
    by (unfold Sys.step, Sys.encoderStep; rewrite Hproc; reflexivity).
  rewrite play_cons_none
    by (unfold Sys.step, Sys.threadStep; rewrite Hth; reflexivity).
  rewrite play_cons_none
    by (unfold Sys.step, Sys.threadStep; rewrite Hth; reflexivity).
  exact IH.
Qed.

Lemma scriptSize_zero todo : scriptSize todo = 0%nat -> todo = [].
Proof. destruct todo as [| [p | p] todo]; [reflexivity | discriminate | discriminate]. Qed.

(** From the middle of the stream, turns enough end the request. *)
Lemma midStream_completes env cmd n :
  forall done gathered todo s,
    (0 < Sys.capacity s)%nat ->
    (scriptSize todo <= n)%nat ->
    midStream env cmd done gathered todo s ->
    completed env cmd (Sys.play (turns (n + 3)) s).
Proof.
  induction n as [| n IH]; intros done gathered todo s Hcap Hsize Hmid.
  - assert (todo = []) as -> by (apply scriptSize_zero; lia).
    exact (midStream_end env cmd done gathered s Hmid).
  - destruct todo as [| out todo].
    + replace (S n + 3)%nat with (3 + S n)%nat by lia.
      rewrite turns_add, play_app.
      rewrite (completed_turns env cmd);
        exact (midStream_end env cmd done gathered s Hmid).
    + destruct (midStream_turn env cmd done gathered (out :: todo) s Hcap
                  ltac:(discriminate) Hmid)
        as (done' & gathered' & todo' & Hmid' & Hless).
      change (turns (S n + 3)) with (turn ++ turns (n + 3)). rewrite play_app.
      apply (IH done' gathered' todo'); [rewrite play_capacity; exact Hcap | lia |].
      exact Hmid'.
Qed.

(** X8: with pipes that hold a byte at least and a client that takes
    everything, a request whose encoder starts runs to its end when the
    encoder, the request's thread and the goroutine move in turn:
    no thread is left waiting, the process has been waited for, the body
    is the whole output of the encoder, and the log holds what the copy
    and the goroutine report. *)
Theorem taking_turns_completes sm o env capacity :
  (0 < capacity)%nat ->
  startFailure env = None ->
  Env.client env = None ->
  let cmd := Command (StreamManager.encoder sm) (makeStreamArgs o sm) in
  let s :=
    Sys.play (takingTurns (Env.script env))
      (Sys.init env capacity (ServeTranscode sm o)) in
  Sys.proc s = Exited (Env.wait env)
  /\ Sys.threads s
     = [ {| Thread.code := Ret tt; Thread.acc := [] |};
         {| Thread.code := Ret tt; Thread.acc := [] |} ]
  /\ Response.status (World.resp (Sys.world s)) = Some StatusOK
  /\ Response.body (World.resp (Sys.world s)) = concat (stdoutOf (Env.script env))
  /\ logged (World.trace (Sys.world s))
     = copyLog (Env.stdoutEnd env) ++ stderrTaskLog cmd (World.init env)
  /\ cmdCalls (World.trace (Sys.world s))
     = [EStdoutPipe; EStderrPipe; EStart (Cmd.Args cmd); EAttachCommand; EGo;
        EReadAllStderr; EWait].
Proof.
  intros Hcap Hstart Hclient cmd s. subst s. unfold takingTurns.
  rewrite play_app.
  pose proof (boot_midStream sm o env capacity Hstart Hclient) as Hmid.
  fold cmd in Hmid.
  assert (Hcap' : (0 < Sys.capacity
                         (Sys.play boot (Sys.init env capacity (ServeTranscode sm o))))%nat)
    by (rewrite play_capacity; exact Hcap).
  destruct (midStream_completes env cmd (scriptSize (Env.script env)) [] []
              (Env.script env) _ Hcap' (Nat.le_refl _) Hmid)
    as (Hproc & _ & _ & _ & Hth & Hst & Hbody & Hlog & Hcmd).
  auto 10.
Qed.

(** ** The goroutine's wait and the handler's copy *)

Lemma pipeWrite_fits capacity p :
  p <> [] -> (length p <= capacity)%nat ->
  Sys.pipeWrite capacity [] p = Some (p, []).
Proof.
  intros Hp Hlen. unfold Sys.pipeWrite. cbn [length app].
  rewrite Nat.sub_0_r. destruct capacity as [| c].
  - destruct p; [contradiction | cbn in Hlen; lia].
  - rewrite take_ge, drop_ge by lia. reflexivity.
Qed.

(** X9: the whole output is not delivered in every order of moves.
    When the encoder writes one chunk that the pipe holds and ends, and
    the goroutine then returns from its read and waits before the
    request's thread comes to its copy, the wait closes the pipe with the
    chunk unread: the copy ends with [file already closed], which is
    logged as an error, and the response is status 200 with an empty
    body. *)
Theorem wait_first_truncates_stream sm o env capacity p :
  startFailure env = None ->
  Env.script env = [ToStdout p] ->
  p <> [] ->
  (length p <= capacity)%nat ->
  let cmd := Command (StreamManager.encoder sm) (makeStreamArgs o sm) in
  let s := Sys.play waitFirst (Sys.init env capacity (ServeTranscode sm o)) in
  Sys.proc s = Exited (Env.wait env)
  /\ Sys.threads s
     = [ {| Thread.code := Ret tt; Thread.acc := [] |};
         {| Thread.code := Ret tt; Thread.acc := [] |} ]
  /\ Sys.outPipe s = p
  /\ Response.status (World.resp (Sys.world s)) = Some StatusOK
  /\ Response.body (World.resp (Sys.world s)) = []
  /\ logged (World.trace (Sys.world s))
     = stderrTaskLog cmd (World.init env)
       ++ [ELog LevelError "[transcode] error serving transcoded video file: %v"
             [Error ErrClosed]].
Proof.
  intros Hstart Hscript Hp Hlen cmd s. subst s.
  rewrite stderrTaskLog_eq. cbn zeta.
  destruct env as [so se st script sEnd wt client].
  unfold startFailure in Hstart. cbn in Hstart, Hscript.
  destruct so; [discriminate |]. destruct se; [discriminate |]. subst st script.
  cbn [Env.script Env.stdoutEnd Env.wait World.env World.init stderrOf].
  destruct p as [| b p]; [contradiction |].
  unfold waitFirst. cbn [repeat app]. unfold Sys.init, World.init.
  cbn [Env.script Env.client stdoutOf].
  do 6 play_move.
  erewrite play_cons_some
    by (unfold Sys.step, Sys.encoderStep; cbn [Sys.proc Sys.capacity Sys.outPipe];
        rewrite (pipeWrite_fits capacity (b :: p) Hp Hlen); state_out; reflexivity).
  assert (Htext : (string_of_list_byte [] =? "")%string = true) by reflexivity.
  destruct wt as [x |]; [destruct (errors_As_ExitError x) eqn:Has |].
  all: do 9 (play_move; rewrite ?Htext, ?Has).
  all: cbn [Sys.play].
  all: unfold logged; cbn -[makeStreamArgs]; rewrite ?Has.
  all: split_and!; reflexivity.
Qed.

(** ** A request that is cancelled *)


(** ** The threads of a request *)

(** X11: in every order of moves a request has two threads at most,
    its own and the goroutine; it has the goroutine only once the encoder
    has been started, and neither of the two starts another. *)
Theorem one_goroutine_per_request sm o env capacity s :
  Sys.reachable (Sys.init env capacity (ServeTranscode sm o)) s ->
  (length (Sys.threads s) <= 2)%nat
  /\ (Sys.proc s = NotStarted -> length (Sys.threads s) = 1%nat)
  /\ (forall m t, Sys.threads s = [m; t] ->
        noSpawn (Thread.code m) /\ noSpawn (Thread.code t)).
Proof.
  intros Hr.
  destruct (stderrTask_drains
              (Command (StreamManager.encoder sm) (makeStreamArgs o sm)))
    as (k0 & Hbody & Hk0).
  pose proof (drained_reachable _ k0 _ s Hbody Hk0 (drained_init sm o env capacity) Hr)
    as Hd.
  unfold drained in Hd.
  destruct (Sys.proc s) as [| todo | err].
  - destruct Hd as (m & -> & _). cbn [length].
    split; [lia |]. split; [auto |]. discriminate.
  - destruct Hd as [(m & -> & _) | (m & acc & -> & Hm)]; cbn [length].
    + split; [lia |]. split; [discriminate |]. discriminate.
    + split; [lia |]. split; [discriminate |].
      intros m' t' [= <- <-]. split; [exact Hm |].
      unfold taskThread. cbn [Thread.code]. rewrite Hbody. exact Hk0.
  - destruct Hd as [(m & -> & _) | (m & t & -> & Hm & Ht)]; cbn [length].
    + split; [lia |]. split; [discriminate |]. discriminate.
    + split; [lia |]. split; [discriminate |].
      intros m' t' [= <- <-]. auto.
Qed.

(** ** The threads after the end of the encoder *)

Lemma finishes_mono {A : Type} (p : Prog A) :
  forall n m, (n <= m)%nat -> finishes n p -> finishes m p.
Proof.
  induction p as [A a | A X c k IH | A body _ k _]; intros n m Hle H.
  - exact I.
  - destruct n as [| n]; [contradiction |]. destruct m as [| m]; [lia |].
    cbn in *. intros x. apply (IH x n m); [lia | apply H].
  - destruct n; contradiction.
Qed.

Lemma bounded_mono {A : Type} (p : Prog A) :
  forall n m, (n <= m)%nat -> bounded n p -> bounded m p.
Proof.
  induction p as [A a | A X c k IH | A body _ k _]; intros n m Hle H.
  - exact I.
  - destruct n as [| n]; [contradiction |]. destruct m as [| m]; [lia |].
    cbn in *. intros x. apply (IH x n m); [lia | apply H].
  - destruct n as [| n]; [contradiction |]. destruct m as [| m]; [lia |].
    destruct H as [Hb Hk].
    split; [apply (finishes_mono body n m) | apply (finishes_mono k n m)];
      first [lia | assumption].
Qed.

(** With the encoder at its end every call returns: it goes on, with no
    more in the pipes than before, or it stays and has emptied a pipe. *)
Lemma callStep_exited i a {X : Type} (c : Call X) k s r :
  Sys.proc s = Exited r ->
  exists s' th',
    Sys.callStep i a c k s = Some s'
    /\ Sys.proc s' = Exited r
    /\ Sys.threads s' = <[i := th']> (Sys.threads s)
    /\ (((exists x, Thread.code th' = k x) /\ (pipeWeight s' <= pipeWeight s)%nat)
        \/ (Thread.code th' = Vis c k /\ (pipeWeight s' < pipeWeight s)%nat)).
Proof.
  intros Hproc. unfold pipeWeight.
  destruct s as [w proc outPipe errPipe capacity closed threads].
  cbn in Hproc. subst proc.
  destruct outPipe as [| b1 outPipe]; destruct errPipe as [| b2 errPipe];
    destruct closed; destruct c; cbn;
    repeat case_match; simplify_eq;
    eexists _, _; (split; [reflexivity |]); cbn;
    (split; [reflexivity |]); (split; [reflexivity |]);
    first [ left; split; [eexists; reflexivity | lia]
          | right; split; [reflexivity | lia] ].
Qed.

Lemma weighs_mono w w' s : (w <= w')%nat -> weighs w s -> weighs w' s.
Proof.
  intros Hle [(t0 & n0 & Hth & Hb & Hw) | (t0 & t1 & n0 & n1 & Hth & H0 & H1 & Hw)].
  - left. exists t0, n0. split_and!; auto. lia.
  - right. exists t0, t1, n0, n1. split_and!; auto. lia.
Qed.

Lemma returned_Ret (t : Thread.t) a : Thread.code t = Ret a -> returned t.
Proof. destruct a. auto. Qed.

(** A move of a thread when the encoder has ended: a thread that has
    not returned moves, and less is left to do. *)
Lemma weighs_move i w s r :
  Sys.proc s = Exited r ->
  weighs w s ->
  match Sys.threadStep i s with
  | Some s' => Sys.proc s' = Exited r /\ exists w', weighs w' s' /\ (w' < w)%nat
  | None => forall th, Sys.threads s !! i = Some th -> returned th
  end.
Proof.
  intros Hproc Hw. unfold Sys.threadStep.
  destruct (Sys.threads s !! i) as [th |] eqn:Hi; [| discriminate].
  destruct (Thread.code th) as [u | X c k | body k] eqn:Hcode.
  - intros th' [= <-]. exact (returned_Ret th u Hcode).
  - destruct (callStep_exited i (Thread.acc th) c k s r Hproc)
      as (s' & th' & -> & Hproc' & Hth' & Hcase).
    split; [exact Hproc' |].
    destruct Hw as [(t0 & n0 & Hth & Hb & Hw) | (t0 & t1 & n0 & n1 & Hth & H0 & H1 & Hw)];
      rewrite Hth in Hi, Hth'.
    + destruct i as [| i]; [| destruct i; discriminate].
      injection Hi as ->. rewrite Hcode in Hb.
      destruct n0 as [| n0]; [contradiction |]. cbn in Hb, Hth'.
      destruct Hcase as [[[x Hx] Hle] | [Hx Hlt]].
      * exists (2 * n0 + pipeWeight s')%nat. split; [| lia].
        left. exists th', n0. rewrite Hx. split_and!; auto.
      * exists (2 * S n0 + pipeWeight s')%nat. split; [| lia].
        left. exists th', (S n0). rewrite Hx. split_and!; auto.
    + destruct i as [| [| i]]; [| | discriminate]; injection Hi as ->.
      * rewrite Hcode in H0. destruct n0 as [| n0]; [contradiction |].
        cbn in H0, Hth'.
        destruct Hcase as [[[x Hx] Hle] | [Hx Hlt]].
        -- exists (n0 + n1 + pipeWeight s')%nat. split; [| lia].
           right. exists th', t1, n0, n1. rewrite Hx. split_and!; auto.
        -- exists (S n0 + n1 + pipeWeight s')%nat. split; [| lia].
           right. exists th', t1, (S n0), n1. rewrite Hx. split_and!; auto.
      * rewrite Hcode in H1. destruct n1 as [| n1]; [contradiction |].
        cbn in H1, Hth'.
        destruct Hcase as [[[x Hx] Hle] | [Hx Hlt]].
        -- exists (n0 + n1 + pipeWeight s')%nat. split; [| lia].
           right. exists t0, th', n0, n1. rewrite Hx. split_and!; auto.
        -- exists (n0 + S n1 + pipeWeight s')%nat. split; [| lia].
           right. exists t0, th', n0, (S n1). rewrite Hx. split_and!; auto.
  - split; [exact Hproc |].
    destruct Hw as [(t0 & n0 & Hth & Hb & Hw) | (t0 & t1 & n0 & n1 & Hth & H0 & H1 & Hw)];
      rewrite Hth in Hi.
    + destruct i as [| i]; [| destruct i; discriminate].
      injection Hi as ->. rewrite Hcode in Hb.
      destruct n0 as [| n0]; [contradiction |]. destruct Hb as [Hbody Hk].
      exists (n0 + n0 + pipeWeight s)%nat. split; [| lia].
      right.
      exists {| Thread.code := k; Thread.acc := [] |},
             {| Thread.code := body; Thread.acc := [] |}, n0, n0.
      cbn. rewrite Hth. split_and!; auto.
    + destruct i as [| [| i]]; [| | discriminate]; injection Hi as ->.
      * rewrite Hcode in H0. destruct n0; contradiction.
      * rewrite Hcode in H1. destruct n1; contradiction.
Qed.

Lemma weighs_threads w s :
  weighs w s ->
  (exists t0, Sys.threads s = [t0]) \/ (exists t0 t1, Sys.threads s = [t0; t1]).
Proof.
  intros [(t0 & n0 & Hth & _) | (t0 & t1 & n0 & n1 & Hth & _)]; eauto.
Qed.

(** Threads that have returned make no move. *)
Lemma returned_alternate n s :
  Forall returned (Sys.threads s) -> Sys.play (alternate n) s = s.
Proof.
  intros Hall. induction n as [| n IH]; [reflexivity |].
  assert (Hnone : forall i, Sys.step (ThreadOf i) s = None).
  { intros i. cbn. unfold Sys.threadStep.
    destruct (Sys.threads s !! i) as [th |] eqn:Hi; [| reflexivity].
    rewrite (proj1 (Forall_lookup _ _) Hall i th Hi). reflexivity. }
  cbn [alternate]. rewrite !play_cons_none by apply Hnone. exact IH.
Qed.

(** With the encoder at its end, the two threads in turn return in as
    many rounds as they have left to do. *)
Lemma exited_threads_return w :
  forall s r,
    Sys.proc s = Exited r ->
    weighs w s ->
    Sys.proc (Sys.play (alternate w) s) = Exited r
    /\ Forall returned (Sys.threads (Sys.play (alternate w) s)).
Proof.
  induction w as [| w IH]; intros s r Hproc Hw.
  - cbn. split; [exact Hproc |].
    destruct Hw as [(t0 & n0 & Hth & Hb & Hw) | (t0 & t1 & n0 & n1 & Hth & H0 & H1 & Hw)];
      rewrite Hth.
    + assert (n0 = 0%nat) as -> by lia.
      destruct (Thread.code t0) as [u | X c k | body k] eqn:Hc; try contradiction.
      repeat constructor. exact (returned_Ret t0 u Hc).
    + assert (n0 = 0%nat) as -> by lia. assert (n1 = 0%nat) as -> by lia.
      destruct (Thread.code t0) as [u0 | X0 c0 k0 | body0 k0] eqn:Hc0; try contradiction.
      destruct (Thread.code t1) as [u1 | X1 c1 k1 | body1 k1] eqn:Hc1; try contradiction.
      repeat constructor; [exact (returned_Ret t0 u0 Hc0) | exact (returned_Ret t1 u1 Hc1)].
  - cbn [alternate].
    pose proof (weighs_move 0 (S w) s r Hproc Hw) as H0.
    destruct (Sys.threadStep 0 s) as [s1 |] eqn:Hstep0.
    + destruct H0 as (Hproc1 & w1 & Hw1 & Hlt1).
      rewrite (play_cons_some _ _ s s1) by exact Hstep0.
      pose proof (weighs_move 1 w1 s1 r Hproc1 Hw1) as H1.
      destruct (Sys.threadStep 1 s1) as [s2 |] eqn:Hstep1.
      * destruct H1 as (Hproc2 & w2 & Hw2 & Hlt2).
        rewrite (play_cons_some _ _ s1 s2) by exact Hstep1.
        apply IH; [exact Hproc2 | apply (weighs_mono w2); [lia | exact Hw2]].
      * rewrite (play_cons_none _ _ s1) by exact Hstep1.
        apply IH; [exact Hproc1 | apply (weighs_mono w1); [lia | exact Hw1]].
    + rewrite (play_cons_none _ _ s) by exact Hstep0.
      pose proof (weighs_move 1 (S w) s r Hproc Hw) as H1.
      destruct (Sys.threadStep 1 s) as [s2 |] eqn:Hstep1.
      * destruct H1 as (Hproc2 & w2 & Hw2 & Hlt2).
        rewrite (play_cons_some _ _ s s2) by exact Hstep1.
        apply IH; [exact Hproc2 | apply (weighs_mono w2); [lia | exact Hw2]].
      * rewrite (play_cons_none _ _ s) by exact Hstep1.
        assert (Hall : Forall returned (Sys.threads s)).
        { destruct (weighs_threads _ _ Hw) as [(t0 & Hth) | (t0 & t1 & Hth)];
            rewrite Hth in *; repeat constructor;
            first [apply H0; reflexivity | apply H1; reflexivity]. }
        rewrite returned_alternate by exact Hall. auto.
Qed.

Lemma inBounds_threadStep n i s s' :
  Sys.threadStep i s = Some s' -> inBounds n s -> inBounds n s'.
Proof.
  intros Hstep Hin. unfold Sys.threadStep in Hstep.
  destruct (Sys.threads s !! i) as [th |] eqn:Hi; [| discriminate].
  destruct (Thread.code th) as [u | X c k | body k] eqn:Hcode; [discriminate | |].
  - destruct (callStep_spec i (Thread.acc th) c k s s' Hstep)
      as [(th' & Hth' & Hcode') _].
    destruct Hin as [(t0 & Hth & Hb) | (t0 & t1 & Hth & H0 & H1)];
      rewrite Hth in Hi, Hth'.
    + destruct i as [| i]; [| destruct i; discriminate].
      injection Hi as ->. rewrite Hcode in Hb.
      left. exists th'. split; [exact Hth' |].
      destruct Hcode' as [-> | [x ->]]; [exact Hb |].
      destruct n as [| n]; [contradiction |].
      apply (bounded_mono _ n); [lia | apply Hb].
    + right. destruct i as [| [| i]]; [| | discriminate]; injection Hi as ->.
      * rewrite Hcode in H0. exists th', t1. split; [exact Hth' |].
        split; [| exact H1].
        destruct Hcode' as [-> | [x ->]]; [exact H0 |].
        destruct n as [| n]; [contradiction |].
        apply (finishes_mono _ n); [lia | apply H0].
      * rewrite Hcode in H1. exists t0, th'. split; [exact Hth' |].
        split; [exact H0 |].
        destruct Hcode' as [-> | [x ->]]; [exact H1 |].
        destruct n as [| n]; [contradiction |].
        apply (finishes_mono _ n); [lia | apply H1].
  - injection Hstep as <-.
    destruct Hin as [(t0 & Hth & Hb) | (t0 & t1 & Hth & H0 & H1)]; rewrite Hth in Hi.
    + destruct i as [| i]; [| destruct i; discriminate].
      injection Hi as ->. rewrite Hcode in Hb.
      destruct n as [| n]; [contradiction |]. destruct Hb as [Hbody Hk].
      right.
      exists {| Thread.code := k; Thread.acc := [] |},
             {| Thread.code := body; Thread.acc := [] |}.
      cbn. rewrite Hth. split; [reflexivity |].
      split; [apply (finishes_mono _ n) | apply (finishes_mono _ n)];
        first [lia | assumption].
    + destruct i as [| [| i]]; [| | discriminate]; injection Hi as ->.
      * rewrite Hcode in H0. destruct n; contradiction.
      * rewrite Hcode in H1. destruct n; contradiction.
Qed.

Lemma cancelStep_spec s s' :
  Sys.cancelStep s = Some s' ->
  Sys.threads s' = Sys.threads s /\ Sys.proc s' = Exited (Some killed)
  /\ Sys.outPipe s' = Sys.outPipe s /\ Sys.errPipe s' = Sys.errPipe s.
Proof.
  unfold Sys.cancelStep. destruct (Sys.proc s); try discriminate.
  intros [= <-]. auto.
Qed.

Lemma inBounds_reachable n s0 s :
  inBounds n s0 -> Sys.reachable s0 s -> inBounds n s.
Proof.
  intros H0 Hr. induction Hr as [| s a s' _ IH Hstep]; [exact H0 |].
  destruct a as [i | |]; cbn in Hstep.
  - exact (inBounds_threadStep n i s s' Hstep IH).
  - destruct (encoderStep_world s s' Hstep) as [_ Hth].
    unfold inBounds. rewrite Hth. exact IH.
  - destruct (cancelStep_spec s s' Hstep) as [Hth _].
    unfold inBounds. rewrite Hth. exact IH.
Qed.

Lemma handler_finishes mimeType : finishes 5 (handler mimeType).
Proof.
  unfold handler. cbn. intros _ _ [e |]; [destruct (negb (errors_Is e EPIPE)) |];
    cbn; auto.
Qed.

Lemma stderrTask_finishes cmd : finishes 3 (stderrTask cmd).
Proof.
  unfold stderrTask. cbn. intros errStr errCmd.
  destruct (negb _); [| destruct errCmd as [x |]];
    try destruct (negb (errors_As_ExitError _)); cbn; auto.
Qed.

(** [ServeTranscode] makes eleven calls at most, the start of its
    goroutine counted. *)
Lemma ServeTranscode_bounded sm o : bounded 11 (ServeTranscode sm o).
Proof.
  unfold ServeTranscode, getTranscodeStream. cbn -[makeStreamArgs handler stderrTask].
  intros _ [e1 |]; cbn -[makeStreamArgs handler stderrTask].
  { intros _ _ _ [e' |]; cbn; auto. }
  intros [e2 |]; cbn -[makeStreamArgs handler stderrTask].
  { intros _ _ _ [e' |]; cbn; auto. }
  intros [e3 |]; cbn -[makeStreamArgs handler stderrTask].
  { intros _ _ [e' |]; cbn; auto. }
  intros _.
  split; [apply (finishes_mono _ 3); [lia | apply stderrTask_finishes]
         | apply handler_finishes].
Qed.

Lemma inBounds_weighs n s : inBounds n s -> weighs (2 * n + 2) s.
Proof.
  assert (Hp : (pipeWeight s <= 2)%nat).
  { unfold pipeWeight. destruct (Sys.outPipe s), (Sys.errPipe s); cbn; lia. }
  intros [(t0 & Hth & Hb) | (t0 & t1 & Hth & H0 & H1)].
  - left. exists t0, n. split_and!; auto. lia.
  - right. exists t0, t1, n, n. split_and!; auto. lia.
Qed.

(** X12: once the encoder has been started, a cancellation of the
    request's context ends the request from wherever it is: the encoder
    is killed if it still runs, and the request's thread and the
    goroutine, moving in turn, both return within 24 rounds. No call of
    either thread stays blocked after the end of the encoder. *)
Theorem cancellation_ends_request sm o env capacity s :
  Sys.reachable (Sys.init env capacity (ServeTranscode sm o)) s ->
  Sys.proc s <> NotStarted ->
  let s' := Sys.play (Cancel :: alternate 24) s in
  Forall returned (Sys.threads s')
  /\ (forall todo, Sys.proc s = Running todo -> Sys.proc s' = Exited (Some killed))
  /\ (forall r, Sys.proc s = Exited r -> Sys.proc s' = Exited r).
Proof.
  intros Hr Hstarted s'. subst s'.
  assert (Hin : inBounds 11 s).
  { apply (inBounds_reachable 11 (Sys.init env capacity (ServeTranscode sm o)) s);
      [| exact Hr].
    left. eexists. split; [reflexivity |]. apply ServeTranscode_bounded. }
  destruct (Sys.proc s) as [| todo | r] eqn:Hproc; [contradiction | |].
  - assert (Hstep : Sys.step Cancel s = Some (Sys.withProc (Exited (Some killed)) s)).
    { cbn. unfold Sys.cancelStep. rewrite Hproc. reflexivity. }
    rewrite (play_cons_some _ _ _ _ Hstep).
    assert (Hw : weighs 24 (Sys.withProc (Exited (Some killed)) s)).
    { apply (inBounds_weighs 11). exact Hin. }
    destruct (exited_threads_return 24 (Sys.withProc (Exited (Some killed)) s)
                (Some killed) eq_refl Hw) as [Hp Hall].
    split; [exact Hall |]. split; [intros; exact Hp | discriminate].
  - assert (Hstep : Sys.step Cancel s = None).
    { cbn. unfold Sys.cancelStep. rewrite Hproc. reflexivity. }
    rewrite (play_cons_none _ _ _ Hstep).
    destruct (exited_threads_return 24 s r Hproc (inBounds_weighs 11 s Hin))
      as [Hp Hall].
    split; [exact Hall |]. split; [discriminate |]. intros r' [= <-]. exact Hp.
Qed.

(** X13: nothing in the request ends an encoder whose output is no
    longer read. When the request's thread has returned and the encoder
    has a chunk to write on its standard output with the pipe full, the
    goroutine waits in its read, the encoder waits for room, and the only
    move left is the cancellation of the request's context, which kills
    the encoder. *)
Theorem unread_encoder_waits_for_cancel sm o env capacity s p rest :
  Sys.reachable (Sys.init env capacity (ServeTranscode sm o)) s ->
  (forall m, Sys.threads s !! 0%nat = Some m -> returned m) ->
  Sys.proc s = Running (ToStdout p :: rest) ->
  p <> [] ->
  (Sys.capacity s <= length (Sys.outPipe s))%nat ->
  Sys.errPipe s = [] ->
  (forall i, Sys.step (ThreadOf i) s = None)
  /\ Sys.step Encoder s = None
  /\ Sys.step Cancel s = Some (Sys.withProc (Exited (Some killed)) s)
  /\ exists m t, Sys.threads s = [m; t] /\ ~ returned t.
Proof.
  intros Hr Hm Hproc Hp Hfull Herr.
  destruct (stderrTask_drains
              (Command (StreamManager.encoder sm) (makeStreamArgs o sm)))
    as (k0 & Hbody & Hk0).
  pose proof (drained_reachable _ k0 _ s Hbody Hk0 (drained_init sm o env capacity) Hr)
    as Hd.
  unfold drained in Hd. rewrite Hproc in Hd.
  destruct Hd as [(m & Hth & Hstarts & _) | (m & acc & Hth & _)].
  { exfalso. specialize (Hm m). rewrite Hth in Hm. specialize (Hm eq_refl).
    unfold returned in Hm. rewrite Hm in Hstarts. exact Hstarts. }
  assert (Hm0 : returned m) by (apply Hm; rewrite Hth; reflexivity).
  split; [| split; [| split]].
  - intros i. cbn. unfold Sys.threadStep. rewrite Hth.
    destruct i as [| [| i]].
    + cbn [lookup list_lookup]. rewrite Hm0. reflexivity.
    + cbn [lookup list_lookup]. unfold taskThread. cbn [Thread.code Thread.acc].
      rewrite Hbody. cbn [Sys.callStep]. rewrite Herr, Hproc. reflexivity.
    + reflexivity.
  - cbn. unfold Sys.encoderStep. rewrite Hproc.
    destruct p as [| b p]; [contradiction |].
    unfold Sys.pipeWrite.
    replace (Sys.capacity s - length (Sys.outPipe s))%nat with 0%nat by lia.
    reflexivity.
  - cbn. unfold Sys.cancelStep. rewrite Hproc. reflexivity.
  - exists m, (taskThread
                 (stderrTask (Command (StreamManager.encoder sm) (makeStreamArgs o sm)))
                 acc).
    split; [exact Hth |]. unfold returned, taskThread. cbn [Thread.code].
    rewrite Hbody. discriminate.
Qed.

(** ** Moves that are always left *)

(** What a call leaves as it is. *)
Lemma callStep_frame i a {X : Type} (c : Call X) k s s' :
  Sys.callStep i a c k s = Some s' ->
  World.env (Sys.world s') = World.env (Sys.world s)
  /\ (World.credit (Sys.world s) = None -> World.credit (Sys.world s') = None)
  /\ (Sys.closed s' = Sys.closed s \/ exists r, Sys.proc s' = Exited r).
Proof.
  destruct s as [w proc outPipe errPipe capacity closed threads].
  destruct w as [env pending credit resp trace spawned].
  destruct c; cbn; unfold World.write; cbn;
    repeat case_match; simplify_eq; intros ?; simplify_eq; cbn;
    (split; [reflexivity |]); (split; [try discriminate; auto |]); eauto.
Qed.

(** The calls that do not wait for the encoder can be made at once. *)
Lemma callStep_enabled i a {X : Type} (c : Call X) k s :
  isWaiting c = false -> isCopy c = false ->
  exists s', Sys.callStep i a c k s = Some s'.
Proof.
  destruct c; cbn; intros Hw Hc; try discriminate;
    repeat case_match; eauto.
Qed.

Lemma lively_threadStep i s s' :
  Sys.threadStep i s = Some s' -> lively s -> lively s'.
Proof.
  intros Hstep (Hcr & Hcl & Hshape). unfold Sys.threadStep in Hstep.
  destruct (Sys.threads s !! i) as [th |] eqn:Hi; [| discriminate].
  destruct (Thread.code th) as [u | X c k | body k] eqn:Hcode; [discriminate | |].
  - destruct (callStep_frame i (Thread.acc th) c k s s' Hstep) as (_ & Hcr' & Hcl').
    destruct (callStep_spec i (Thread.acc th) c k s s' Hstep)
      as [(th' & Hth' & Hcode') Hproc'].
    split; [exact (Hcr' Hcr) |].
    split.
    { intros Hc. destruct Hcl' as [Hsame | Hex]; [| exact Hex].
      rewrite Hsame in Hc. destruct (Hcl Hc) as [r Hr].
      exists r. destruct Hproc' as [-> | [_ Hn]]; congruence. }
    destruct (Sys.proc s) as [| todo | r] eqn:Hproc.
    + destruct Hshape as (m & Hth & Hready). rewrite Hth in Hi, Hth'.
      destruct i as [| i]; [| destruct i; discriminate].
      injection Hi as ->. rewrite Hcode in Hready. clear Hcode' Hproc' Hcr' Hcl'.
      destruct c; cbn in Hready; try contradiction; cbn in Hstep;
        try destruct (World.write _ _) as [x w];
        try (injection Hstep as <-; cbn; rewrite Hproc, Hth; cbn;
             eexists; split; [reflexivity |]; cbn; apply Hready).
      destruct Hready as [Hfail Hok].
      destruct (Env.start (World.env (Sys.world s))) as [e |].
      * injection Hstep as <-. cbn. rewrite Hproc, Hth. cbn.
        eexists. split; [reflexivity |]. cbn. apply Hfail.
      * rewrite Hproc in Hstep. injection Hstep as <-. cbn. rewrite Hth. cbn.
        eexists _, _. split; [reflexivity |]. cbn. exact Hok.
    + destruct Hproc' as [Hp | [_ Hn]]; [| discriminate]. rewrite Hp.
      destruct Hshape as (m & rest & Hth & Hahead). rewrite Hth in Hi, Hth'.
      destruct i as [| i].
      * injection Hi as ->. rewrite Hcode in Hahead.
        destruct Hahead as [Hcopy | [Hnw Hk]].
        -- destruct c; try discriminate Hcopy. cbn in Hstep.
           destruct (Sys.closed s) eqn:Hclosed.
           { destruct (Hcl eq_refl) as [r Hr]. discriminate. }
           destruct (Sys.outPipe s) as [| b pipe];
             [rewrite Hproc in Hstep; discriminate |].
           unfold World.write in Hstep. cbn [World.credit World.emit] in Hstep.
           rewrite Hcr in Hstep. injection Hstep as <-.
           cbn. rewrite Hth. cbn. eexists _, _. split; [reflexivity |].
           cbn. left. reflexivity.
        -- cbn in Hth'. exists th', rest. split; [exact Hth' |].
           destruct Hcode' as [-> | [x ->]]; [right; split; assumption | apply Hk].
      * cbn in Hth'. exists m, (<[i := th']> rest). split; [exact Hth' | exact Hahead].
    + destruct Hproc' as [Hp | [_ Hn]]; [| discriminate]. rewrite Hp. exact I.
  - injection Hstep as <-. unfold lively.
    cbn [Sys.proc Sys.closed Sys.world Sys.threads Sys.withThreads Sys.withWorld
         World.credit World.emit].
    split; [exact Hcr |]. split; [exact Hcl |].
    destruct (Sys.proc s) as [| todo | r] eqn:Hproc; [| | exact I].
    + destruct Hshape as (m & Hth & Hready). rewrite Hth in Hi.
      destruct i as [| i]; [| destruct i; discriminate].
      injection Hi as ->. rewrite Hcode in Hready. contradiction.
    + destruct Hshape as (m & rest & Hth & Hahead). rewrite Hth in Hi. rewrite Hth.
      destruct i as [| i].
      * injection Hi as ->. rewrite Hcode in Hahead. cbn.
        eexists _, _. split; [reflexivity | exact Hahead].
      * cbn. eexists _, _. split; [reflexivity | exact Hahead].
Qed.

Lemma encoderStep_spec s s' :
  Sys.encoderStep s = Some s' ->
  Sys.world s' = Sys.world s /\ Sys.threads s' = Sys.threads s
  /\ Sys.closed s' = Sys.closed s
  /\ (exists todo, Sys.proc s = Running todo)
  /\ Sys.proc s' <> NotStarted.
Proof.
  unfold Sys.encoderStep. intros H.
  repeat case_match; simplify_eq; cbn; split_and!; eauto; discriminate.
Qed.

Lemma lively_encoderStep s s' :
  Sys.encoderStep s = Some s' -> lively s -> lively s'.
Proof.
  intros Hstep (Hcr & Hcl & Hshape).
  destruct (encoderStep_spec s s' Hstep) as (Hw & Hth & Hclosed & [todo Hproc] & Hn).
  unfold lively. rewrite Hw, Hth, Hclosed. split; [exact Hcr |].
  split.
  { intros Hc. destruct (Hcl Hc) as [r Hr]. congruence. }
  rewrite Hproc in Hshape.
  destruct (Sys.proc s') as [| todo' | r]; [contradiction | exact Hshape | exact I].
Qed.

Lemma lively_cancelStep s s' :
  Sys.cancelStep s = Some s' -> lively s -> lively s'.
Proof.
  intros Hstep (Hcr & Hcl & Hshape).
  unfold Sys.cancelStep in Hstep.
  destruct (Sys.proc s) as [| todo | r] eqn:Hproc; try discriminate.
  injection Hstep as <-. unfold lively. cbn. split; [exact Hcr |].
  split; [eauto | exact I].
Qed.

Lemma lively_reachable s0 s : lively s0 -> Sys.reachable s0 s -> lively s.
Proof.
  intros H0 Hr. induction Hr as [| s a s' _ IH Hstep]; [exact H0 |].
  destruct a as [i | |]; cbn in Hstep.
  - exact (lively_threadStep i s s' Hstep IH).
  - exact (lively_encoderStep s s' Hstep IH).
  - exact (lively_cancelStep s s' Hstep IH).
Qed.

Lemma handler_copyAhead mimeType : copyAhead (handler mimeType).
Proof.
  unfold handler. cbn. right. split; [reflexivity |]. intros _.
  right. split; [reflexivity |]. intros _. left. reflexivity.
Qed.

Lemma ServeTranscode_readyToStart sm o : readyToStart (ServeTranscode sm o).
Proof.
  unfold ServeTranscode, getTranscodeStream. cbn -[makeStreamArgs handler stderrTask].
  intros _ [e1 |]; cbn -[makeStreamArgs handler stderrTask].
  { intros _ _ _ [e' |]; cbn; auto. }
  intros [e2 |]; cbn -[makeStreamArgs handler stderrTask].
  { intros _ _ _ [e' |]; cbn; auto. }
  split.
  - intros e3. cbn -[makeStreamArgs handler stderrTask].
    intros _ _ [e' |]; cbn; auto.
  - cbn -[makeStreamArgs handler stderrTask].
    right. split; [reflexivity |]. intros _. apply handler_copyAhead.
Qed.

Lemma lively_init sm o env capacity :
  Env.client env = None ->
  lively (Sys.init env capacity (ServeTranscode sm o)).
Proof.
  intros Hclient. unfold lively. cbn -[ServeTranscode].
  split; [exact Hclient |]. split; [discriminate |].
  eexists. split; [reflexivity |]. apply ServeTranscode_readyToStart.
Qed.

Lemma pipeWrite_None capacity pipe p :
  (0 < capacity)%nat -> Sys.pipeWrite capacity pipe p = None -> pipe <> [].
Proof.
  unfold Sys.pipeWrite. intros Hcap H ->. cbn in H.
  rewrite Nat.sub_0_r in H. destruct capacity; [lia | discriminate].
Qed.

(** X14: with pipes that hold a byte at least and a client that takes
    everything, a request cannot come to a halt before its end, in any
    order of moves and without any cancellation: either every thread has
    returned and the encoder does not run, or the encoder or a thread can
    move. In particular an encoder that waits for room in the pipe of its
    standard error finds the goroutine reading it, and one that waits for
    room in the pipe of its standard output finds the request's thread on
    its way to the copy or in it. *)
Theorem no_halt_while_client_stays sm o env capacity s :
  (0 < capacity)%nat ->
  Env.client env = None ->
  Sys.reachable (Sys.init env capacity (ServeTranscode sm o)) s ->
  atRest s
  \/ exists a s', a <> Cancel /\ Sys.step a s = Some s'.
Proof.
  intros Hcap Hclient Hr.
  pose proof (lively_reachable _ s (lively_init sm o env capacity Hclient) Hr)
    as (Hcr & Hcl & Hshape).
  destruct (stderrTask_drains
              (Command (StreamManager.encoder sm) (makeStreamArgs o sm)))
    as (k0 & Hbody & Hk0).
  pose proof (drained_reachable _ k0 _ s Hbody Hk0 (drained_init sm o env capacity) Hr)
    as Hd.
  pose proof (reachable_capacity _ s Hr) as Hc. cbn in Hc.
  unfold drained in Hd.
  destruct (Sys.proc s) as [| todo | r] eqn:Hproc.
  - (* the encoder is not started *)
    destruct Hshape as (m & Hth & Hready).
    destruct (Thread.code m) as [u | X c k | body k] eqn:Hcode.
    + left. split; [| rewrite Hproc; discriminate].
      rewrite Hth. repeat constructor. exact (returned_Ret m u Hcode).
    + right.
      assert (Hnw : isWaiting c = false /\ isCopy c = false)
        by (destruct c; cbn in Hready; try contradiction; auto).
      destruct (callStep_enabled 0 (Thread.acc m) c k s (proj1 Hnw) (proj2 Hnw))
        as [s' Hs'].
      exists (ThreadOf 0), s'. split; [discriminate |].
      cbn. unfold Sys.threadStep. rewrite Hth. cbn. rewrite Hcode. exact Hs'.
    + contradiction.
  - (* the encoder runs *)
    right. destruct (Sys.encoderStep s) as [s' |] eqn:Henc.
    { exists Encoder, s'. split; [discriminate | exact Henc]. }
    destruct Hshape as (m & rest & Hth & Hahead).
    assert (Hclosed : Sys.closed s = false).
    { destruct (Sys.closed s); [| reflexivity].
      destruct (Hcl eq_refl) as [r Hr']. discriminate. }
    unfold Sys.encoderStep in Henc. rewrite Hproc in Henc.
    destruct todo as [| [p | p] todo]; [discriminate | |];
      (destruct p as [| b p]; [discriminate |]).
    + (* no room in the pipe of the standard output *)
      assert (Hpipe : Sys.outPipe s <> []).
      { apply (pipeWrite_None (Sys.capacity s) _ (b :: p)); [lia |].
        destruct (Sys.pipeWrite _ _ _) as [[pipe p'] |]; [| reflexivity].
        destruct p'; discriminate. }
      destruct (Thread.code m) as [u | X c k | body k] eqn:Hcode; [contradiction | |].
      * destruct Hahead as [Hcopy | [Hnw Hk]].
        -- destruct c; try discriminate Hcopy.
           destruct (Sys.outPipe s) as [| b' pipe] eqn:Hout; [contradiction |].
           eexists (ThreadOf 0), _. split; [discriminate |].
           cbn. unfold Sys.threadStep. rewrite Hth. cbn. rewrite Hcode. cbn.
           rewrite Hclosed, Hout. unfold World.write. cbn [World.credit World.emit].
           rewrite Hcr. reflexivity.
        -- destruct (isCopy c) eqn:Hcopy.
           { destruct c; try discriminate Hcopy.
             destruct (Sys.outPipe s) as [| b' pipe] eqn:Hout; [contradiction |].
             eexists (ThreadOf 0), _. split; [discriminate |].
             cbn. unfold Sys.threadStep. rewrite Hth. cbn. rewrite Hcode. cbn.
             rewrite Hclosed, Hout. unfold World.write. cbn [World.credit World.emit].
             rewrite Hcr. reflexivity. }
           destruct (callStep_enabled 0 (Thread.acc m) c k s Hnw Hcopy) as [s' Hs'].
           exists (ThreadOf 0), s'. split; [discriminate |].
           cbn. unfold Sys.threadStep. rewrite Hth. cbn. rewrite Hcode. exact Hs'.
      * eexists (ThreadOf 0), _. split; [discriminate |].
        cbn. unfold Sys.threadStep. rewrite Hth. cbn. rewrite Hcode. reflexivity.
    + (* no room in the pipe of the standard error *)
      assert (Hpipe : Sys.errPipe s <> []).
      { apply (pipeWrite_None (Sys.capacity s) _ (b :: p)); [lia |].
        destruct (Sys.pipeWrite _ _ _) as [[pipe p'] |]; [| reflexivity].
        destruct p'; discriminate. }
      destruct Hd as [(m1 & Hth1 & Hstarts & _) | (m1 & acc & Hth1 & _)].
      * (* the goroutine is about to be started *)
        rewrite Hth1 in Hth. injection Hth as <- <-.
        destruct (Thread.code m1) as [u | X c k | body k] eqn:Hcode;
          [contradiction | |].
        -- destruct c; try contradiction.
           eexists (ThreadOf 0), _. split; [discriminate |].
           cbn. unfold Sys.threadStep. rewrite Hth1. cbn. rewrite Hcode. reflexivity.
        -- eexists (ThreadOf 0), _. split; [discriminate |].
           cbn. unfold Sys.threadStep. rewrite Hth1. cbn. rewrite Hcode. reflexivity.
      * (* the goroutine is in its read *)
        destruct (Sys.errPipe s) as [| b' pipe] eqn:Herr; [contradiction |].
        eexists (ThreadOf 1), _. split; [discriminate |].
        cbn. unfold Sys.threadStep. rewrite Hth1. cbn [lookup list_lookup].
        unfold taskThread. cbn [Thread.code Thread.acc]. rewrite Hbody.
        cbn [Sys.callStep]. rewrite Herr. reflexivity.
  - (* the encoder has ended *)
    assert (Hcases : Forall returned (Sys.threads s)
                     \/ exists i th, Sys.threads s !! i = Some th /\ ~ returned th).
    { destruct Hd as [(m & Hth & _) | (m & t & Hth & _)]; rewrite Hth.
      - destruct (Thread.code m) as [u | X c k | body k] eqn:Hcode.
        + left. repeat constructor. exact (returned_Ret m u Hcode).
        + right. exists 0%nat, m. split; [reflexivity |].
          unfold returned. rewrite Hcode. discriminate.
        + right. exists 0%nat, m. split; [reflexivity |].
          unfold returned. rewrite Hcode. discriminate.
      - destruct (Thread.code m) as [u | X c k | body k] eqn:Hcode.
        + destruct (Thread.code t) as [u' | X' c' k' | body' k'] eqn:Hcode';
            [left; repeat constructor;
             [exact (returned_Ret m u Hcode) | exact (returned_Ret t u' Hcode')]
            | right; exists 1%nat, t; split; [reflexivity |];
              unfold returned; rewrite Hcode'; discriminate ..].
        + right. exists 0%nat, m. split; [reflexivity |].
          unfold returned. rewrite Hcode. discriminate.
        + right. exists 0%nat, m. split; [reflexivity |].
          unfold returned. rewrite Hcode. discriminate. }
    destruct Hcases as [Hall | (i & th & Hi & Hnot)].
    + left. split; [exact Hall | rewrite Hproc; discriminate].
    + right. destruct (Thread.code th) as [u | X c k | body k] eqn:Hcode.
      * exfalso. apply Hnot. exact (returned_Ret th u Hcode).
      * destruct (callStep_exited i (Thread.acc th) c k s r Hproc)
          as (s' & th' & Hs' & _).
        exists (ThreadOf i), s'. split; [discriminate |].
        cbn. unfold Sys.threadStep. rewrite Hi, Hcode. exact Hs'.
      * eexists (ThreadOf i), _. split; [discriminate |].
        cbn. unfold Sys.threadStep. rewrite Hi, Hcode. reflexivity.
Qed.

(** ** Runs are bounded *)

(** A call goes on, with no more in the pipes than before, or it stays
    and has emptied a pipe; it leaves the encoder as much to do. *)
Lemma callStep_weight env i a {X : Type} (c : Call X) k s s' :
  World.env (Sys.world s) = env ->
  Sys.callStep i a c k s = Some s' ->
  World.env (Sys.world s') = env
  /\ encoderLeft env s' = encoderLeft env s
  /\ exists th',
       Sys.threads s' = <[i := th']> (Sys.threads s)
       /\ (((exists x, Thread.code th' = k x) /\ (pipeWeight s' <= pipeWeight s)%nat)
           \/ (Thread.code th' = Vis c k /\ (pipeWeight s' < pipeWeight s)%nat)).
Proof.
  intros Henv. unfold pipeWeight, encoderLeft.
  destruct s as [w proc outPipe errPipe capacity closed threads].
  destruct w as [env0 pending credit resp trace spawned].
  cbn in Henv. subst env0.
  destruct outPipe as [| b1 outPipe]; destruct errPipe as [| b2 errPipe];
    destruct closed; destruct proc as [| todo | r]; destruct c;
    cbn -[Nat.leb length];
    unfold World.write; cbn -[Nat.leb length];
    try match goal with
        | |- context [Env.start env] => destruct (Env.start env) as [e0 |]
        end;
    try match goal with
        | |- context [match credit with _ => _ end] => destruct credit as [[n e] |]
        end;
    try destruct (_ <=? _)%nat; cbn;
    intros ?; simplify_eq; cbn;
    (split; [reflexivity |]); (split; [reflexivity |]);
    eexists; (split; [reflexivity |]); cbn;
    first [ left; split; [eexists; reflexivity | lia]
          | right; split; [reflexivity | lia] ].
Qed.

Lemma movesLeft_threadStep env i w s s' :
  Sys.threadStep i s = Some s' ->
  movesLeft env w s ->
  exists w', movesLeft env w' s' /\ (w' < w)%nat.
Proof.
  intros Hstep [Henv Hw]. unfold Sys.threadStep in Hstep.
  destruct (Sys.threads s !! i) as [th |] eqn:Hi; [| discriminate].
  destruct (Thread.code th) as [u | X c k | body k] eqn:Hcode; [discriminate | |].
  - destruct (callStep_weight env i (Thread.acc th) c k s s' Henv Hstep)
      as (Henv' & Hleft & th' & Hth' & Hcase).
    destruct Hw as [(t0 & n0 & Hth & Hb & Hw) | (t0 & t1 & n0 & n1 & Hth & H0 & H1 & Hw)];
      rewrite Hth in Hi, Hth'.
    + destruct i as [| i]; [| destruct i; discriminate].
      injection Hi as ->. rewrite Hcode in Hb.
      destruct n0 as [| n0]; [contradiction |]. cbn in Hb, Hth'.
      destruct Hcase as [[[x Hx] Hle] | [Hx Hlt]].
      * exists (3 * encoderLeft env s' + 2 * n0 + pipeWeight s')%nat.
        split; [| lia]. split; [exact Henv' |].
        left. exists th', n0. rewrite Hx. split_and!; auto.
      * exists (3 * encoderLeft env s' + 2 * S n0 + pipeWeight s')%nat.
        split; [| lia]. split; [exact Henv' |].
        left. exists th', (S n0). rewrite Hx. split_and!; auto.
    + destruct i as [| [| i]]; [| | discriminate]; injection Hi as ->.
      * rewrite Hcode in H0. destruct n0 as [| n0]; [contradiction |].
        cbn in H0, Hth'.
        destruct Hcase as [[[x Hx] Hle] | [Hx Hlt]].
        -- exists (3 * encoderLeft env s' + n0 + n1 + pipeWeight s')%nat.
           split; [| lia]. split; [exact Henv' |].
           right. exists th', t1, n0, n1. rewrite Hx. split_and!; auto.
        -- exists (3 * encoderLeft env s' + S n0 + n1 + pipeWeight s')%nat.
           split; [| lia]. split; [exact Henv' |].
           right. exists th', t1, (S n0), n1. rewrite Hx. split_and!; auto.
      * rewrite Hcode in H1. destruct n1 as [| n1]; [contradiction |].
        cbn in H1, Hth'.
        destruct Hcase as [[[x Hx] Hle] | [Hx Hlt]].
        -- exists (3 * encoderLeft env s' + n0 + n1 + pipeWeight s')%nat.
           split; [| lia]. split; [exact Henv' |].
           right. exists t0, th', n0, n1. rewrite Hx. split_and!; auto.
        -- exists (3 * encoderLeft env s' + n0 + S n1 + pipeWeight s')%nat.
           split; [| lia]. split; [exact Henv' |].
           right. exists t0, th', n0, (S n1). rewrite Hx. split_and!; auto.
  - injection Hstep as <-.
    destruct Hw as [(t0 & n0 & Hth & Hb & Hw) | (t0 & t1 & n0 & n1 & Hth & H0 & H1 & Hw)];
      rewrite Hth in Hi.
    + destruct i as [| i]; [| destruct i; discriminate].
      injection Hi as ->. rewrite Hcode in Hb.
      destruct n0 as [| n0]; [contradiction |]. destruct Hb as [Hbody Hk].
      exists (3 * encoderLeft env s + n0 + n0 + pipeWeight s)%nat. split; [| lia].
      split; [exact Henv |]. right.
      exists {| Thread.code := k; Thread.acc := [] |},
             {| Thread.code := body; Thread.acc := [] |}, n0, n0.
      cbn. rewrite Hth. split_and!; auto.
    + destruct i as [| [| i]]; [| | discriminate]; injection Hi as ->.
      * rewrite Hcode in H0. destruct n0; contradiction.
      * rewrite Hcode in H1. destruct n1; contradiction.
Qed.

(** A move of the encoder takes from its script more than it adds to
    the pipes. *)
Lemma encoderStep_weight env s s' :
  Sys.encoderStep s = Some s' ->
  Sys.world s' = Sys.world s /\ Sys.threads s' = Sys.threads s
  /\ (3 * encoderLeft env s' + pipeWeight s' < 3 * encoderLeft env s + pipeWeight s)%nat.
Proof.
  unfold Sys.encoderStep, encoderLeft, pipeWeight, Sys.pipeWrite.
  destruct s as [w proc outPipe errPipe capacity closed threads]. cbn.
  destruct proc as [| todo | r]; try discriminate.
  destruct todo as [| [p | p] todo].
  - intros [= <-]. cbn. split_and!; auto; lia.
  - destruct p as [| b p].
    + intros [= <-]. cbn. split_and!; auto; lia.
    + destruct (capacity - length outPipe)%nat as [| room] eqn:Hroom; [discriminate |].
      cbn [take drop].
      assert (Hlen : (length (drop room p) <= length p)%nat)
        by (rewrite length_drop; lia).
      destruct (drop room p) as [| b' p'] eqn:Hdrop; intros [= <-]; cbn in *;
        split_and!; auto; destruct outPipe, errPipe; cbn; lia.
  - destruct p as [| b p].
    + intros [= <-]. cbn. split_and!; auto; lia.
    + destruct (capacity - length errPipe)%nat as [| room] eqn:Hroom; [discriminate |].
      cbn [take drop].
      assert (Hlen : (length (drop room p) <= length p)%nat)
        by (rewrite length_drop; lia).
      destruct (drop room p) as [| b' p'] eqn:Hdrop; intros [= <-]; cbn in *;
        split_and!; auto; destruct outPipe, errPipe; cbn; lia.
Qed.

Lemma movesLeft_step env a w s s' :
  Sys.step a s = Some s' ->
  movesLeft env w s ->
  exists w', movesLeft env w' s' /\ (w' < w)%nat.
Proof.
  destruct a as [i | |]; cbn; intros Hstep Hw.
  - exact (movesLeft_threadStep env i w s s' Hstep Hw).
  - destruct (encoderStep_weight env s s' Hstep) as (Hworld & Hth & Hless).
    destruct Hw as [Henv Hw].
    destruct Hw as [(t0 & n0 & Hth0 & Hb & Hw) | (t0 & t1 & n0 & n1 & Hth0 & H0 & H1 & Hw)].
    + exists (3 * encoderLeft env s' + 2 * n0 + pipeWeight s')%nat. split; [| lia].
      split; [congruence |]. left. exists t0, n0. split_and!; auto. congruence.
    + exists (3 * encoderLeft env s' + n0 + n1 + pipeWeight s')%nat. split; [| lia].
      split; [congruence |]. right. exists t0, t1, n0, n1. split_and!; auto. congruence.
  - unfold Sys.cancelStep in Hstep.
    destruct (Sys.proc s) as [| todo | r] eqn:Hproc; try discriminate.
    injection Hstep as <-. destruct Hw as [Henv Hw].
    assert (Hless : (3 * encoderLeft env (Sys.withProc (Exited (Some killed)) s)
                     + pipeWeight (Sys.withProc (Exited (Some killed)) s)
                     < 3 * encoderLeft env s + pipeWeight s)%nat).
    { unfold encoderLeft, pipeWeight. cbn. rewrite Hproc. lia. }
    destruct Hw as [(t0 & n0 & Hth0 & Hb & Hw) | (t0 & t1 & n0 & n1 & Hth0 & H0 & H1 & Hw)].
    + exists (3 * encoderLeft env (Sys.withProc (Exited (Some killed)) s) + 2 * n0
              + pipeWeight (Sys.withProc (Exited (Some killed)) s))%nat.
      split; [| lia]. split; [exact Henv |].
      left. exists t0, n0. split_and!; [exact Hth0 | exact Hb | apply Nat.le_refl].
    + exists (3 * encoderLeft env (Sys.withProc (Exited (Some killed)) s) + n0 + n1
              + pipeWeight (Sys.withProc (Exited (Some killed)) s))%nat.
      split; [| lia]. split; [exact Henv |].
      right. exists t0, t1, n0, n1.
      split_and!; [exact Hth0 | exact H0 | exact H1 | apply Nat.le_refl].
Qed.

Lemma runs_movesLeft env w s0 n s :
  movesLeft env w s0 -> runs s0 n s ->
  exists w', movesLeft env w' s /\ (w' + n <= w)%nat.
Proof.
  intros H0 Hr. induction Hr as [| n s a s' _ IH Hstep].
  - exists w. split; [exact H0 | lia].
  - destruct IH as (w1 & Hw1 & Hle).
    destruct (movesLeft_step env a w1 s s' Hstep Hw1) as (w2 & Hw2 & Hlt).
    exists w2. split; [exact Hw2 | lia].
Qed.

(** X15: every run of a request is bounded, in every order of moves,
    whatever the client and the encoder do: three moves for each byte and
    each chunk of what the encoder writes, and 25 more. So a request
    cannot go on for ever without the encoder going on. *)
Theorem runs_are_bounded sm o env capacity n s :
  runs (Sys.init env capacity (ServeTranscode sm o)) n s ->
  (n <= 3 * scriptSize (Env.script env) + 25)%nat.
Proof.
  intros Hr.
  assert (H0 : movesLeft env (3 * scriptSize (Env.script env) + 25)
                 (Sys.init env capacity (ServeTranscode sm o))).
  { split; [reflexivity |]. left.
    exists {| Thread.code := ServeTranscode sm o; Thread.acc := [] |}, 11%nat.
    split; [reflexivity |]. split; [apply ServeTranscode_bounded |].
    unfold encoderLeft, pipeWeight. cbn -[ServeTranscode Nat.mul]. lia. }
  destruct (runs_movesLeft env _ _ n s H0 Hr) as (w' & _ & Hle). lia.
Qed.
(** ** The handler, in every order of moves *)

Lemma handlerEvents_app l1 l2 :
  handlerEvents (l1 ++ l2) = handlerEvents l1 ++ handlerEvents l2.
Proof. apply List.filter_app. Qed.

Lemma stdoutReads_app l1 l2 :
  stdoutReads (l1 ++ l2) = stdoutReads l1 ++ stdoutReads l2.
Proof. induction l1 as [| [] l1 IH]; cbn; rewrite ?IH; reflexivity. Qed.

Lemma copied_snoc reads p :
  copied (reads ++ [p]) = copied reads ++ [EReadStdout p; EWrite p].
Proof. unfold copied. rewrite map_app, concat_app. cbn. reflexivity. Qed.

Lemma startFailure_None env :
  startFailure env = None ->
  Env.stdoutPipe env = None /\ Env.stderrPipe env = None /\ Env.start env = None.
Proof.
  unfold startFailure.
  destruct (Env.stdoutPipe env), (Env.stderrPipe env), (Env.start env);
    auto; discriminate.
Qed.

(** *** The output of the encoder on its way *)

(** A call moves what the pipe holds to what is read, or leaves both; it
    starts the encoder at most. *)
Lemma callStep_pipe i a {X : Type} (c : Call X) k s s' :
  Sys.callStep i a c k s = Some s' ->
  World.env (Sys.world s') = World.env (Sys.world s)
  /\ ((stdoutReads (World.trace (Sys.world s'))
       = stdoutReads (World.trace (Sys.world s))
       /\ Sys.outPipe s' = Sys.outPipe s)
      \/ (stdoutReads (World.trace (Sys.world s'))
          = stdoutReads (World.trace (Sys.world s)) ++ [Sys.outPipe s]
          /\ Sys.outPipe s' = [] /\ Sys.outPipe s <> []))
  /\ (Sys.proc s' = Sys.proc s
      \/ (Sys.proc s = NotStarted
          /\ Sys.proc s' = Running (Env.script (World.env (Sys.world s))))).
Proof.
  intros H.
  destruct c; cbn in H; unfold World.write in H; cbn in H;
    repeat case_match; simplify_eq; cbn;
    rewrite ?stdoutReads_app; cbn; rewrite ?app_nil_r;
    (split; [reflexivity |]); (split; [| auto]);
    first [left; split; first [reflexivity | assumption]
          | right; split; [reflexivity | split; [reflexivity | congruence]]].
Qed.

Lemma pipeline_threadStep env i s s' tail :
  Sys.threadStep i s = Some s' ->
  pipeline env s tail ->
  pipeline env s' tail
  /\ forall r, Sys.proc s' = Exited r -> Sys.proc s = Exited r.
Proof.
  intros Hstep (Henv & Hsum & Hproc). unfold Sys.threadStep in Hstep.
  destruct (Sys.threads s !! i) as [th |]; [| discriminate].
  destruct (Thread.code th) as [[] | X c k | body k]; [discriminate | |].
  - destruct (callStep_pipe _ _ _ _ _ _ Hstep) as (He & Hmove & Hp).
    assert (Hsum' : concat (stdoutReads (World.trace (Sys.world s')))
                    ++ Sys.outPipe s' ++ tail
                    = concat (stdoutOf (Env.script env))).
    { destruct Hmove as [[-> ->] | (-> & -> & _)]; [exact Hsum |].
      rewrite concat_app. cbn. rewrite app_nil_r, <- app_assoc. exact Hsum. }
    split; [| intros r Hr; destruct Hp as [Hp | [_ Hp]]; congruence].
    split; [congruence |]. split; [exact Hsum' |].
    destruct Hp as [Hp | [Hp0 Hp]].
    + rewrite Hp. destruct (Sys.proc s); auto.
      destruct Hproc as [Hr Ho].
      destruct Hmove as [[-> ->] | (_ & _ & Hne)]; [auto | contradiction].
    + rewrite Hp. rewrite Hp0 in Hproc. destruct Hproc as [Hr Ho].
      rewrite Henv. rewrite Hr, Ho in Hsum. exact Hsum.
  - injection Hstep as <-. unfold pipeline. cbn. rewrite stdoutReads_app. cbn.
    rewrite app_nil_r. auto.
Qed.

Lemma pipeline_encoderStep env s s' tail :
  Sys.encoderStep s = Some s' ->
  pipeline env s tail ->
  exists tail',
    pipeline env s' tail'
    /\ forall r, Sys.proc s' = Exited r -> tail' = [].
Proof.
  intros Hstep (Henv & Hsum & Hproc). unfold Sys.encoderStep in Hstep.
  destruct (Sys.proc s) as [| todo | err] eqn:Hp; try discriminate. subst tail.
  destruct todo as [| [p | p] todo].
  - injection Hstep as <-. exists []. split; [| reflexivity].
    split; [exact Henv |]. split; [exact Hsum | exact I].
  - destruct p as [| b p].
    + injection Hstep as <-. exists (concat (stdoutOf todo)).
      split; [| discriminate]. split; [exact Henv |]. split; [exact Hsum | reflexivity].
    + destruct (Sys.pipeWrite (Sys.capacity s) (Sys.outPipe s) (b :: p))
        as [[pipe p'] |] eqn:Hw; [| discriminate].
      apply pipeWrite_spec in Hw.
      assert (Hsum' : concat (stdoutReads (World.trace (Sys.world s)))
                      ++ pipe ++ p' ++ concat (stdoutOf todo)
                      = concat (stdoutOf (Env.script env))).
      { rewrite <- Hsum. cbn [stdoutOf concat]. f_equal.
        rewrite !app_assoc. f_equal. exact Hw. }
      destruct p' as [| b' p']; injection Hstep as <-.
      * exists (concat (stdoutOf todo)). split; [| discriminate].
        split; [exact Henv |]. split; [exact Hsum' | reflexivity].
      * exists ((b' :: p') ++ concat (stdoutOf todo)). split; [| discriminate].
        split; [exact Henv |]. split; [exact Hsum' | reflexivity].
  - destruct p as [| b p].
    + injection Hstep as <-. exists (concat (stdoutOf todo)).
      split; [| discriminate]. split; [exact Henv |]. split; [exact Hsum | reflexivity].
    + destruct (Sys.pipeWrite (Sys.capacity s) (Sys.errPipe s) (b :: p))
        as [[pipe p'] |] eqn:Hw; [| discriminate].
      destruct p' as [| b' p']; injection Hstep as <-;
        exists (concat (stdoutOf todo)); (split; [| discriminate]);
        (split; [exact Henv |]); (split; [exact Hsum | reflexivity]).
Qed.

Lemma pipeline_cancelStep env s s' tail :
  Sys.cancelStep s = Some s' -> pipeline env s tail -> pipeline env s' tail.
Proof.
  intros Hstep (Henv & Hsum & Hproc). unfold Sys.cancelStep in Hstep.
  destruct (Sys.proc s); try discriminate. injection Hstep as <-.
  split; [exact Henv |]. split; [exact Hsum | exact I].
Qed.

Lemma pipeline_init env capacity main :
  pipeline env (Sys.init env capacity main) (concat (stdoutOf (Env.script env))).
Proof. split; [reflexivity |]. split; [reflexivity |]. cbn. auto. Qed.

(** In every state that a request can reach, what was read from the pipe,
    what it holds and something more make up the output of the
    encoder. *)
Lemma pipeline_reachable env capacity main s :
  Sys.reachable (Sys.init env capacity main) s -> exists tail, pipeline env s tail.
Proof.
  induction 1 as [| s a s' _ [tail IH] Hstep].
  - eexists. apply pipeline_init.
  - destruct a as [i | |]; cbn in Hstep.
    + exists tail. eapply pipeline_threadStep; eauto.
    + destruct (pipeline_encoderStep _ _ _ _ Hstep IH) as (tail' & H & _). eauto.
    + exists tail. eapply pipeline_cancelStep; eauto.
Qed.

(** Without a cancellation the encoder ends only when it has written
    everything. *)
Lemma pipeline_play env sched s tail :
  ~ In Cancel sched ->
  pipeline env s tail ->
  (forall r, Sys.proc s = Exited r -> tail = []) ->
  exists tail',
    pipeline env (Sys.play sched s) tail'
    /\ forall r, Sys.proc (Sys.play sched s) = Exited r -> tail' = [].
Proof.
  revert s tail. induction sched as [| a sched IH]; intros s tail Hnc Hp Hex; cbn.
  - eauto.
  - assert (Hnc' : ~ In Cancel sched) by (intros H; apply Hnc; right; exact H).
    destruct (Sys.step a s) as [s' |] eqn:Hstep; [| eapply IH; eauto].
    destruct a as [i | |]; cbn in Hstep.
    + destruct (pipeline_threadStep _ _ _ _ _ Hstep Hp) as [Hp' Hex'].
      eapply IH; eauto.
    + destruct (pipeline_encoderStep _ _ _ _ Hstep Hp) as (tail' & Hp' & Hex').
      eapply IH; eauto.
    + exfalso. apply Hnc. left. reflexivity.
Qed.

(** *** The goroutine keeps aside *)

Ltac sys_simpl :=
  cbn [Sys.world Sys.proc Sys.outPipe Sys.errPipe Sys.closed Sys.threads
       Sys.capacity Sys.continue Sys.withWorld Sys.withProc Sys.withOutPipe
       Sys.withErrPipe Sys.withClosed Sys.withThreads World.env World.resp
       World.credit World.trace World.pending World.spawned World.emit
       World.onResp World.setCredit Thread.code Thread.acc fst snd].

Lemma callStep_aside i a {X : Type} (c : Call X) k s s' :
  aside (Vis c k) ->
  Sys.callStep i a c k s = Some s' ->
  exists delta th',
    World.trace (Sys.world s') = World.trace (Sys.world s) ++ delta
    /\ handlerEvents delta = [] /\ stdoutReads delta = []
    /\ World.resp (Sys.world s') = World.resp (Sys.world s)
    /\ World.credit (Sys.world s') = World.credit (Sys.world s)
    /\ World.env (Sys.world s') = World.env (Sys.world s)
    /\ Sys.outPipe s' = Sys.outPipe s
    /\ Sys.proc s' = Sys.proc s
    /\ (Sys.closed s = true -> Sys.closed s' = true)
    /\ Sys.threads s' = <[i := th']> (Sys.threads s)
    /\ aside (Thread.code th').
Proof.
  intros [Hc Hk] Hstep.
  destruct c; try contradiction; cbn in Hstep.
  - destruct (Sys.errPipe s) as [| b pipe] eqn:He.
    + destruct (Sys.proc s) eqn:Hp; try discriminate. injection Hstep as <-.
      exists [EReadAllStderr], {| Thread.code := k a; Thread.acc := [] |}.
      sys_simpl. split_and!; auto.
    + injection Hstep as <-.
      exists [], {| Thread.code := Vis ReadAllStderr k;
                    Thread.acc := a ++ b :: pipe |}.
      sys_simpl. rewrite app_nil_r. split_and!; auto. split; auto.
  - destruct (Sys.proc s) eqn:Hp; try discriminate. injection Hstep as <-.
    exists [EWait], {| Thread.code := k err; Thread.acc := [] |}.
    sys_simpl. split_and!; auto.
  - injection Hstep as <-.
    exists [ELog lvl format args], {| Thread.code := k tt; Thread.acc := [] |}.
    sys_simpl. split_and!; auto.
    unfold handlerEvents. cbn [List.filter]. rewrite Hc. reflexivity.
Qed.

(** A move that leaves the handler and the response alone. *)
Lemma serving_frame env mimeType s s' delta :
  serving env mimeType s ->
  World.trace (Sys.world s') = World.trace (Sys.world s) ++ delta ->
  handlerEvents delta = [] ->
  stdoutReads delta = [] ->
  World.resp (Sys.world s') = World.resp (Sys.world s) ->
  World.credit (Sys.world s') = World.credit (Sys.world s) ->
  World.env (Sys.world s') = World.env (Sys.world s) ->
  (Sys.closed s = true -> Sys.closed s' = true) ->
  (Sys.outPipe s = [] -> (exists r, Sys.proc s = Exited r) ->
   Sys.outPipe s' = [] /\ exists r, Sys.proc s' = Exited r) ->
  (Sys.proc s = NotStarted -> Sys.proc s' = NotStarted) ->
  (forall m rest,
      Sys.threads s = m :: rest ->
      Forall (fun t => aside (Thread.code t)) rest ->
      exists rest',
        Sys.threads s' = m :: rest'
        /\ Forall (fun t => aside (Thread.code t)) rest') ->
  serving env mimeType s'.
Proof.
  intros (Henv & Hbody & Hcredit & m & rest & Hth & Hrest & Hstage)
         Htr Hev Hrd Hresp Hcr He Hclosed Hend Hns Hthreads.
  destruct (Hthreads m rest Hth Hrest) as (rest' & Hth' & Hrest').
  unfold serving. cbn zeta.
  rewrite Htr, Hresp, Hcr, He, handlerEvents_app, stdoutReads_app, Hev, Hrd,
    !app_nil_r.
  split; [exact Henv |]. split; [exact Hbody |]. split; [exact Hcredit |].
  exists m, rest'. split; [exact Hth' |]. split; [exact Hrest' |].
  destruct Hstage as [(started & todo & Hop & Htodo & Hst & Hreads & Hr)
                     | [Hcopy | (err & ending & after & Hevs & Hended & Hcom & Hcl)]].
  - left. exists started, todo. auto 10.
  - right. left. exact Hcopy.
  - right. right. exists err, ending, after.
    split; [exact Hevs |]. split; [| auto].
    destruct Hended as [(-> & Hfit & Hhow) | Hfail]; [left | right; exact Hfail].
    split; [reflexivity |]. split; [exact Hfit |].
    destruct Hhow as [[Hc ->] | (Hout & Hex & ->)]; [left; auto |].
    right. destruct (Hend Hout Hex) as [Hout' Hex']. auto.
Qed.

Lemma serving_otherStep env mimeType j s s' :
  Sys.threadStep (S j) s = Some s' -> serving env mimeType s -> serving env mimeType s'.
Proof.
  intros Hstep Hs.
  pose proof Hs as (_ & _ & _ & m & rest & Hth & Hrest & _).
  unfold Sys.threadStep in Hstep. rewrite Hth in Hstep. cbn [lookup list_lookup] in Hstep.
  destruct (rest !! j) as [th |] eqn:Hj; [| discriminate].
  pose proof (proj1 (Forall_lookup _ _) Hrest j th Hj) as Hth0. cbn in Hth0.
  destruct (Thread.code th) as [[] | X c k | body k] eqn:Hcode;
    [discriminate | | contradiction].
  destruct (callStep_aside _ _ _ _ _ _ Hth0 Hstep)
    as (delta & th' & Htr & Hev & Hrd & Hresp & Hcr & He & Hout & Hp & Hcl & Hth' & Has).
  apply (serving_frame env mimeType s s' delta Hs); auto.
  - intros Ho Hex. rewrite Hout, Hp. auto.
  - intros Hn. congruence.
  - intros m0 rest0 Hth0' Hrest0. rewrite Hth in Hth0'. injection Hth0' as <- <-.
    exists (<[j := th']> rest). split; [rewrite Hth', Hth; reflexivity |].
    apply Forall_insert; assumption.
Qed.

Lemma serving_encoderStep env mimeType s s' :
  Sys.encoderStep s = Some s' -> serving env mimeType s -> serving env mimeType s'.
Proof.
  intros Hstep Hs.
  destruct (encoderStep_world _ _ Hstep) as [Hw Hth].
  apply (serving_frame env mimeType s s' [] Hs); rewrite ?Hw, ?app_nil_r; auto.
  - unfold Sys.encoderStep in Hstep. intros Hc.
    repeat case_match; simplify_eq; cbn; auto.
  - intros _ [r Hr]. unfold Sys.encoderStep in Hstep. rewrite Hr in Hstep. discriminate.
  - intros Hn. unfold Sys.encoderStep in Hstep. rewrite Hn in Hstep. discriminate.
  - intros m rest Hm Hrest. exists rest. rewrite Hth. auto.
Qed.

Lemma serving_cancelStep env mimeType s s' :
  Sys.cancelStep s = Some s' -> serving env mimeType s -> serving env mimeType s'.
Proof.
  intros Hstep Hs. unfold Sys.cancelStep in Hstep.
  destruct (Sys.proc s) eqn:Hp; try discriminate. injection Hstep as <-.
  apply (serving_frame env mimeType s _ [] Hs); sys_simpl; rewrite ?app_nil_r; auto.
  - intros _ [r Hr]. congruence.
  - intros Hn. congruence.
  - intros m rest Hm Hrest. exists rest. auto.
Qed.

(** *** The request's thread *)

Lemma clientTakes_nil env : clientTakes env [] = [].
Proof.
  unfold clientTakes. destruct (Env.client env) as [[n e] |]; [apply take_nil | reflexivity].
Qed.

Lemma fits_nil env : fits env [].
Proof. unfold fits. destruct (Env.client env) as [[n e] |]; cbn; [lia | exact I]. Qed.

Lemma copyEnded_same env s s' reads err ending :
  Sys.closed s' = Sys.closed s ->
  Sys.outPipe s' = Sys.outPipe s ->
  Sys.proc s' = Sys.proc s ->
  copyEnded env s reads err ending -> copyEnded env s' reads err ending.
Proof. unfold copyEnded. intros -> -> ->. auto. Qed.

(** A move of the request's thread on its way to the response. *)
Lemma serving_before env mimeType s s' ev started todo m' rest' :
  Sys.world s' = World.emit ev (Sys.world s) ->
  isHandlerEvent ev = false ->
  stdoutReads [ev] = [] ->
  Sys.threads s' = m' :: rest' ->
  Forall (fun t => aside (Thread.code t)) rest' ->
  opening started todo (Thread.code m') ->
  (started = false -> Sys.proc s' = NotStarted) ->
  World.env (Sys.world s) = env ->
  Response.body (World.resp (Sys.world s))
  = clientTakes env (concat (stdoutReads (World.trace (Sys.world s)))) ->
  World.credit (Sys.world s) = creditLeft env (Response.body (World.resp (Sys.world s))) ->
  handlerEvents (World.trace (Sys.world s)) ++ todo = opened mimeType ->
  stdoutReads (World.trace (Sys.world s)) = [] ->
  World.resp (Sys.world s)
  = respBefore mimeType (handlerEvents (World.trace (Sys.world s))) ->
  serving env mimeType s'.
Proof.
  intros Hw Hev Hrd Hth Hrest Hop Hns Henv Hbody Hcredit Htodo Hreads Hresp.
  assert (Hev1 : handlerEvents [ev] = []).
  { unfold handlerEvents. cbn [List.filter]. rewrite Hev. reflexivity. }
  unfold serving. cbn zeta. rewrite Hw. sys_simpl.
  rewrite handlerEvents_app, stdoutReads_app, Hrd, Hev1, !app_nil_r.
  split; [exact Henv |]. split; [exact Hbody |]. split; [exact Hcredit |].
  exists m', rest'. split; [exact Hth |]. split; [exact Hrest |].
  left. exists started, todo. auto 10.
Qed.

Lemma serving_mainStep env mimeType s s' :
  startFailure env = None ->
  Sys.threadStep 0 s = Some s' -> serving env mimeType s -> serving env mimeType s'.
Proof.
  intros Hsf Hstep (Henv & Hbody & Hcredit & m & rest & Hth & Hrest & Hstage).
  destruct (startFailure_None env Hsf) as (Hso & Hse & Hst).
  unfold Sys.threadStep in Hstep. rewrite Hth in Hstep.
  cbn [lookup list_lookup] in Hstep.
  destruct Hstage as [(started & todo & Hop & Htodo & Hns & Hreads & Hresp)
                     | [(Hcode & Hevs & Hcom & Hfit)
                       | (err & ending & after & Hevs & Hended & Hcom & Hcl)]].
  - (* on its way to the copy *)
    destruct (Thread.code m) as [[] | X c k | body k] eqn:Hcode; cbn in Hop;
      [contradiction | |].
    + destruct c; try contradiction; cbn in Hstep.
      * (* ReadLock *)
        injection Hstep as <-.
        eapply (serving_before env mimeType s _ (EReadLock path) started todo);
          sys_simpl; rewrite ?Hth; try reflexivity; eauto.
      * (* StdoutPipe *)
        rewrite Henv, Hso in Hstep. injection Hstep as <-.
        eapply (serving_before env mimeType s _ EStdoutPipe started todo);
          sys_simpl; rewrite ?Hth; try reflexivity; eauto.
      * (* StderrPipe *)
        rewrite Henv, Hse in Hstep. injection Hstep as <-.
        eapply (serving_before env mimeType s _ EStderrPipe started todo);
          sys_simpl; rewrite ?Hth; try reflexivity; eauto.
      * (* Start *)
        destruct Hop as [-> Hop]. rewrite Henv, Hst, (Hns eq_refl) in Hstep.
        injection Hstep as <-.
        eapply (serving_before env mimeType s _ (EStart (Cmd.Args cmd)) true todo);
          sys_simpl; rewrite ?Hth; try reflexivity; eauto. discriminate.
      * (* AttachCommand *)
        injection Hstep as <-.
        eapply (serving_before env mimeType s _ EAttachCommand started todo);
          sys_simpl; rewrite ?Hth; try reflexivity; eauto.
      * (* HeaderSet *)
        destruct Hop as (rest0 & -> & Hop). injection Hstep as <-.
        unfold opened in Htodo.
        destruct (handlerEvents (World.trace (Sys.world s))) as [| e1 [| e2 [| e3 l]]]
          eqn:Hdone; cbn in Htodo; simplify_eq.
        unfold serving. sys_simpl. rewrite Hth, handlerEvents_app, stdoutReads_app, Hdone.
        cbn [insert list_insert]. rewrite Hresp.
        split; [reflexivity |]. split; [rewrite Hreads; symmetry; apply clientTakes_nil |].
        split; [rewrite Hcredit, Hresp; reflexivity |].
        eexists _, rest. split; [reflexivity |]. split; [exact Hrest |].
        left. exists started, [EWriteHeader StatusOK]. sys_simpl.
        split; [exact Hop |]. split; [reflexivity |]. split; [exact Hns |].
        split; [rewrite Hreads; reflexivity | reflexivity].
      * (* WriteHeader *)
        destruct Hop as (-> & Hk). injection Hstep as <-.
        unfold opened in Htodo.
        destruct (handlerEvents (World.trace (Sys.world s))) as [| e1 [| e2 [| e3 l]]]
          eqn:Hdone; cbn in Htodo; simplify_eq.
        unfold serving. sys_simpl. rewrite Hth, handlerEvents_app, stdoutReads_app, Hdone.
        cbn [insert list_insert]. rewrite Hresp, Hreads.
        split; [reflexivity |]. split; [symmetry; apply clientTakes_nil |].
        split; [rewrite Hcredit, Hresp; reflexivity |].
        eexists _, rest. split; [reflexivity |]. split; [exact Hrest |].
        right. left. sys_simpl. split; [exact Hk |]. split; [reflexivity |].
        split; [| apply fits_nil].
        split; [reflexivity |]. cbn. apply lookup_insert_eq.
    + (* the goroutine is started *)
      destruct Hop as [Hb Hop]. injection Hstep as <-.
      eapply (serving_before env mimeType s _ EGo started todo);
        sys_simpl; rewrite ?Hth; try reflexivity; eauto.
      apply Forall_app. split; [exact Hrest |]. constructor; [exact Hb | constructor].
  - (* in the copy *)
    rewrite Hcode in Hstep. cbn [Sys.callStep] in Hstep.
    destruct Hcom as [Hstatus Hsent].
    destruct (Sys.closed s) eqn:Hclosed.
    { injection Hstep as <-.
      unfold serving. sys_simpl. rewrite Hth, handlerEvents_app, stdoutReads_app.
      cbn [insert list_insert]. rewrite !app_nil_r.
      split; [exact Henv |]. split; [exact Hbody |]. split; [exact Hcredit |].
      eexists _, rest. split; [reflexivity |]. split; [exact Hrest |].
      right. right. exists (Some ErrClosed), [EReadStdoutEnd (Some ErrClosed)], [].
      sys_simpl. rewrite Hevs, app_nil_r, <- !app_assoc.
      split; [reflexivity |]. split; [| split; [split; assumption |]].
      - left. split; [reflexivity |]. split; [exact Hfit |]. left. auto.
      - left. auto. }
    destruct (Sys.outPipe s) as [| b pipe] eqn:Hpipe.
    { destruct (Sys.proc s) as [| | r] eqn:Hproc; try discriminate.
      injection Hstep as <-.
      unfold serving. sys_simpl. rewrite Hth, handlerEvents_app, stdoutReads_app.
      cbn [insert list_insert]. rewrite !app_nil_r.
      split; [exact Henv |]. split; [exact Hbody |]. split; [exact Hcredit |].
      eexists _, rest. split; [reflexivity |]. split; [exact Hrest |].
      right. right.
      exists (Env.stdoutEnd env), [EReadStdoutEnd (Env.stdoutEnd env)], [].
      sys_simpl. rewrite Hevs, Henv, app_nil_r, <- !app_assoc.
      split; [reflexivity |]. split; [| split; [split; assumption |]].
      - left. split; [reflexivity |]. split; [exact Hfit |]. right.
        split; [exact Hpipe |]. split; [eauto | reflexivity].
      - left. auto. }
    (* a chunk is read and written *)
    cbv beta iota in Hstep.
    assert (Hne : b :: pipe <> []) by discriminate.
    remember (b :: pipe) as p eqn:Hp. clear Hp.
    assert (Hall : Response.body (World.resp (Sys.world s))
                   = concat (stdoutReads (World.trace (Sys.world s)))).
    { rewrite Hbody. unfold clientTakes, fits in *.
      destruct (Env.client env) as [[n e] |]; [| reflexivity].
      apply take_ge. exact Hfit. }
    unfold World.write in Hstep. sys_simpl. cbn [World.credit World.emit] in Hstep.
    rewrite Hcredit in Hstep. unfold creditLeft in Hstep.
    destruct (Response_Write_committed p (World.resp (Sys.world s)) _ Hstatus)
      as (Hs1 & Hsent1 & _ & Hb1).
    destruct (Env.client env) as [[n e] |] eqn:Hclient.
    + destruct (Nat.leb_spec (length p) (n - length (Response.body (World.resp (Sys.world s)))))
        as [Hle | Hgt].
      * injection Hstep as <-.
        unfold serving. sys_simpl. rewrite Hth, !handlerEvents_app, !stdoutReads_app.
        cbn [insert list_insert]. rewrite Hb1.
        change (stdoutReads [EReadStdout p]) with [p].
        change (stdoutReads [EWrite p]) with (@nil (list byte)).
        change (handlerEvents [EReadStdout p]) with [EReadStdout p].
        change (handlerEvents [EWrite p]) with [EWrite p].
        rewrite !app_nil_r, concat_app. cbn [concat]. rewrite app_nil_r.
        split; [exact Henv |].
        split.
        { unfold clientTakes. rewrite Hclient, Hall. symmetry. apply take_ge.
          rewrite length_app. rewrite Hall in Hle. unfold fits in Hfit.
          rewrite Hclient in Hfit. lia. }
        split.
        { unfold creditLeft. rewrite Hclient, length_app. do 2 f_equal. lia. }
        eexists _, rest. split; [reflexivity |]. split; [exact Hrest |].
        right. left. sys_simpl. split; [reflexivity |].
        split; [rewrite Hevs, copied_snoc, <- !app_assoc; reflexivity |].
        split; [split; [exact Hs1 | rewrite Hsent1; exact Hsent] |].
        unfold fits in *. rewrite Hclient in *. rewrite length_app.
        rewrite Hall in Hle. lia.
      * injection Hstep as <-.
        destruct (Response_Write_committed
                    (take (n - length (Response.body (World.resp (Sys.world s)))) p)
                    (World.resp (Sys.world s)) _ Hstatus)
          as (Hs2 & Hsent2 & _ & Hb2).
        unfold serving. sys_simpl. rewrite Hth, !handlerEvents_app, !stdoutReads_app.
        cbn [insert list_insert]. rewrite Hb2.
        change (stdoutReads [EReadStdout p]) with [p].
        change (stdoutReads [EWrite p]) with (@nil (list byte)).
        change (handlerEvents [EReadStdout p]) with [EReadStdout p].
        change (handlerEvents [EWrite p]) with [EWrite p].
        rewrite !app_nil_r, concat_app. cbn [concat]. rewrite app_nil_r.
        unfold fits in Hfit. rewrite Hclient in Hfit.
        split; [exact Henv |].
        split.
        { unfold clientTakes. rewrite Hclient, take_app, Hall.
          f_equal. symmetry. apply take_ge. exact Hfit. }
        split.
        { unfold creditLeft. rewrite Hclient, length_app, length_take. do 2 f_equal. lia. }
        eexists _, rest. split; [reflexivity |]. split; [exact Hrest |].
        right. right. exists (Some e), [], []. sys_simpl.
        split; [rewrite Hevs, copied_snoc, !app_nil_r, <- !app_assoc; reflexivity |].
        split; [| split; [split; [exact Hs2 | rewrite Hsent2; exact Hsent] |]].
        -- right. split; [reflexivity |]. exists n, e.
           split; [exact Hclient |]. split; [reflexivity |].
           rewrite concat_app, length_app. cbn [concat]. rewrite app_nil_r.
           rewrite Hall in Hgt. lia.
        -- left. auto.
    + injection Hstep as <-.
      unfold serving. sys_simpl. rewrite Hth, !handlerEvents_app, !stdoutReads_app.
      cbn [insert list_insert]. rewrite Hb1.
      change (stdoutReads [EReadStdout p]) with [p].
      change (stdoutReads [EWrite p]) with (@nil (list byte)).
      change (handlerEvents [EReadStdout p]) with [EReadStdout p].
      change (handlerEvents [EWrite p]) with [EWrite p].
      rewrite !app_nil_r, concat_app. cbn [concat]. rewrite app_nil_r.
      split; [exact Henv |].
      split; [unfold clientTakes; rewrite Hclient, Hall; reflexivity |].
      split; [rewrite Hcredit; unfold creditLeft; rewrite Hclient; reflexivity |].
      eexists _, rest. split; [reflexivity |]. split; [exact Hrest |].
      right. left. sys_simpl. split; [reflexivity |].
      split; [rewrite Hevs, copied_snoc, <- !app_assoc; reflexivity |].
      split; [split; [exact Hs1 | rewrite Hsent1; exact Hsent] |].
      unfold fits. rewrite Hclient. exact I.
  - (* past the copy *)
    destruct Hcom as [Hstatus Hsent].
    assert (Hflush : Response.Flush (World.resp (Sys.world s)) = World.resp (Sys.world s)).
    { unfold Response.Flush. apply (Response_WriteHeader_committed _ _ _ Hstatus). }
    assert (Hdo_flush :
              forall after0,
                handlerEvents (World.trace (Sys.world s))
                = opened mimeType
                  ++ copied (stdoutReads (World.trace (Sys.world s)))
                  ++ ending ++ after0 ->
                after0 = copyLog err ->
                serving env mimeType
                  (Sys.continue 0 (Ret tt)
                     (Sys.withWorld
                        (World.onResp Response.Flush (World.emit EFlush (Sys.world s)))
                        s))).
    { intros after0 Hev0 Hafter0.
      unfold serving. sys_simpl. rewrite Hth, handlerEvents_app, stdoutReads_app, Hflush.
      cbn [insert list_insert].
      change (stdoutReads [EFlush]) with (@nil (list byte)).
      change (handlerEvents [EFlush]) with [EFlush]. rewrite !app_nil_r.
      split; [exact Henv |]. split; [exact Hbody |]. split; [exact Hcredit |].
      eexists _, rest. split; [reflexivity |]. split; [exact Hrest |].
      right. right. exists err, ending, (copyLog err ++ [EFlush]). sys_simpl.
      split; [rewrite Hev0, Hafter0, <- !app_assoc; reflexivity |].
      split; [eapply copyEnded_same; [| | | exact Hended]; reflexivity |].
      split; [split; assumption |]. right. right. auto. }
    destruct Hcl as [[Hcode ->] | [[Hcode ->] | [Hcode ->]]]; rewrite Hcode in Hstep.
    + destruct (copyLog err) as [| ev l] eqn:Hlog.
      * assert (Hac : afterCopy err = call Flush).
        { unfold copyLog in Hlog. unfold afterCopy.
          destruct err as [e |]; [| reflexivity].
          destruct (errors_Is e EPIPE); [reflexivity | discriminate]. }
        rewrite Hac in Hstep. cbn in Hstep. injection Hstep as <-.
        apply (Hdo_flush []); [exact Hevs | reflexivity].
      * unfold copyLog in Hlog. destruct err as [e |]; [| discriminate].
        unfold afterCopy in Hstep.
        destruct (errors_Is e EPIPE) eqn:HE; [discriminate |].
        injection Hlog as <- <-. cbn in Hstep. injection Hstep as <-.
        unfold serving. sys_simpl. rewrite Hth, handlerEvents_app, stdoutReads_app.
        cbn [insert list_insert].
        change (stdoutReads [ELog LevelError
                               "[transcode] error serving transcoded video file: %v"
                               [Error e]])
          with (@nil (list byte)).
        change (handlerEvents [ELog LevelError
                                 "[transcode] error serving transcoded video file: %v"
                                 [Error e]])
          with [ELog LevelError "[transcode] error serving transcoded video file: %v"
                  [Error e]].
        rewrite !app_nil_r.
        split; [exact Henv |]. split; [exact Hbody |]. split; [exact Hcredit |].
        eexists _, rest. split; [reflexivity |]. split; [exact Hrest |].
        right. right. exists (Some e), ending, (copyLog (Some e)). sys_simpl.
        unfold copyLog. rewrite HE.
        split; [rewrite Hevs, !app_nil_r, <- !app_assoc; reflexivity |].
        split; [eapply copyEnded_same; [| | | exact Hended]; reflexivity |].
        split; [split; assumption |]. right. left.
        split; [reflexivity |]. unfold copyLog. rewrite HE. reflexivity.
    + cbn in Hstep. injection Hstep as <-.
      apply (Hdo_flush (copyLog err)); [exact Hevs | reflexivity].
    + discriminate Hstep.
Qed.

(** *** The request of the file *)

Lemma stderrTask_aside cmd : aside (stderrTask cmd).
Proof.
  unfold stderrTask. cbn. split; [exact I |]. intros errStr.
  split; [exact I |]. intros errCmd.
  destruct (if negb (String.eqb _ "") then _ else _) as [x |]; [| exact I].
  destruct (negb (errors_As_ExitError x)); cbn; [| exact I].
  split; [reflexivity | intros; exact I].
Qed.

Lemma handler_opening mimeType started :
  opening started (opened mimeType) (handler mimeType).
Proof.
  rewrite handler_afterCopy. cbn. eexists. split; [reflexivity |].
  split; reflexivity.
Qed.

Lemma ServeTranscode_opening sm o :
  opening false (opened (StreamFormat.MimeType (TranscodeOptions.StreamType o)))
    (ServeTranscode sm o).
Proof.
  unfold ServeTranscode, getTranscodeStream.
  cbn -[makeStreamArgs handler stderrTask opened].
  split; [reflexivity |]. split; [apply stderrTask_aside | apply handler_opening].
Qed.

(** A request on its way to its copy has a call on the response still to
    make. *)
Lemma opening_todo (p : Prog unit) :
  forall started todo, opening started todo p -> todo <> [].
Proof.
  revert p. fix IH 1. intros p started todo.
  destruct p as [[] | X c k | body k]; cbn.
  - intros [].
  - destruct c; try solve [intros []].
    + apply IH.
    + apply IH.
    + apply IH.
    + intros [_ H]. exact (IH _ _ _ H).
    + apply IH.
    + intros (rest & -> & _). discriminate.
    + intros [-> _]. discriminate.
  - intros [_ H]. exact (IH _ _ _ H).
Qed.

Lemma serving_init sm o env capacity :
  serving env (StreamFormat.MimeType (TranscodeOptions.StreamType o))
    (Sys.init env capacity (ServeTranscode sm o)).
Proof.
  unfold serving, Sys.init. sys_simpl. cbn [World.init World.env World.resp World.credit
                                            World.trace stdoutReads concat handlerEvents
                                            List.filter app Response.fresh Response.body].
  split; [reflexivity |]. split; [symmetry; apply clientTakes_nil |].
  split.
  { unfold creditLeft. destruct (Env.client env) as [[n e] |]; [| reflexivity].
    cbn [length]. rewrite Nat.sub_0_r. reflexivity. }
  eexists _, []. split; [reflexivity |]. split; [constructor |].
  left. exists false, (opened (StreamFormat.MimeType (TranscodeOptions.StreamType o))).
  split; [apply ServeTranscode_opening |]. auto.
Qed.

(** In every state that a request can reach when the pipes and the
    encoder can be had, its thread is on its way to the copy, in it, or
    past it, with the response and the log to match. *)
Lemma serving_reachable sm o env capacity s :
  startFailure env = None ->
  Sys.reachable (Sys.init env capacity (ServeTranscode sm o)) s ->
  serving env (StreamFormat.MimeType (TranscodeOptions.StreamType o)) s.
Proof.
  intros Hsf Hreach. induction Hreach as [| s a s' _ IH Hstep].
  - apply serving_init.
  - destruct a as [[| j] | |]; cbn in Hstep.
    + eapply serving_mainStep; eauto.
    + eapply serving_otherStep; eauto.
    + eapply serving_encoderStep; eauto.
    + eapply serving_cancelStep; eauto.
Qed.

Lemma respBefore_status mimeType done :
  Response.status (respBefore mimeType done) = None.
Proof. destruct done; reflexivity. Qed.

(** The first eight moves of the thread of a request take it to its
    copy, with the content type and the status written and nothing
    else. *)
Lemma boot_in_copy sm o env capacity :
  startFailure env = None ->
  let s0 := Sys.play boot (Sys.init env capacity (ServeTranscode sm o)) in
  handlerEvents (World.trace (Sys.world s0))
  = opened (StreamFormat.MimeType (TranscodeOptions.StreamType o))
  /\ exists m rest,
       Sys.threads s0 = m :: rest /\ Thread.code m = Vis CopyStdout afterCopy.
Proof.
  intros Hstart.
  destruct env as [so se st script sEnd wait client].
  unfold startFailure in Hstart. cbn in Hstart.
  destruct so; [discriminate |]. destruct se; [discriminate |]. subst st.
  cbn -[makeStreamArgs stderrTask].
  split; [reflexivity |]. eexists _, _. split; reflexivity.
Qed.

(** C1, as the code has it: in every order in which the threads of a
    request that gets its handler, the encoder and a cancellation move,
    the handler sets the content type to the MIME type of the format and
    writes status 200 before it reads anything; then it is in its
    [io.Copy] until that ends: each chunk that it reads from the pipe of
    the encoder's standard output it writes to the response before the
    next read, the bytes read are those that the encoder wrote, in
    order, and the body is what the client takes of them. The copy ends
    at a read that finds the end of the output or a closed pipe, or at a
    write that the client does not take whole; only then does the
    handler make its entry in the log, if any, and flush, once. While
    the handler is in the copy and the pipe is open and holds bytes, its
    move reads them and writes them to the response. The first eight
    moves of the request's thread take it to the copy, with the content
    type and the status written. *)
Theorem handler_streams_then_flushes sm o env capacity s :
  startFailure env = None ->
  Sys.reachable (Sys.init env capacity (ServeTranscode sm o)) s ->
  let tr := World.trace (Sys.world s) in
  let r := World.resp (Sys.world s) in
  let reads := stdoutReads tr in
  let mimeType := StreamFormat.MimeType (TranscodeOptions.StreamType o) in
  (exists tail,
      concat reads ++ Sys.outPipe s ++ tail = concat (stdoutOf (Env.script env)))
  /\ Response.body r = clientTakes env (concat reads)
  /\ ((exists todo,
          todo <> [] /\ handlerEvents tr ++ todo = opened mimeType
          /\ reads = [] /\ Response.status r = None)
      \/ (handlerEvents tr = opened mimeType ++ copied reads
          /\ committed mimeType r
          /\ fits env (concat reads)
          /\ exists m rest,
               Sys.threads s = m :: rest
               /\ Thread.code m = Vis CopyStdout afterCopy)
      \/ (exists err ending after,
            handlerEvents tr = opened mimeType ++ copied reads ++ ending ++ after
            /\ copyEnded env s reads err ending
            /\ committed mimeType r
            /\ exists m rest,
                 Sys.threads s = m :: rest
                 /\ closing err after (Thread.code m)))
  /\ (forall m rest,
        Sys.threads s = m :: rest ->
        Thread.code m = Vis CopyStdout afterCopy ->
        Sys.closed s = false ->
        Sys.outPipe s <> [] ->
        exists s',
          Sys.step (ThreadOf 0) s = Some s'
          /\ World.trace (Sys.world s')
             = tr ++ [EReadStdout (Sys.outPipe s); EWrite (Sys.outPipe s)]
          /\ Sys.outPipe s' = []
          /\ Response.body (World.resp (Sys.world s'))
             = clientTakes env (concat reads ++ Sys.outPipe s))
  /\ (let s0 := Sys.play boot (Sys.init env capacity (ServeTranscode sm o)) in
      handlerEvents (World.trace (Sys.world s0)) = opened mimeType
      /\ exists m rest,
           Sys.threads s0 = m :: rest
           /\ Thread.code m = Vis CopyStdout afterCopy).
Proof.
  intros Hsf Hreach tr r reads mimeType.
  destruct (pipeline_reachable _ _ _ _ Hreach) as (tail & _ & Hsum & _).
  pose proof (serving_reachable sm o env capacity s Hsf Hreach)
    as (Henv & Hbody & Hcredit & m & rest & Hth & Hrest & Hstage).
  fold mimeType tr reads r in Hbody, Hstage.
  split; [exists tail; exact Hsum |]. split; [exact Hbody |].
  split; [| split; [| exact (boot_in_copy sm o env capacity Hsf)]].
  - destruct Hstage as [(started & todo & Hop & Htodo & Hns & Hreads & Hresp)
                       | [(Hcode & Hevs & Hcom & Hfit)
                         | (err & ending & after & Hevs & Hended & Hcom & Hcl)]].
    + left. exists todo. split; [exact (opening_todo _ _ _ Hop) |].
      split; [exact Htodo |]. split; [exact Hreads |].
      subst r. rewrite Hresp. apply respBefore_status.
    + right. left. eauto 10.
    + right. right. exists err, ending, after. eauto 10.
  - intros m0 rest0 Hth0 Hcode Hclosed Hpipe.
    assert (Hmove : exists s',
               Sys.step (ThreadOf 0) s = Some s'
               /\ World.trace (Sys.world s')
                  = tr ++ [EReadStdout (Sys.outPipe s); EWrite (Sys.outPipe s)]
               /\ Sys.outPipe s' = []).
    { cbn [Sys.step]. unfold Sys.threadStep. rewrite Hth0. cbn [lookup list_lookup].
      rewrite Hcode. cbn [Sys.callStep]. rewrite Hclosed.
      destruct (Sys.outPipe s) as [| b pipe] eqn:Hout; [contradiction |].
      cbv beta iota. remember (b :: pipe) as p eqn:Hp. clear Hp.
      unfold World.write. sys_simpl. cbn [World.credit World.emit].
      destruct (World.credit (Sys.world s)) as [[n e] |];
        [destruct (length p <=? n)%nat |];
        eexists; (split; [reflexivity |]); sys_simpl; rewrite <- app_assoc; auto. }
    destruct Hmove as (s' & Hstep & Htr & Hout).
    exists s'. split; [exact Hstep |]. split; [exact Htr |]. split; [exact Hout |].
    pose proof (serving_reachable sm o env capacity s' Hsf
                  (Sys.reachable_step _ _ _ _ Hreach Hstep)) as (_ & Hbody' & _).
    rewrite Hbody', Htr, stdoutReads_app. cbn [stdoutReads].
    rewrite concat_app. cbn [concat]. rewrite app_nil_r. reflexivity.
Qed.

Lemma afterCopy_not_returned err : afterCopy err <> Ret tt.
Proof.
  unfold afterCopy. destruct err as [e |]; [| discriminate].
  destruct (errors_Is e EPIPE); discriminate.
Qed.

(** What a request that gets its handler has done when its thread has
    returned: the copy has ended, the entry in the log that it asks for
    is made, and the response is flushed. *)
Lemma serving_returned env mimeType s m rest :
  serving env mimeType s ->
  Sys.threads s = m :: rest ->
  returned m ->
  exists err ending,
    handlerEvents (World.trace (Sys.world s))
    = opened mimeType ++ copied (stdoutReads (World.trace (Sys.world s)))
      ++ ending ++ copyLog err ++ [EFlush]
    /\ copyEnded env s (stdoutReads (World.trace (Sys.world s))) err ending
    /\ committed mimeType (World.resp (Sys.world s)).
Proof.
  intros (_ & _ & _ & m0 & rest0 & Hth0 & _ & Hstage) Hth Hret.
  rewrite Hth in Hth0. injection Hth0 as <- <-. unfold returned in Hret.
  destruct Hstage as [(started & todo & Hop & _)
                     | [(Hcode & _)
                       | (err & ending & after & Hevs & Hended & Hcom & Hcl)]].
  - rewrite Hret in Hop. destruct Hop.
  - rewrite Hret in Hcode. discriminate Hcode.
  - exists err, ending. split; [| auto].
    destruct Hcl as [[Hcode _] | [[Hcode _] | [_ ->]]].
    + rewrite Hret in Hcode. symmetry in Hcode.
      destruct (afterCopy_not_returned _ Hcode).
    + rewrite Hret in Hcode. discriminate Hcode.
    + exact Hevs.
Qed.

(** X1: a request that gets its handler, from a client that takes
    everything and without a cancellation, in any order of the moves of
    its threads and of the encoder: when its thread has returned, the
    status is 200 and the body is all that the copy has read. Either the
    copy ended at the end of the encoder's output, and the body is all
    that the encoder wrote; or [Wait] had closed the pipe before the copy
    ended: the body is the prefix of the output that was read before
    that, and the handler has logged the error of the read on the closed
    pipe. A stream cut short in this way is never silent. *)
Theorem whole_stream_unless_closed sm o env capacity sched :
  startFailure env = None ->
  Env.client env = None ->
  ~ In Cancel sched ->
  let s := Sys.play sched (Sys.init env capacity (ServeTranscode sm o)) in
  let tr := World.trace (Sys.world s) in
  let r := World.resp (Sys.world s) in
  let mimeType := StreamFormat.MimeType (TranscodeOptions.StreamType o) in
  forall m rest,
    Sys.threads s = m :: rest ->
    returned m ->
    Response.status r = Some StatusOK
    /\ Response.body r = concat (stdoutReads tr)
    /\ ((Response.body r = concat (stdoutOf (Env.script env))
         /\ handlerEvents tr
            = opened mimeType ++ copied (stdoutReads tr)
              ++ [EReadStdoutEnd (Env.stdoutEnd env)]
              ++ copyLog (Env.stdoutEnd env) ++ [EFlush])
        \/ (Sys.closed s = true
            /\ Response.body r `prefix_of` concat (stdoutOf (Env.script env))
            /\ handlerEvents tr
               = opened mimeType ++ copied (stdoutReads tr)
                 ++ [EReadStdoutEnd (Some ErrClosed);
                     ELog LevelError
                       "[transcode] error serving transcoded video file: %v"
                       [Error ErrClosed];
                     EFlush])).
Proof.
  intros Hsf Hclient Hnc s tr r mimeType m rest Hth Hret.
  assert (Hreach : Sys.reachable (Sys.init env capacity (ServeTranscode sm o)) s).
  { apply play_reachable. constructor. }
  pose proof (serving_reachable sm o env capacity s Hsf Hreach) as Hs.
  destruct (pipeline_play env sched _ _ Hnc
              (pipeline_init env capacity (ServeTranscode sm o)))
    as (tail & (_ & Hsum & _) & Hwhole); [discriminate |].
  fold s in Hsum, Hwhole. fold tr in Hsum.
  destruct (serving_returned _ _ _ _ _ Hs Hth Hret)
    as (err & ending & Hevs & Hended & Hstatus & _).
  destruct Hs as (_ & Hbody & _). fold mimeType tr r in Hevs, Hbody, Hstatus.
  unfold clientTakes in Hbody. rewrite Hclient in Hbody.
  split; [exact Hstatus |]. split; [exact Hbody |].
  destruct Hended as [(-> & _ & [[Hclosed ->] | (Hout & [x Hx] & ->)])
                     | (_ & n & e & Hc & _)]; [| | congruence].
  - right. split; [exact Hclosed |]. split; [| exact Hevs].
    exists (Sys.outPipe s ++ tail). rewrite Hbody. symmetry. exact Hsum.
  - left. split; [| exact Hevs].
    rewrite Hbody, <- Hsum, Hout, (Hwhole x Hx), !app_nil_r. reflexivity.
Qed.

(** X2: a request that gets its handler, from a client that takes [n]
    bytes and whose writes fail with [e] after that, in any order of
    moves: the body is the first [n] bytes at most of what the copy has
    read, a part of the encoder's output. When the thread of the request
    has returned, either a write has failed: more than [n] bytes were
    read, the body is the first [n] bytes of the encoder's output, no
    read followed the failed write, and the handler logged [e] unless it
    is a broken pipe; or every write was taken whole, and the body is all
    that was read up to the read that ended the copy. *)
Theorem client_limit_truncates sm o env capacity s n e :
  startFailure env = None ->
  Env.client env = Some (n, e) ->
  Sys.reachable (Sys.init env capacity (ServeTranscode sm o)) s ->
  let tr := World.trace (Sys.world s) in
  let r := World.resp (Sys.world s) in
  let reads := stdoutReads tr in
  let mimeType := StreamFormat.MimeType (TranscodeOptions.StreamType o) in
  Response.body r = take n (concat reads)
  /\ Response.body r `prefix_of` concat (stdoutOf (Env.script env))
  /\ (forall m rest,
        Sys.threads s = m :: rest ->
        returned m ->
        ((n < length (concat reads))%nat
         /\ Response.body r = take n (concat (stdoutOf (Env.script env)))
         /\ length (Response.body r) = n
         /\ handlerEvents tr
            = opened mimeType ++ copied reads ++ copyLog (Some e) ++ [EFlush])
        \/ ((length (concat reads) <= n)%nat
            /\ Response.body r = concat reads
            /\ exists err,
                 handlerEvents tr
                 = opened mimeType ++ copied reads
                   ++ [EReadStdoutEnd err] ++ copyLog err ++ [EFlush])).
Proof.
  intros Hsf Hclient Hreach tr r reads mimeType.
  pose proof (serving_reachable sm o env capacity s Hsf Hreach) as Hs.
  destruct (pipeline_reachable _ _ _ _ Hreach) as (tail & _ & Hsum & _).
  fold tr reads in Hsum.
  pose proof Hs as (_ & Hbody & _). fold tr reads r in Hbody.
  unfold clientTakes in Hbody. rewrite Hclient in Hbody.
  split; [exact Hbody |]. split.
  { exists (drop n (concat reads) ++ Sys.outPipe s ++ tail).
    rewrite Hbody, app_assoc, take_drop. symmetry. exact Hsum. }
  intros m rest Hth Hret.
  destruct (serving_returned _ _ _ _ _ Hs Hth Hret)
    as (err & ending & Hevs & Hended & _).
  fold mimeType tr reads in Hevs, Hended.
  destruct Hended as [(-> & Hfit & _) | (-> & n' & e' & Hc & -> & Hlt)].
  - right. unfold fits in Hfit. rewrite Hclient in Hfit.
    split; [exact Hfit |]. split; [rewrite Hbody; apply take_ge; exact Hfit |].
    exists err. exact Hevs.
  - left. rewrite Hclient in Hc. injection Hc as <- <-.
    split; [exact Hlt |]. split; [| split; [| exact Hevs]].
    + rewrite Hbody, <- Hsum. symmetry. apply take_app_le. lia.
    + rewrite Hbody, length_take. lia.
Qed.

End Transcode.

(** * Sample runs *)



(** C5 as stated fails with an audio codec among the configured extra
    output arguments: the source has no audio that can be used, and the
    sequence built for it holds the audio codec flag [-c:a]. *)
Lemma configured_audio_codec_kept :
  declaredFormat (TranscodeOptions.StreamType sampleRequest)
  /\ sampleProbe (VideoFile.AudioCodec (TranscodeOptions.VideoFile sampleRequest))
     = sampleMissing
  /\ In "-c:a"
       (makeStreamArgs sampleSprint sampleResolution sampleProbe sampleMissing
          sampleRequest sampleManagerExtra).
Proof.
  split; [left; reflexivity |]. split; [reflexivity |].
  apply mem_In. reflexivity.
Qed.

(** C5 at the silent source, with an audio codec among the configured
    extra output arguments: the format gives [-an], and the [-c:a] of the
    sequence is the configured one. *)
Lemma video_only_without_audio_witness :
  declaredFormat (TranscodeOptions.StreamType sampleRequest)
  /\ sampleProbe (VideoFile.AudioCodec (TranscodeOptions.VideoFile sampleRequest))
     = sampleMissing
  /\ In "-an"
       (StreamFormat.Args (TranscodeOptions.StreamType sampleRequest)
          (videoFilter sampleResolution sampleRequest sampleManagerExtra) true)
  /\ In "-c:a" audioFlags
  /\ In "-c:a"
       (makeStreamArgs sampleSprint sampleResolution sampleProbe sampleMissing
          sampleRequest sampleManagerExtra)
  /\ (In "-c:a" (extraInputArgs sampleManagerExtra)
      \/ In "-c:a" (extraOutputArgs sampleManagerExtra)
      \/ "-c:a" = sampleSprint (TranscodeOptions.StartTime sampleRequest)
      \/ "-c:a" = VideoFile.Path (TranscodeOptions.VideoFile sampleRequest)).
Proof.
  assert (Hflag : In "-c:a" audioFlags) by (left; reflexivity).
  assert (Hin : In "-c:a"
                  (makeStreamArgs sampleSprint sampleResolution sampleProbe
                     sampleMissing sampleRequest sampleManagerExtra))
    by (apply mem_In; reflexivity).
  split; [left; reflexivity |]. split; [reflexivity |].
  destruct (video_only_without_audio sampleSprint sampleResolution sampleProbe
              sampleMissing sampleRequest sampleManagerExtra
              (or_introl eq_refl) eq_refl) as (_ & Han & _ & Hfrom).
  split; [exact Han |]. split; [exact Hflag |]. split; [exact Hin |].
  exact (Hfrom "-c:a" Hflag Hin).
Defined.

(** C6 from 30.5 seconds, and from the start with a seek among the
    configured extra input arguments. *)
Lemma seek_flag_before_input_witness :
  (float64_nonzero (TranscodeOptions.StartTime sampleRequest) = true
   /\ makeStreamArgs sampleSprint sampleResolution sampleProbe sampleMissing
        sampleRequest sampleManager
      = (globalArgs ++ extraInputArgs sampleManager)
        ++ ["-ss"; "30.5"; "-i"; "/media/b.mp4"]
        ++ formatArgs sampleResolution sampleProbe sampleMissing
             sampleRequest sampleManager
        ++ extraOutputArgs sampleManager ++ ["pipe:"])
  /\ (float64_nonzero (TranscodeOptions.StartTime sampleRequestMP4) = false
      /\ declaredFormat (TranscodeOptions.StreamType sampleRequestMP4)
      /\ In "-ss"
           (makeStreamArgs sampleSprint sampleResolution sampleProbe sampleMissing
              sampleRequestMP4 sampleManagerExtra)
      /\ (In "-ss" (extraInputArgs sampleManagerExtra)
          \/ In "-ss" (extraOutputArgs sampleManagerExtra)
          \/ VideoFile.Path (TranscodeOptions.VideoFile sampleRequestMP4) = "-ss")).
Proof.
  assert (Hin : In "-ss"
                  (makeStreamArgs sampleSprint sampleResolution sampleProbe
                     sampleMissing sampleRequestMP4 sampleManagerExtra))
    by (apply mem_In; reflexivity).
  split.
  - split; [reflexivity |].
    apply (seek_flag_before_input sampleSprint sampleResolution sampleProbe
             sampleMissing sampleRequest sampleManager). reflexivity.
  - split; [reflexivity |]. split; [left; reflexivity |]. split; [exact Hin |].
    apply (proj2 (proj2 (seek_flag_before_input sampleSprint sampleResolution
                           sampleProbe sampleMissing sampleRequestMP4
                           sampleManagerExtra) eq_refl));
      [left; reflexivity | exact Hin].
Defined.

(** C1 as stated fails when the encoder writes two chunks: the first
    write is followed by the second write, not by a flush. *)
Lemma first_write_not_flushed :
  startFailure sampleEnv = None
  /\ ~ flushedAfterEveryWrite
         (respCalls
            (World.trace
               (snd (World.run
                       (ServeTranscode sampleSprint sampleResolution sampleProbe sampleMissing
                          sampleManager sampleRequest)
                       (World.init sampleEnv))))).
Proof.
  split; [reflexivity |]. intros H.
  specialize (H 2%nat ["a"; "b"]%byte eq_refl). discriminate H.
Qed.

(** C1 at the encoder of the samples, with pipes of two bytes. After the
    first eight moves of the request's thread and one of the encoder, the
    handler is in its copy and the pipe holds the first chunk: the next
    move of the thread reads it and writes it. With each of the encoder
    and the threads moving in turn to the end, the two chunks are read
    and written one after the other, the three bytes are the body, and
    the flush comes last, after the read that found the end of the
    output. *)
Lemma handler_streams_then_flushes_witness :
  let init :=
    Sys.init sampleEnv 2
      (ServeTranscode sampleSprint sampleResolution sampleProbe sampleMissing
         sampleManager sampleRequest) in
  let s1 := Sys.play (boot ++ [Encoder]) init in
  let s := Sys.play (takingTurns (Env.script sampleEnv)) init in
  startFailure sampleEnv = None
  /\ Sys.reachable init s1
  /\ Sys.reachable init s
  /\ (Sys.outPipe s1 = ["a"; "b"]%byte
      /\ exists s',
           Sys.step (ThreadOf 0) s1 = Some s'
           /\ World.trace (Sys.world s')
              = World.trace (Sys.world s1)
                ++ [EReadStdout ["a"; "b"]%byte; EWrite ["a"; "b"]%byte]
           /\ Sys.outPipe s' = []
           /\ Response.body (World.resp (Sys.world s')) = ["a"; "b"]%byte)
  /\ handlerEvents (World.trace (Sys.world s))
     = opened "video/mp4" ++ copied [["a"; "b"]%byte; ["c"]%byte]
       ++ [EReadStdoutEnd None] ++ [EFlush]
  /\ Response.body (World.resp (Sys.world s)) = ["a"; "b"; "c"]%byte
  /\ exists err ending after,
       handlerEvents (World.trace (Sys.world s))
       = opened "video/mp4" ++ copied (stdoutReads (World.trace (Sys.world s)))
         ++ ending ++ after
       /\ copyEnded sampleEnv s (stdoutReads (World.trace (Sys.world s))) err ending.
Proof.
  intros init s1 s.
  assert (Hreach1 : Sys.reachable init s1) by (apply play_reachable; constructor).
  assert (Hreach : Sys.reachable init s) by (apply play_reachable; constructor).
  assert (Hpipe1 : Sys.outPipe s1 = ["a"; "b"]%byte) by (vm_compute; reflexivity).
  assert (Hclosed1 : Sys.closed s1 = false) by (vm_compute; reflexivity).
  assert (Hevents1 : handlerEvents (World.trace (Sys.world s1)) = opened "video/mp4")
    by (vm_compute; reflexivity).
  assert (Hreads1 : stdoutReads (World.trace (Sys.world s1)) = [])
    by (vm_compute; reflexivity).
  assert (Hevents : handlerEvents (World.trace (Sys.world s))
                    = opened "video/mp4" ++ copied [["a"; "b"]%byte; ["c"]%byte]
                      ++ [EReadStdoutEnd None] ++ [EFlush])
    by (vm_compute; reflexivity).
  assert (Hreads : stdoutReads (World.trace (Sys.world s))
                   = [["a"; "b"]%byte; ["c"]%byte]) by (vm_compute; reflexivity).
  assert (Hcode : Thread.code <$> Sys.threads s !! 0%nat = Some (Ret tt))
    by (vm_compute; reflexivity).
  split; [reflexivity |]. split; [exact Hreach1 |]. split; [exact Hreach |].
  split.
  - split; [exact Hpipe1 |].
    destruct (handler_streams_then_flushes sampleSprint sampleResolution sampleProbe
                sampleMissing sampleManager sampleRequest sampleEnv 2 s1 eq_refl Hreach1)
      as (_ & _ & Hstage & Hmove & _).
    rewrite Hpipe1 in Hmove.
    destruct Hstage as [(todo & Hne & Htodo & _)
                       | [(_ & _ & _ & m & rest & Hth & Hcopy)
                         | (err & ending & after & Hevs & Hended & _)]].
    + exfalso. rewrite Hevents1 in Htodo. apply Hne.
      destruct todo; [reflexivity | discriminate Htodo].
    + destruct (Hmove m rest Hth Hcopy Hclosed1 ltac:(discriminate))
        as (s' & Hstep & Htr & Hout & Hbody).
      exists s'. split; [exact Hstep |]. split; [exact Htr |]. split; [exact Hout |].
      rewrite Hbody, Hreads1. reflexivity.
    + exfalso. rewrite Hevents1, Hreads1 in Hevs.
      destruct Hended as [(-> & _) | (_ & n & e & Hc & _)];
        [discriminate Hevs | discriminate Hc].
  - destruct (handler_streams_then_flushes sampleSprint sampleResolution sampleProbe
                sampleMissing sampleManager sampleRequest sampleEnv 2 s eq_refl Hreach)
      as (_ & Hbody & Hstage & _).
    split; [exact Hevents |].
    split; [rewrite Hbody, Hreads; reflexivity |].
    destruct Hstage as [(todo & _ & Htodo & _)
                       | [(_ & _ & _ & m & rest & Hth & Hcopy)
                         | (err & ending & after & Hevs & Hended & _)]].
    + exfalso. rewrite Hevents in Htodo. discriminate Htodo.
    + exfalso. rewrite Hth in Hcode. cbn in Hcode. rewrite Hcopy in Hcode.
      discriminate Hcode.
    + exists err, ending, after. split; [exact Hevs | exact Hended].
Defined.

(** C2 as stated fails for an encoder that writes nothing on its standard
    error and ends by itself with status 1: nothing is logged. *)
Lemma exit_status_not_reported : ~ nonzeroExitReported.
Proof.
  intros H.
  apply (H sampleCmd
           (World.init (sampleEnvExit [ToStdout ["a"]%byte] (Some exitStatus1)))
           {| ProcessState.ExitCode := 1; ProcessState.Signaled := false |});
    [reflexivity | discriminate | reflexivity | reflexivity].
Qed.

(** The four cases of C2: text on standard error after a kill, a clean
    exit, an exit with status 1, and a [Wait] that fails otherwise. *)
Lemma exit_classification_witness :
  stderrTaskLog sampleCmd
    (World.init (sampleEnvExit [ToStderr ["E"]%byte] (Some killed)))
  = [ELog LevelError "[transcode] ffmpeg error when running command <%s>: %v"
       ["ffmpeg -i a.mkv pipe:"; "E"]]
  /\ stderrTaskLog sampleCmd
       (World.init (sampleEnvExit [ToStdout ["a"]%byte] None)) = []
  /\ (errors_As_ExitError exitStatus1 = true
      /\ stderrTaskLog sampleCmd
           (World.init (sampleEnvExit [ToStdout ["a"]%byte] (Some exitStatus1)))
         = [])
  /\ (errors_As_ExitError (errorString "exec: Wait was already called") = false
      /\ stderrTaskLog sampleCmd
           (World.init
              (sampleEnvExit [] (Some (errorString "exec: Wait was already called"))))
         = [ELog LevelError "[transcode] ffmpeg error when running command <%s>: %v"
              ["ffmpeg -i a.mkv pipe:"; "exec: Wait was already called"]]).
Proof.
  split; [| split; [| split]].
  - apply (proj1 (exit_classification sampleCmd
                    (World.init (sampleEnvExit [ToStderr ["E"]%byte] (Some killed))))).
    discriminate.
  - apply (proj1 (proj2 (exit_classification sampleCmd
                           (World.init (sampleEnvExit [ToStdout ["a"]%byte] None)))));
      reflexivity.
  - split; [reflexivity |].
    apply (proj1 (proj2 (proj2
             (exit_classification sampleCmd
                (World.init (sampleEnvExit [ToStdout ["a"]%byte] (Some exitStatus1)))))))
      with (x := exitStatus1); reflexivity.
  - split; [reflexivity |].
    apply (proj2 (proj2 (proj2
             (exit_classification sampleCmd
                (World.init
                   (sampleEnvExit [] (Some (errorString "exec: Wait was already called"))))))))
      with (x := errorString "exec: Wait was already called"); reflexivity.
Defined.

Lemma start_failure_bad_request_witness :
  startFailure sampleEnvNoStart = Some (wrapError "fork/exec ffmpeg" (Errno 2))
  /\ Response.status
       (World.resp
          (snd (World.run
                  (ServeTranscode sampleSprint sampleResolution sampleProbe sampleMissing
                     sampleManager sampleRequest)
                  (World.init sampleEnvNoStart))))
     = Some StatusBadRequest.
Proof.
  split; [reflexivity |].
  apply (start_failure_bad_request sampleSprint sampleResolution sampleProbe sampleMissing
           sampleManager sampleRequest sampleEnvNoStart
           (wrapError "fork/exec ffmpeg" (Errno 2))).
  reflexivity.
Defined.

(** The three cases of C9: a client gone with a broken pipe, a client
    gone with a reset connection, and a copy to the end. *)
Lemma broken_pipe_not_logged_witness :
  (copyResult (World.init (sampleEnvClient EPIPE))
   = Some (wrapError "write tcp" (Errno EPIPE))
   /\ errors_Is (wrapError "write tcp" (Errno EPIPE)) EPIPE = true
   /\ logged (World.trace
                (snd (World.run (handler "video/mp4")
                        (World.init (sampleEnvClient EPIPE))))) = [])
  /\ (copyResult (World.init (sampleEnvClient ECONNRESET))
      = Some (wrapError "write tcp" (Errno ECONNRESET))
      /\ errors_Is (wrapError "write tcp" (Errno ECONNRESET)) EPIPE = false
      /\ logged (World.trace
                   (snd (World.run (handler "video/mp4")
                           (World.init (sampleEnvClient ECONNRESET)))))
         = [ELog LevelError "[transcode] error serving transcoded video file: %v"
              ["write tcp: connection reset by peer"]])
  /\ (copyResult (World.init sampleEnv) = None
      /\ logged (World.trace
                   (snd (World.run (handler "video/mp4") (World.init sampleEnv))))
         = []).
Proof.
  split; [| split].
  - split; [reflexivity |]. split; [reflexivity |].
    apply (proj1 (broken_pipe_not_logged "video/mp4"
                    (World.init (sampleEnvClient EPIPE))))
      with (e := wrapError "write tcp" (Errno EPIPE)); reflexivity.
  - split; [reflexivity |]. split; [reflexivity |].
    apply (proj1 (proj2 (broken_pipe_not_logged "video/mp4"
                           (World.init (sampleEnvClient ECONNRESET)))))
      with (e := wrapError "write tcp" (Errno ECONNRESET)); reflexivity.
  - split; [reflexivity |].
    apply (proj2 (proj2 (broken_pipe_not_logged "video/mp4" (World.init sampleEnv)))).
    reflexivity.
Defined.

Lemma status_committed_before_body_witness :
  startFailure (sampleEnvClient ECONNRESET) = None
  /\ Response.status
       (World.resp
          (snd (World.run
                  (ServeTranscode sampleSprint sampleResolution sampleProbe sampleMissing
                     sampleManager sampleRequest)
                  (World.init (sampleEnvClient ECONNRESET)))))
     = Some StatusOK.
Proof.
  split; [reflexivity |].
  apply (status_committed_before_body sampleSprint sampleResolution sampleProbe sampleMissing
           sampleManager sampleRequest (sampleEnvClient ECONNRESET)).
  reflexivity.
Defined.

Lemma stderr_drained_while_encoder_runs_witness :
  (0 < 2)%nat
  /\ Sys.reachable
       (Sys.init sampleEnvNoisy 2
          (ServeTranscode sampleSprint sampleResolution sampleProbe sampleMissing
             sampleManager sampleRequest))
       (Sys.play sampleSchedule
          (Sys.init sampleEnvNoisy 2
             (ServeTranscode sampleSprint sampleResolution sampleProbe sampleMissing
                sampleManager sampleRequest)))
  /\ Sys.stalledOnStderr
       (Sys.play sampleSchedule
          (Sys.init sampleEnvNoisy 2
             (ServeTranscode sampleSprint sampleResolution sampleProbe sampleMissing
                sampleManager sampleRequest)))
  /\ exists s1 s2,
       Sys.step (ThreadOf 1)
         (Sys.play sampleSchedule
            (Sys.init sampleEnvNoisy 2
               (ServeTranscode sampleSprint sampleResolution sampleProbe sampleMissing
                  sampleManager sampleRequest))) = Some s1
       /\ Sys.errPipe s1 = []
       /\ Sys.step Encoder s1 = Some s2.
Proof.
  assert (Hreach :
            Sys.reachable
              (Sys.init sampleEnvNoisy 2
                 (ServeTranscode sampleSprint sampleResolution sampleProbe sampleMissing
                    sampleManager sampleRequest))
              (Sys.play sampleSchedule
                 (Sys.init sampleEnvNoisy 2
                    (ServeTranscode sampleSprint sampleResolution sampleProbe sampleMissing
                       sampleManager sampleRequest))))
    by (apply play_reachable; constructor).
  assert (Hstalled :
            Sys.stalledOnStderr
              (Sys.play sampleSchedule
                 (Sys.init sampleEnvNoisy 2
                    (ServeTranscode sampleSprint sampleResolution sampleProbe sampleMissing
                       sampleManager sampleRequest)))).
  { exists ["z"%byte], [ToStdout ["a"%byte]].
    split; [reflexivity |]. split; [discriminate | cbn; lia]. }
  split; [lia |]. split; [exact Hreach |]. split; [exact Hstalled |].
  eapply (proj2 (proj2 (proj2
            (stderr_drained_while_encoder_runs sampleSprint sampleResolution
               sampleProbe sampleMissing sampleManager sampleRequest sampleEnvNoisy 2 _
               (Nat.lt_0_succ 1) Hreach))));
    [exact Hstalled | reflexivity].
Defined.

(** ** The samples, computed *)

Example float64_nan_nonzero : float64_nonzero S754_nan = true.
Proof. reflexivity. Qed.

Example float64_negative_zero : float64_nonzero (S754_zero true) = false.
Proof. reflexivity. Qed.

(** The silent 1920 by 1080 source as MP4 from 30.5 seconds, with a
    maximum of 1080: video only, no filter. *)
Example sampleRequest_args :
  makeStreamArgs sampleSprint sampleResolution sampleProbe sampleMissing
    sampleRequest sampleManager
  = ["-hide_banner"; "-v"; "error"; "-ss"; "30.5"; "-i"; "/media/b.mp4";
     "-c:v"; "libx264"; "-movflags"; "frag_keyframe+empty_moov";
     "-pix_fmt"; "yuv420p"; "-preset"; "veryfast"; "-crf"; "25";
     "-an"; "-f"; "mp4"; "pipe:"].
Proof. reflexivity. Qed.

(** The 3840 by 2160 source with audio: scaled as MP4, copied as MKV. *)
Example sampleRequestMP4_args :
  makeStreamArgs sampleSprint sampleResolution sampleProbe sampleMissing
    sampleRequestMP4 sampleManager
  = ["-hide_banner"; "-v"; "error"; "-i"; "/media/a.mkv";
     "-c:v"; "libx264"; "-movflags"; "frag_keyframe+empty_moov";
     "-pix_fmt"; "yuv420p"; "-preset"; "veryfast"; "-crf"; "25";
     "-vf"; "scale=-2:1080"; "-ac"; "2"; "-f"; "mp4"; "pipe:"].
Proof. reflexivity. Qed.

Example sampleRequestMKV_args :
  makeStreamArgs sampleSprint sampleResolution sampleProbe sampleMissing
    sampleRequestMKV sampleManager
  = ["-hide_banner"; "-v"; "error"; "-i"; "/media/a.mkv";
     "-c:v"; "copy"; "-c:a"; "libopus"; "-b:a"; "96k"; "-vbr"; "on";
     "-ac"; "2"; "-f"; "matroska"; "pipe:"].
Proof. reflexivity. Qed.

(** A request served to the end: what is called, in order. *)
Example sampleRequest_trace :
  World.trace
    (snd (World.run
            (ServeTranscode sampleSprint sampleResolution sampleProbe sampleMissing
               sampleManager sampleRequest)
            (World.init sampleEnv)))
  = [EReadLock "/media/b.mp4"; EStdoutPipe; EStderrPipe;
     EStart ("ffmpeg" :: makeStreamArgs sampleSprint sampleResolution sampleProbe
                           sampleMissing sampleRequest sampleManager);
     EAttachCommand; EGo;
     EHeaderSet "Content-Type" "video/mp4"; EWriteHeader 200;
     EReadStdout ["a"; "b"]%byte; EWrite ["a"; "b"]%byte;
     EReadStdout ["c"]%byte; EWrite ["c"]%byte;
     EReadStdoutEnd None; EFlush].
Proof. reflexivity. Qed.

(** A client that goes away after one byte, with a reset connection:
    status 200 stays, the body is the one byte, the error is logged. *)
Example sampleRequest_reset :
  let w :=
    snd (World.run
           (ServeTranscode sampleSprint sampleResolution sampleProbe sampleMissing
              sampleManager sampleRequest)
           (World.init (sampleEnvClient ECONNRESET))) in
  Response.status (World.resp w) = Some 200
  /\ Response.body (World.resp w) = ["a"]%byte
  /\ logged (World.trace w)
     = [ELog LevelError "[transcode] error serving transcoded video file: %v"
          ["write tcp: connection reset by peer"]].
Proof. repeat split; reflexivity. Qed.

(** An encoder that cannot be started: status 400 and the error's text. *)
Example sampleRequest_no_start :
  let w :=
    snd (World.run
           (ServeTranscode sampleSprint sampleResolution sampleProbe sampleMissing
              sampleManager sampleRequest)
           (World.init sampleEnvNoStart)) in
  Response.status (World.resp w) = Some 400
  /\ string_of_list_byte (Response.body (World.resp w)) = "fork/exec ffmpeg: errno 2".
Proof. repeat split; reflexivity. Qed.

(** The stalled encoder of the noisy sample goes on after a move of the
    goroutine: the pipe holds its last byte. *)
Example sampleSchedule_resumes :
  Sys.errPipe
    (Sys.play (sampleSchedule ++ [ThreadOf 1; Encoder])
       (Sys.init sampleEnvNoisy 2
          (ServeTranscode sampleSprint sampleResolution sampleProbe sampleMissing
             sampleManager sampleRequest)))
  = ["z"]%byte.
Proof. reflexivity. Qed.

(** A copy that gathers two chunks and writes them at once does not
    stream, and a writer that is flushed after each write is one of
    [flushedAfterEveryWrite]. *)
Example gathered_not_streamed :
  streamed [EReadStdout ["a"; "b"]%byte; EReadStdout ["c"]%byte;
            EWrite ["a"; "b"; "c"]%byte; EReadStdoutEnd None] = false.
Proof. reflexivity. Qed.

Example flushed_each_time :
  flushedAfterEveryWrite
    [EWriteHeader 200; EWrite ["a"; "b"]%byte; EFlush; EWrite ["c"]%byte; EFlush].
Proof.
  intros [| [| [| [| [| i]]]]] p H; try discriminate H; reflexivity.
Qed.

(** ** More runs of the samples *)

(** X1 at the encoder that writes one chunk of two bytes, with pipes of
    two bytes: when the threads and the encoder take turns, the chunk is
    the body; when the goroutine goes first, the pipe is closed with the
    chunk in it, the body is empty, and the error of the read is in the
    log. *)
Lemma whole_stream_unless_closed_witness :
  let init :=
    Sys.init sampleEnvOneChunk 2
      (ServeTranscode sampleSprint sampleResolution sampleProbe sampleMissing
         sampleManager sampleRequest) in
  startFailure sampleEnvOneChunk = None
  /\ Env.client sampleEnvOneChunk = None
  /\ ~ In Cancel (takingTurns (Env.script sampleEnvOneChunk))
  /\ ~ In Cancel waitFirst
  /\ Response.body
       (World.resp
          (Sys.world (Sys.play (takingTurns (Env.script sampleEnvOneChunk)) init)))
     = concat (stdoutOf (Env.script sampleEnvOneChunk))
  /\ Sys.closed (Sys.play waitFirst init) = true
  /\ Response.body (World.resp (Sys.world (Sys.play waitFirst init))) = []
  /\ In (ELog LevelError "[transcode] error serving transcoded video file: %v"
           ["file already closed"])
        (handlerEvents (World.trace (Sys.world (Sys.play waitFirst init)))).
Proof.
  intros init.
  assert (Hturns : ~ In Cancel (takingTurns (Env.script sampleEnvOneChunk))).
  { intros H. cbn in H.
    repeat (destruct H as [H | H]; [discriminate H |]). exact H. }
  assert (Hfirst : ~ In Cancel waitFirst).
  { intros H. cbn in H.
    repeat (destruct H as [H | H]; [discriminate H |]). exact H. }
  assert (Hcode1 : Thread.code
                     <$> Sys.threads
                           (Sys.play (takingTurns (Env.script sampleEnvOneChunk)) init)
                         !! 0%nat
                   = Some (Ret tt)) by (vm_compute; reflexivity).
  assert (Hcode2 : Thread.code <$> Sys.threads (Sys.play waitFirst init) !! 0%nat
                   = Some (Ret tt)) by (vm_compute; reflexivity).
  assert (Hevs1 : handlerEvents
                    (World.trace
                       (Sys.world
                          (Sys.play (takingTurns (Env.script sampleEnvOneChunk)) init)))
                  = [EHeaderSet "Content-Type" "video/mp4"; EWriteHeader StatusOK;
                     EReadStdout ["a"; "b"]%byte; EWrite ["a"; "b"]%byte;
                     EReadStdoutEnd None; EFlush]) by (vm_compute; reflexivity).
  assert (Hreads1 : stdoutReads
                      (World.trace
                         (Sys.world
                            (Sys.play (takingTurns (Env.script sampleEnvOneChunk)) init)))
                    = [["a"; "b"]%byte]) by (vm_compute; reflexivity).
  assert (Hreads2 : stdoutReads (World.trace (Sys.world (Sys.play waitFirst init)))
                    = []) by (vm_compute; reflexivity).
  split; [reflexivity |]. split; [reflexivity |].
  split; [exact Hturns |]. split; [exact Hfirst |]. split.
  - destruct (Sys.threads (Sys.play (takingTurns (Env.script sampleEnvOneChunk)) init))
      as [| m rest] eqn:Hth; [discriminate Hcode1 |].
    cbn in Hcode1. injection Hcode1 as Hret.
    destruct (whole_stream_unless_closed sampleSprint sampleResolution sampleProbe
                sampleMissing sampleManager sampleRequest sampleEnvOneChunk 2
                (takingTurns (Env.script sampleEnvOneChunk))
                eq_refl eq_refl Hturns m rest Hth Hret)
      as (_ & _ & [[Hbody _] | (_ & _ & Hevs)]); [exact Hbody |].
    exfalso. fold init in Hevs. rewrite Hevs1, Hreads1 in Hevs. discriminate Hevs.
  - destruct (Sys.threads (Sys.play waitFirst init)) as [| m rest] eqn:Hth;
      [discriminate Hcode2 |].
    cbn in Hcode2. injection Hcode2 as Hret.
    destruct (whole_stream_unless_closed sampleSprint sampleResolution sampleProbe
                sampleMissing sampleManager sampleRequest sampleEnvOneChunk 2
                waitFirst eq_refl eq_refl Hfirst m rest Hth Hret)
      as (_ & Hbody & [[Hwhole _] | (Hclosed & _ & Hevs)]).
    + exfalso. fold init in Hbody, Hwhole. rewrite Hbody, Hreads2 in Hwhole.
      discriminate Hwhole.
    + fold init in Hbody, Hclosed, Hevs.
      split; [exact Hclosed |]. split; [rewrite Hbody, Hreads2; reflexivity |].
      rewrite Hevs, Hreads2. cbn. auto.
Defined.

(** X2 at an encoder that writes four bytes, one after the other, and a
    client that leaves after the first: the second write fails, the body
    is the first byte, and the broken pipe is not logged. And at a client
    that takes five bytes of an encoder that writes three: all three are
    the body. *)
Lemma client_limit_truncates_witness :
  let gone :=
    Sys.play sampleScheduleGone
      (Sys.init sampleEnvLong 1
         (ServeTranscode sampleSprint sampleResolution sampleProbe sampleMissing
            sampleManager sampleRequest)) in
  let patient :=
    Sys.play (takingTurns (Env.script sampleEnvPatient))
      (Sys.init sampleEnvPatient 2
         (ServeTranscode sampleSprint sampleResolution sampleProbe sampleMissing
            sampleManager sampleRequest)) in
  (startFailure sampleEnvLong = None
   /\ Env.client sampleEnvLong = Some (1%nat, wrapError "write tcp" (Errno EPIPE))
   /\ Response.body (World.resp (Sys.world gone)) = ["a"]%byte
   /\ handlerEvents (World.trace (Sys.world gone))
      = opened "video/mp4" ++ copied [["a"]%byte; ["b"]%byte] ++ [EFlush])
  /\ (startFailure sampleEnvPatient = None
      /\ Env.client sampleEnvPatient
         = Some (5%nat, wrapError "write tcp" (Errno EPIPE))
      /\ Response.body (World.resp (Sys.world patient)) = ["a"; "b"; "c"]%byte).
Proof.
  intros gone patient.
  assert (Hreach1 : Sys.reachable
                      (Sys.init sampleEnvLong 1
                         (ServeTranscode sampleSprint sampleResolution sampleProbe
                            sampleMissing sampleManager sampleRequest)) gone)
    by (apply play_reachable; constructor).
  assert (Hreach2 : Sys.reachable
                      (Sys.init sampleEnvPatient 2
                         (ServeTranscode sampleSprint sampleResolution sampleProbe
                            sampleMissing sampleManager sampleRequest)) patient)
    by (apply play_reachable; constructor).
  assert (Hcode : Thread.code <$> Sys.threads gone !! 0%nat = Some (Ret tt))
    by (vm_compute; reflexivity).
  assert (Hreads1 : stdoutReads (World.trace (Sys.world gone))
                    = [["a"]%byte; ["b"]%byte]) by (vm_compute; reflexivity).
  assert (Hreads2 : stdoutReads (World.trace (Sys.world patient))
                    = [["a"; "b"]%byte; ["c"]%byte]) by (vm_compute; reflexivity).
  split.
  - split; [reflexivity |]. split; [reflexivity |].
    destruct (client_limit_truncates sampleSprint sampleResolution sampleProbe
                sampleMissing sampleManager sampleRequest sampleEnvLong 1 gone
                1%nat (wrapError "write tcp" (Errno EPIPE)) eq_refl eq_refl Hreach1)
      as (Hbody & _ & Hend).
    split; [rewrite Hbody, Hreads1; reflexivity |].
    destruct (Sys.threads gone) as [| m rest] eqn:Hth; [discriminate Hcode |].
    cbn in Hcode. injection Hcode as Hret.
    destruct (Hend m rest eq_refl Hret) as [(_ & _ & _ & Hevs) | (Hle & _)].
    + rewrite Hevs, Hreads1. reflexivity.
    + exfalso. rewrite Hreads1 in Hle. cbn in Hle. lia.
  - split; [reflexivity |]. split; [reflexivity |].
    destruct (client_limit_truncates sampleSprint sampleResolution sampleProbe
                sampleMissing sampleManager sampleRequest sampleEnvPatient 2 patient
                5%nat (wrapError "write tcp" (Errno EPIPE)) eq_refl eq_refl Hreach2)
      as (Hbody & _).
    rewrite Hbody, Hreads2. reflexivity.
Defined.

(** X3 at the three failures. *)
Lemma failure_stops_before_encoder_witness :
  (Env.stdoutPipe sampleEnvNoStdout = Some (errorString "exec: Stdout already set")
   /\ cmdCalls
        (World.trace
           (snd (World.run
                   (ServeTranscode sampleSprint sampleResolution sampleProbe
                      sampleMissing sampleManager sampleRequest)
                   (World.init sampleEnvNoStdout))))
      = [EStdoutPipe])
  /\ (Env.stdoutPipe sampleEnvNoStderr = None
      /\ Env.stderrPipe sampleEnvNoStderr
         = Some (errorString "exec: Stderr already set")
      /\ errorsLogged
           (World.trace
              (snd (World.run
                      (ServeTranscode sampleSprint sampleResolution sampleProbe
                         sampleMissing sampleManager sampleRequest)
                      (World.init sampleEnvNoStderr))))
         = [ELog LevelError "[transcode] ffmpeg stderr not available: %v"
              ["exec: Stderr already set"];
            ELog LevelError "[transcode] error transcoding video file: %v"
              ["exec: Stderr already set"]])
  /\ (Env.stdoutPipe sampleEnvNoStart = None
      /\ Env.stderrPipe sampleEnvNoStart = None
      /\ Env.start sampleEnvNoStart = Some (wrapError "fork/exec ffmpeg" (Errno 2))
      /\ errorsLogged
           (World.trace
              (snd (World.run
                      (ServeTranscode sampleSprint sampleResolution sampleProbe
                         sampleMissing sampleManager sampleRequest)
                      (World.init sampleEnvNoStart))))
         = [ELog LevelError "[transcode] error transcoding video file: %v"
              ["fork/exec ffmpeg: errno 2"]]).
Proof.
  split; [| split].
  - split; [reflexivity |].
    apply (proj1 (failure_stops_before_encoder sampleSprint sampleResolution sampleProbe
                    sampleMissing sampleManager sampleRequest sampleEnvNoStdout)
             _ eq_refl).
  - split; [reflexivity |]. split; [reflexivity |].
    apply (proj1 (proj2 (failure_stops_before_encoder sampleSprint sampleResolution
                           sampleProbe sampleMissing sampleManager sampleRequest
                           sampleEnvNoStderr))
             _ eq_refl eq_refl).
  - split; [reflexivity |]. split; [reflexivity |]. split; [reflexivity |].
    apply (proj2 (proj2 (failure_stops_before_encoder sampleSprint sampleResolution
                           sampleProbe sampleMissing sampleManager sampleRequest
                           sampleEnvNoStart))
             _ eq_refl eq_refl eq_refl).
Defined.

(** X4 at an encoder that cannot be started, with a client that takes
    three bytes of the answer. *)
Lemma error_text_write_failure_warned_witness :
  startFailure sampleEnvNoStartGone = Some (wrapError "fork/exec ffmpeg" (Errno 2))
  /\ Response.status
       (World.resp
          (snd (World.run
                  (ServeTranscode sampleSprint sampleResolution sampleProbe sampleMissing
                     sampleManager sampleRequest)
                  (World.init sampleEnvNoStartGone))))
     = Some StatusBadRequest
  /\ Response.body
       (World.resp
          (snd (World.run
                  (ServeTranscode sampleSprint sampleResolution sampleProbe sampleMissing
                     sampleManager sampleRequest)
                  (World.init sampleEnvNoStartGone))))
     = ["f"; "o"; "r"]%byte
  /\ warningsLogged
       (World.trace
          (snd (World.run
                  (ServeTranscode sampleSprint sampleResolution sampleProbe sampleMissing
                     sampleManager sampleRequest)
                  (World.init sampleEnvNoStartGone))))
     = [ELog LevelWarn "[transcode] error writing response: %v"
          ["write tcp: broken pipe"]].
Proof.
  split; [reflexivity |].
  destruct (error_text_write_failure_warned sampleSprint sampleResolution sampleProbe
              sampleMissing sampleManager sampleRequest sampleEnvNoStartGone _ eq_refl)
    as (Hst & _ & Hbody & Hwarn).
  split; [exact Hst |]. split; [exact Hbody | exact Hwarn].
Defined.

(** X5 at the large source: asking for [LOW] gives the same arguments
    under two configured maxima, and asking for nothing gives those of
    asking for the configured one. *)
Lemma resolution_override_witness :
  (TranscodeOptions.Resolution sampleRequestLow <> ""
   /\ makeStreamArgs sampleSprint sampleResolution sampleProbe sampleMissing
        sampleRequestLow (withMaxSize "STANDARD_HD" sampleManager)
      = makeStreamArgs sampleSprint sampleResolution sampleProbe sampleMissing
          sampleRequestLow sampleManager)
  /\ (TranscodeOptions.Resolution sampleRequestMP4 = ""
      /\ makeStreamArgs sampleSprint sampleResolution sampleProbe sampleMissing
           sampleRequestMP4 sampleManager
         = makeStreamArgs sampleSprint sampleResolution sampleProbe sampleMissing
             (withResolution "FULL_HD" sampleRequestMP4) sampleManager).
Proof.
  split.
  - assert (H : TranscodeOptions.Resolution sampleRequestLow <> "") by discriminate.
    split; [exact H |].
    apply (proj1 (resolution_override sampleSprint sampleResolution sampleProbe
                    sampleMissing sampleRequestLow sampleManager) H).
  - split; [reflexivity |].
    apply (proj2 (resolution_override sampleSprint sampleResolution sampleProbe
                    sampleMissing sampleRequestMP4 sampleManager) eq_refl).
Defined.

(** X6 at the large source, which has AAC audio, as MP4. *)
Lemma audio_kept_as_stereo_witness :
  declaredFormat (TranscodeOptions.StreamType sampleRequestMP4)
  /\ sampleProbe (VideoFile.AudioCodec (TranscodeOptions.VideoFile sampleRequestMP4))
     <> sampleMissing
  /\ ~ In "-an"
         (formatArgs sampleResolution sampleProbe sampleMissing
            sampleRequestMP4 sampleManager)
  /\ exists pre container,
       formatArgs sampleResolution sampleProbe sampleMissing
         sampleRequestMP4 sampleManager
       = pre ++ ["-ac"; "2"; "-f"; container].
Proof.
  assert (H1 : declaredFormat (TranscodeOptions.StreamType sampleRequestMP4))
    by (left; reflexivity).
  assert (H2 : sampleProbe
                 (VideoFile.AudioCodec (TranscodeOptions.VideoFile sampleRequestMP4))
               <> sampleMissing) by discriminate.
  split; [exact H1 |]. split; [exact H2 |].
  destruct (audio_kept_as_stereo sampleSprint sampleResolution sampleProbe sampleMissing
              sampleRequestMP4 sampleManager H1 H2) as (_ & Han & Hac & _).
  split; [exact Han | exact Hac].
Defined.

(** X7 after the first turn of the stream, with pipes of one byte: one
    byte is in the body and two are still to be written. *)
Lemma body_is_encoder_output_witness :
  Sys.reachable
    (Sys.init sampleEnv 1
       (ServeTranscode sampleSprint sampleResolution sampleProbe sampleMissing
          sampleManager sampleRequest))
    (Sys.play (boot ++ turns 1)
       (Sys.init sampleEnv 1
          (ServeTranscode sampleSprint sampleResolution sampleProbe sampleMissing
             sampleManager sampleRequest)))
  /\ Response.status
       (World.resp
          (Sys.world
             (Sys.play (boot ++ turns 1)
                (Sys.init sampleEnv 1
                   (ServeTranscode sampleSprint sampleResolution sampleProbe
                      sampleMissing sampleManager sampleRequest)))))
     = Some StatusOK
  /\ Response.body
       (World.resp
          (Sys.world
             (Sys.play (boot ++ turns 1)
                (Sys.init sampleEnv 1
                   (ServeTranscode sampleSprint sampleResolution sampleProbe
                      sampleMissing sampleManager sampleRequest)))))
     `prefix_of` ["a"; "b"; "c"]%byte
  /\ Sys.proc
       (Sys.play (boot ++ turns 1)
          (Sys.init sampleEnv 1
             (ServeTranscode sampleSprint sampleResolution sampleProbe
                sampleMissing sampleManager sampleRequest)))
     = Running [ToStdout ["b"]%byte; ToStdout ["c"]%byte]
  /\ Response.body
       (World.resp
          (Sys.world
             (Sys.play (boot ++ turns 1)
                (Sys.init sampleEnv 1
                   (ServeTranscode sampleSprint sampleResolution sampleProbe
                      sampleMissing sampleManager sampleRequest)))))
     ++ Sys.outPipe
          (Sys.play (boot ++ turns 1)
             (Sys.init sampleEnv 1
                (ServeTranscode sampleSprint sampleResolution sampleProbe
                   sampleMissing sampleManager sampleRequest)))
     ++ ["b"; "c"]%byte
     = ["a"; "b"; "c"]%byte.
Proof.
  assert (Hreach :
            Sys.reachable
              (Sys.init sampleEnv 1
                 (ServeTranscode sampleSprint sampleResolution sampleProbe sampleMissing
                    sampleManager sampleRequest))
              (Sys.play (boot ++ turns 1)
                 (Sys.init sampleEnv 1
                    (ServeTranscode sampleSprint sampleResolution sampleProbe
                       sampleMissing sampleManager sampleRequest))))
    by (apply play_reachable; constructor).
  assert (Hst :
            Response.status
              (World.resp
                 (Sys.world
                    (Sys.play (boot ++ turns 1)
                       (Sys.init sampleEnv 1
                          (ServeTranscode sampleSprint sampleResolution sampleProbe
                             sampleMissing sampleManager sampleRequest)))))
            = Some StatusOK) by (vm_compute; reflexivity).
  assert (Hproc :
            Sys.proc
              (Sys.play (boot ++ turns 1)
                 (Sys.init sampleEnv 1
                    (ServeTranscode sampleSprint sampleResolution sampleProbe
                       sampleMissing sampleManager sampleRequest)))
            = Running [ToStdout ["b"]%byte; ToStdout ["c"]%byte])
    by (vm_compute; reflexivity).
  destruct (body_is_encoder_output sampleSprint sampleResolution sampleProbe sampleMissing
              sampleManager sampleRequest sampleEnv 1 _ Hreach)
    as (_ & _ & Hprefix & Hwhole).
  split; [exact Hreach |]. split; [exact Hst |].
  split; [exact (Hprefix Hst) |]. split; [exact Hproc |].
  refine (Hwhole eq_refl _ _ Hproc). rewrite Hst. discriminate.
Defined.

(** X8 at an encoder that writes three bytes on its standard error and
    one on its standard output, with pipes of two bytes. *)
Lemma taking_turns_completes_witness :
  (0 < 2)%nat
  /\ startFailure sampleEnvNoisy = None
  /\ Env.client sampleEnvNoisy = None
  /\ Sys.proc
       (Sys.play (takingTurns (Env.script sampleEnvNoisy))
          (Sys.init sampleEnvNoisy 2
             (ServeTranscode sampleSprint sampleResolution sampleProbe sampleMissing
                sampleManager sampleRequest)))
     = Exited None
  /\ Response.body
       (World.resp
          (Sys.world
             (Sys.play (takingTurns (Env.script sampleEnvNoisy))
                (Sys.init sampleEnvNoisy 2
                   (ServeTranscode sampleSprint sampleResolution sampleProbe
                      sampleMissing sampleManager sampleRequest)))))
     = ["a"]%byte.
Proof.
  split; [lia |]. split; [reflexivity |]. split; [reflexivity |].
  destruct (taking_turns_completes sampleSprint sampleResolution sampleProbe sampleMissing
              sampleManager sampleRequest sampleEnvNoisy 2
              (Nat.lt_0_succ 1) eq_refl eq_refl)
    as (Hproc & _ & _ & Hbody & _).
  split; [exact Hproc | exact Hbody].
Defined.

(** X9 at an encoder that writes one chunk of two bytes, with pipes of
    two bytes: the chunk stays in the pipe. *)
Lemma wait_first_truncates_stream_witness :
  startFailure sampleEnvOneChunk = None
  /\ Env.script sampleEnvOneChunk = [ToStdout ["a"; "b"]%byte]
  /\ ["a"; "b"]%byte <> []
  /\ (length ["a"; "b"]%byte <= 2)%nat
  /\ Sys.outPipe
       (Sys.play waitFirst
          (Sys.init sampleEnvOneChunk 2
             (ServeTranscode sampleSprint sampleResolution sampleProbe sampleMissing
                sampleManager sampleRequest)))
     = ["a"; "b"]%byte
  /\ Response.body
       (World.resp
          (Sys.world
             (Sys.play waitFirst
                (Sys.init sampleEnvOneChunk 2
                   (ServeTranscode sampleSprint sampleResolution sampleProbe
                      sampleMissing sampleManager sampleRequest)))))
     = [].
Proof.
  assert (Hp : ["a"; "b"]%byte <> []) by discriminate.
  assert (Hlen : (length ["a"; "b"]%byte <= 2)%nat) by (cbn; lia).
  split; [reflexivity |]. split; [reflexivity |].
  split; [exact Hp |]. split; [exact Hlen |].
  destruct (wait_first_truncates_stream sampleSprint sampleResolution sampleProbe
              sampleMissing sampleManager sampleRequest sampleEnvOneChunk 2
              ["a"; "b"]%byte eq_refl eq_refl Hp Hlen)
    as (_ & _ & Hpipe & _ & Hbody & _).
  split; [exact Hpipe | exact Hbody].
Defined.


(** X11 at the state in which the encoder of the samples is stalled on
    its standard error. *)
Lemma one_goroutine_per_request_witness :
  Sys.reachable
    (Sys.init sampleEnvNoisy 2
       (ServeTranscode sampleSprint sampleResolution sampleProbe sampleMissing
          sampleManager sampleRequest))
    (Sys.play sampleSchedule
       (Sys.init sampleEnvNoisy 2
          (ServeTranscode sampleSprint sampleResolution sampleProbe sampleMissing
             sampleManager sampleRequest)))
  /\ (length
        (Sys.threads
           (Sys.play sampleSchedule
              (Sys.init sampleEnvNoisy 2
                 (ServeTranscode sampleSprint sampleResolution sampleProbe
                    sampleMissing sampleManager sampleRequest))))
      <= 2)%nat.
Proof.
  assert (Hreach :
            Sys.reachable
              (Sys.init sampleEnvNoisy 2
                 (ServeTranscode sampleSprint sampleResolution sampleProbe sampleMissing
                    sampleManager sampleRequest))
              (Sys.play sampleSchedule
                 (Sys.init sampleEnvNoisy 2
                    (ServeTranscode sampleSprint sampleResolution sampleProbe
                       sampleMissing sampleManager sampleRequest))))
    by (apply play_reachable; constructor).
  split; [exact Hreach |].
  apply (one_goroutine_per_request sampleSprint sampleResolution sampleProbe sampleMissing
           sampleManager sampleRequest sampleEnvNoisy 2 _ Hreach).
Defined.

(** X12 at a client that has left, with pipes of one byte: the
    encoder waits with a byte to write, and a cancellation ends it and
    the goroutine. *)
Lemma cancellation_ends_request_witness :
  Sys.reachable
    (Sys.init sampleEnvLong 1
       (ServeTranscode sampleSprint sampleResolution sampleProbe sampleMissing
          sampleManager sampleRequest))
    (Sys.play sampleScheduleGone
          (Sys.init sampleEnvLong 1
             (ServeTranscode sampleSprint sampleResolution sampleProbe sampleMissing
                sampleManager sampleRequest)))
  /\ Sys.proc
       (Sys.play sampleScheduleGone
          (Sys.init sampleEnvLong 1
             (ServeTranscode sampleSprint sampleResolution sampleProbe sampleMissing
                sampleManager sampleRequest)))
     <> NotStarted
  /\ Forall returned
       (Sys.threads
          (Sys.play (Cancel :: alternate 24)
             (Sys.play sampleScheduleGone
          (Sys.init sampleEnvLong 1
             (ServeTranscode sampleSprint sampleResolution sampleProbe sampleMissing
                sampleManager sampleRequest)))))
  /\ Sys.proc
       (Sys.play (Cancel :: alternate 24)
          (Sys.play sampleScheduleGone
          (Sys.init sampleEnvLong 1
             (ServeTranscode sampleSprint sampleResolution sampleProbe sampleMissing
                sampleManager sampleRequest))))
     = Exited (Some killed).
Proof.
  assert (Hreach :
            Sys.reachable
              (Sys.init sampleEnvLong 1
                 (ServeTranscode sampleSprint sampleResolution sampleProbe sampleMissing
                    sampleManager sampleRequest))
              (Sys.play sampleScheduleGone
          (Sys.init sampleEnvLong 1
             (ServeTranscode sampleSprint sampleResolution sampleProbe sampleMissing
                sampleManager sampleRequest))))
    by (apply play_reachable; constructor).
  assert (Hproc :
            Sys.proc
              (Sys.play sampleScheduleGone
          (Sys.init sampleEnvLong 1
             (ServeTranscode sampleSprint sampleResolution sampleProbe sampleMissing
                sampleManager sampleRequest)))
            = Running [ToStdout ["d"]%byte]) by (vm_compute; reflexivity).
  assert (Hstarted :
            Sys.proc
              (Sys.play sampleScheduleGone
          (Sys.init sampleEnvLong 1
             (ServeTranscode sampleSprint sampleResolution sampleProbe sampleMissing
                sampleManager sampleRequest)))
            <> NotStarted) by (rewrite Hproc; discriminate).
  destruct (cancellation_ends_request sampleSprint sampleResolution sampleProbe
              sampleMissing sampleManager sampleRequest sampleEnvLong 1 _ Hreach Hstarted)
    as (Hall & Hkilled & _).
  split; [exact Hreach |]. split; [exact Hstarted |]. split; [exact Hall |].
  exact (Hkilled _ Hproc).
Defined.

(** X13 at the same state. *)
Lemma unread_encoder_waits_for_cancel_witness :
  Sys.reachable
    (Sys.init sampleEnvLong 1
       (ServeTranscode sampleSprint sampleResolution sampleProbe sampleMissing
          sampleManager sampleRequest))
    (Sys.play sampleScheduleGone
          (Sys.init sampleEnvLong 1
             (ServeTranscode sampleSprint sampleResolution sampleProbe sampleMissing
                sampleManager sampleRequest)))
  /\ Sys.threads
       (Sys.play sampleScheduleGone
          (Sys.init sampleEnvLong 1
             (ServeTranscode sampleSprint sampleResolution sampleProbe sampleMissing
                sampleManager sampleRequest)))
     !! 0%nat
     = Some {| Thread.code := Ret tt; Thread.acc := [] |}
  /\ Sys.proc
       (Sys.play sampleScheduleGone
          (Sys.init sampleEnvLong 1
             (ServeTranscode sampleSprint sampleResolution sampleProbe sampleMissing
                sampleManager sampleRequest)))
     = Running [ToStdout ["d"]%byte]
  /\ Sys.outPipe
       (Sys.play sampleScheduleGone
          (Sys.init sampleEnvLong 1
             (ServeTranscode sampleSprint sampleResolution sampleProbe sampleMissing
                sampleManager sampleRequest)))
     = ["c"]%byte
  /\ Sys.step Encoder
       (Sys.play sampleScheduleGone
          (Sys.init sampleEnvLong 1
             (ServeTranscode sampleSprint sampleResolution sampleProbe sampleMissing
                sampleManager sampleRequest)))
     = None
  /\ Sys.step (ThreadOf 1)
       (Sys.play sampleScheduleGone
          (Sys.init sampleEnvLong 1
             (ServeTranscode sampleSprint sampleResolution sampleProbe sampleMissing
                sampleManager sampleRequest)))
     = None.
Proof.
  assert (Hreach :
            Sys.reachable
              (Sys.init sampleEnvLong 1
                 (ServeTranscode sampleSprint sampleResolution sampleProbe sampleMissing
                    sampleManager sampleRequest))
              (Sys.play sampleScheduleGone
          (Sys.init sampleEnvLong 1
             (ServeTranscode sampleSprint sampleResolution sampleProbe sampleMissing
                sampleManager sampleRequest))))
    by (apply play_reachable; constructor).
  assert (Hth :
            Sys.threads
              (Sys.play sampleScheduleGone
          (Sys.init sampleEnvLong 1
             (ServeTranscode sampleSprint sampleResolution sampleProbe sampleMissing
                sampleManager sampleRequest)))
            !! 0%nat
            = Some {| Thread.code := Ret tt; Thread.acc := [] |})
    by (vm_compute; reflexivity).
  assert (Hproc :
            Sys.proc
              (Sys.play sampleScheduleGone
          (Sys.init sampleEnvLong 1
             (ServeTranscode sampleSprint sampleResolution sampleProbe sampleMissing
                sampleManager sampleRequest)))
            = Running [ToStdout ["d"]%byte]) by (vm_compute; reflexivity).
  assert (Hpipe :
            Sys.outPipe
              (Sys.play sampleScheduleGone
          (Sys.init sampleEnvLong 1
             (ServeTranscode sampleSprint sampleResolution sampleProbe sampleMissing
                sampleManager sampleRequest)))
            = ["c"]%byte) by (vm_compute; reflexivity).
  assert (Hm : forall m,
            Sys.threads
              (Sys.play sampleScheduleGone
          (Sys.init sampleEnvLong 1
             (ServeTranscode sampleSprint sampleResolution sampleProbe sampleMissing
                sampleManager sampleRequest)))
            !! 0%nat = Some m -> returned m).
  { intros m H. rewrite Hth in H. injection H as <-. reflexivity. }
  assert (Hfull :
            (Sys.capacity
               (Sys.play sampleScheduleGone
          (Sys.init sampleEnvLong 1
             (ServeTranscode sampleSprint sampleResolution sampleProbe sampleMissing
                sampleManager sampleRequest)))
             <= length
                  (Sys.outPipe
                     (Sys.play sampleScheduleGone
          (Sys.init sampleEnvLong 1
             (ServeTranscode sampleSprint sampleResolution sampleProbe sampleMissing
                sampleManager sampleRequest)))))%nat).
  { rewrite Hpipe, play_capacity. cbn. lia. }
  assert (Herr :
            Sys.errPipe
              (Sys.play sampleScheduleGone
          (Sys.init sampleEnvLong 1
             (ServeTranscode sampleSprint sampleResolution sampleProbe sampleMissing
                sampleManager sampleRequest)))
            = []) by (vm_compute; reflexivity).
  destruct (unread_encoder_waits_for_cancel sampleSprint sampleResolution sampleProbe
              sampleMissing sampleManager sampleRequest sampleEnvLong 1 _
              ["d"]%byte [] Hreach Hm Hproc ltac:(discriminate) Hfull Herr)
    as (Hthreads & Henc & _).
  split; [exact Hreach |]. split; [exact Hth |]. split; [exact Hproc |].
  split; [exact Hpipe |]. split; [exact Henc | exact (Hthreads 1%nat)].
Defined.

(** X14 at the request of the samples with pipes of one byte, after
    its first eight moves. *)
Lemma no_halt_while_client_stays_witness :
  (0 < 1)%nat
  /\ Env.client sampleEnv = None
  /\ Sys.reachable
       (Sys.init sampleEnv 1
       (ServeTranscode sampleSprint sampleResolution sampleProbe sampleMissing
          sampleManager sampleRequest))
       (Sys.play boot
          (Sys.init sampleEnv 1
       (ServeTranscode sampleSprint sampleResolution sampleProbe sampleMissing
          sampleManager sampleRequest)))
  /\ (atRest
         (Sys.play boot
            (Sys.init sampleEnv 1
       (ServeTranscode sampleSprint sampleResolution sampleProbe sampleMissing
          sampleManager sampleRequest)))
      \/ exists a s',
           a <> Cancel
           /\ Sys.step a
                (Sys.play boot
                   (Sys.init sampleEnv 1
       (ServeTranscode sampleSprint sampleResolution sampleProbe sampleMissing
          sampleManager sampleRequest)))
              = Some s').
Proof.
  assert (Hreach :
            Sys.reachable
              (Sys.init sampleEnv 1
       (ServeTranscode sampleSprint sampleResolution sampleProbe sampleMissing
          sampleManager sampleRequest))
              (Sys.play boot
                 (Sys.init sampleEnv 1
       (ServeTranscode sampleSprint sampleResolution sampleProbe sampleMissing
          sampleManager sampleRequest))))
    by (apply play_reachable; constructor).
  split; [lia |]. split; [reflexivity |]. split; [exact Hreach |].
  apply (no_halt_while_client_stays sampleSprint sampleResolution sampleProbe
           sampleMissing sampleManager sampleRequest sampleEnv 1 _
           (Nat.lt_0_succ 0) eq_refl Hreach).
Defined.

(** X15 at the first move of the request of the samples. *)
Lemma runs_are_bounded_witness :
  runs
    (Sys.init sampleEnv 1
       (ServeTranscode sampleSprint sampleResolution sampleProbe sampleMissing
          sampleManager sampleRequest))
    1
    (Sys.play [ThreadOf 0]
       (Sys.init sampleEnv 1
       (ServeTranscode sampleSprint sampleResolution sampleProbe sampleMissing
          sampleManager sampleRequest)))
  /\ (1 <= 3 * scriptSize (Env.script sampleEnv) + 25)%nat.
Proof.
  assert (Hrun :
            runs
              (Sys.init sampleEnv 1
       (ServeTranscode sampleSprint sampleResolution sampleProbe sampleMissing
          sampleManager sampleRequest))
              1
              (Sys.play [ThreadOf 0]
                 (Sys.init sampleEnv 1
       (ServeTranscode sampleSprint sampleResolution sampleProbe sampleMissing
          sampleManager sampleRequest)))).
  { eapply (runs_step _ 0 _ (ThreadOf 0)); [apply runs_init | reflexivity]. }
  split; [exact Hrun |].
  apply (runs_are_bounded sampleSprint sampleResolution sampleProbe sampleMissing
           sampleManager sampleRequest sampleEnv 1 1 _ Hrun).
Defined.

(** The request of the samples with pipes of two bytes, move by move to
    its end: the log holds what the encoder wrote on its standard
    error. *)
Example sampleNoisy_completes :
  logged
    (World.trace
       (Sys.world
          (Sys.play (takingTurns (Env.script sampleEnvNoisy))
             (Sys.init sampleEnvNoisy 2
                (ServeTranscode sampleSprint sampleResolution sampleProbe
                   sampleMissing sampleManager sampleRequest)))))
  = [ELog LevelError "[transcode] ffmpeg error when running command <%s>: %v"
       ["ffmpeg -hide_banner -v error -ss 30.5 -i /media/b.mp4 -c:v libx264 -movflags frag_keyframe+empty_moov -pix_fmt yuv420p -preset veryfast -crf 25 -an -f mp4 pipe:";
        "xyz"]].
Proof. vm_compute. reflexivity. Qed.
